(** * Marker REST API fuzzer: a shallow embedding of the fuzzing core

    The development follows the Python sources module by module:
    [utils/utils.py], [feedback/utils.py], [feedback/tcl.py],
    [feedback/id_tracking.py], [generator/utils.py], [generator/request.py],
    [generator/selection.py], [mutation/mutate.py], [parser/swagger.py],
    [executor/auth.py], [executor/sender.py] and the main loop of
    [test_fuzz.py].

    Conventions.
    - A Python [str] is a [string]; a character of it stands for the code
      point of the same number, so the strings covered are those over the
      code points 0..255 (ASCII and Latin-1).  The character classes below
      ([char_isalnum], [char_lower], ...) are Python's on that range.
    - A Python float is an exact rational, or one of the three special
      values ([pyfloat]); the scores of the feedback loop are rationals.
      The rounding of binary floating point is outside the model: a sum
      such as 24 + 5 * 0.2 is 25 here and a little less in Python, and
      [round] works on the decimal written, not on the double nearest to
      it.
    - [json.loads], [json.dumps], the iteration order of a [set] and [repr]
      belong to the Python runtime, not to the repository: they are the
      fields of a [python] record that every function using them takes.
    - [random] is a stream of raw draws ([rng]) threaded through the code.
    - An exception is a value of [exc]; a function that can raise returns a
      [result]. *)

From Stdlib Require Import ZArith QArith Qround Lia Lqa String Ascii List Permutation.
From stdpp Require Import gmap strings list pretty.

Local Open Scope string_scope.
Local Open Scope list_scope.
Local Set Warnings "-register-all".

(* ================================================================== *)
(** * Python strings *)
(* ================================================================== *)

Module PyStr.

Definition code (c : ascii) : N := N_of_ascii c.

Definition in_range (lo hi : N) (c : ascii) : bool :=
  ((lo <=? code c) && (code c <=? hi))%N.

Definition code_in (l : list N) (c : ascii) : bool :=
  existsb (N.eqb (code c)) l.

(** [str.isdecimal] on one character (also the regex class [\d]). *)
Definition char_isdecimal (c : ascii) : bool := in_range 48 57 c.

(** [str.isdigit]: the decimal digits and the superscripts 2, 3, 1. *)
Definition char_isdigit (c : ascii) : bool :=
  char_isdecimal c || code_in [178; 179; 185]%N c.

Definition char_isupper (c : ascii) : bool :=
  in_range 65 90 c || in_range 192 214 c || in_range 216 222 c.

Definition char_islower (c : ascii) : bool :=
  in_range 97 122 c || code_in [170; 181; 186]%N c
  || in_range 223 246 c || in_range 248 255 c.

(** [str.isalpha]: the letters (general category L). *)
Definition char_isalpha (c : ascii) : bool :=
  char_isupper c || char_islower c.

(** [str.isalnum]: [isalpha], [isdecimal], [isdigit] or [isnumeric]; the
    last adds the vulgar fractions 188..190. *)
Definition char_isalnum (c : ascii) : bool :=
  char_isalpha c || char_isdigit c || in_range 188 190 c.

Definition char_isspace (c : ascii) : bool :=
  in_range 9 13 c || in_range 28 32 c || code_in [133; 160]%N c.

Definition char_lower (c : ascii) : ascii :=
  if char_isupper c then ascii_of_N (code c + 32) else c.

(** The characters A-Z, a-z, 0-9. *)
Definition char_ascii_alnum (c : ascii) : bool :=
  in_range 48 57 c || in_range 65 90 c || in_range 97 122 c.

Definition chars (s : string) : list ascii := list_ascii_of_string s.
Definition of_chars (l : list ascii) : string := string_of_list_ascii l.

Definition len (s : string) : nat := String.length s.

(** [s.lower()] *)
Definition lower (s : string) : string := of_chars (map char_lower (chars s)).

Definition rev (s : string) : string := of_chars (List.rev (chars s)).

(** [s.startswith(p)] and [s.endswith(p)] *)
Definition startswith (s p : string) : bool := String.prefix p s.
Definition endswith (s p : string) : bool := String.prefix (rev p) (rev s).

(** [sub in s] *)
Fixpoint contains (sub s : string) : bool :=
  String.prefix sub s ||
  match s with
  | EmptyString => false
  | String _ s' => contains sub s'
  end.

Definition char_in (c : ascii) (set : string) : bool :=
  existsb (Ascii.eqb c) (chars set).

Fixpoint lstrip (set : string) (s : string) : string :=
  match s with
  | EmptyString => EmptyString
  | String c s' => if char_in c set then lstrip set s' else s
  end.

(** [s.strip(set)] *)
Definition strip (set : string) (s : string) : string :=
  rev (lstrip set (rev (lstrip set s))).

(** [s.split(sep)] for a separator of one character. *)
Fixpoint split (sep : ascii) (s : string) : list string :=
  match s with
  | EmptyString => [EmptyString]
  | String c s' =>
      if Ascii.eqb c sep then EmptyString :: split sep s'
      else match split sep s' with
           | h :: t => String c h :: t
           | [] => [String c EmptyString]
           end
  end.

(** [sep.join(l)] *)
Definition join (sep : string) (l : list string) : string := String.concat sep l.

(** [s.replace(old, new)] for a non-empty [old]: the occurrences are found
    from the left and do not overlap; [skip] counts the characters of a
    found occurrence still to be dropped. *)
Fixpoint replace_go (old new : string) (skip : nat) (s : string) : string :=
  match s with
  | EmptyString => EmptyString
  | String c s' =>
      match skip with
      | S k => replace_go old new k s'
      | O =>
          if String.prefix old s
          then new ++ replace_go old new (String.length old - 1) s'
          else String c (replace_go old new 0 s')
      end
  end.

(** With an empty [old], Python inserts [new] before every character
    and at the end. *)
Fixpoint interleave (new : string) (s : string) : string :=
  match s with
  | EmptyString => new
  | String c s' => new ++ String c (interleave new s')
  end.

Definition replace (old new s : string) : string :=
  match old with
  | EmptyString => interleave new s
  | _ => replace_go old new 0 s
  end.

(** [s.isdigit()], [s.isalnum()]: every character, and at least one. *)
Definition isdigit (s : string) : bool :=
  negb (String.eqb s "") && forallb char_isdigit (chars s).
Definition isalnum (s : string) : bool :=
  negb (String.eqb s "") && forallb char_isalnum (chars s).

(** [s.islower()]: no uppercase character and at least one lowercase. *)
Definition islower (s : string) : bool :=
  forallb (fun c => negb (char_isupper c)) (chars s)
  && existsb char_islower (chars s).

End PyStr.

(* ================================================================== *)
(** * Python values, exceptions and the runtime *)
(* ================================================================== *)

(** A float: an exact rational or one of the special values. *)
Inductive pyfloat : Type :=
| FQ (q : Q)
| FInf
| FNegInf
| FNaN.

(** The values that [json.loads] produces and that the generators build.
    A [dict] keeps its keys in insertion order, each key once. *)
Inductive value : Type :=
| VNone
| VBool (b : bool)
| VInt (z : Z)
| VFloat (f : pyfloat)
| VStr (s : string)
| VList (l : list value)
| VDict (d : list (string * value)).

Inductive exc : Type :=
| TypeError | AttributeError | KeyError | ValueError | IndexError | RuntimeError
| ZeroDivisionError.

Inductive result (A : Type) : Type :=
| Ok (a : A)
| Raise (e : exc).
Arguments Ok {A} a.
Arguments Raise {A} e.

(** The exception monad, with stdpp's [x ← r; k] notation. *)
Global Instance result_ret : MRet result := fun A a => Ok a.
Global Instance result_bind : MBind result := fun A B k r =>
  match r with
  | Ok a => k a
  | Raise e => Raise e
  end.

(** What the code uses of the Python runtime. *)
Record python : Type := {
  (** [json.loads] on a [str]: [None] when it raises.  What it raises on
      a malformed text is a [json.JSONDecodeError]; a text on which it
      raises something else (an integer of more digits than the
      interpreter converts, a nesting deeper than its stack) is outside
      the model, so that the handler of [CALCULATE_DIVERSITY], which
      catches that exception only, and the handlers that catch every
      exception read the same field. *)
  json_loads : string -> option value;
  (** [json.dumps] *)
  json_dumps : value -> string;
  (** the order in which a [set] of strings is iterated, from the order in
      which its elements were inserted *)
  set_iter : list string -> list string;
  (** [str] of a float, a list or a dict *)
  repr : value -> string
}.

(** Iterating a set yields each of its elements once. *)
Definition set_iter_ok (py : python) : Prop :=
  forall l, NoDup l -> Permutation (set_iter py l) l.

Module Py.

Fixpoint dict_get (k : string) (d : list (string * value)) : option value :=
  match d with
  | [] => None
  | (k', v) :: d' => if String.eqb k k' then Some v else dict_get k d'
  end.

Definition dict_has (k : string) (d : list (string * value)) : bool :=
  match dict_get k d with Some _ => true | None => false end.

(** [d[k] = v]: an existing key keeps its place, a new one goes last. *)
Fixpoint dict_set (k : string) (v : value) (d : list (string * value))
  : list (string * value) :=
  match d with
  | [] => [(k, v)]
  | (k', v') :: d' =>
      if String.eqb k k' then (k, v) :: d' else (k', v') :: dict_set k v d'
  end.

Definition dict_keys (d : list (string * value)) : list string := map fst d.

(** [dict(items)] *)
Definition dict_of_items (items : list (string * value)) : list (string * value) :=
  fold_left (fun d kv => dict_set (fst kv) (snd kv) d) items [].

Definition float_is_zero (f : pyfloat) : bool :=
  match f with FQ q => Qeq_bool q 0 | _ => false end.

(** [bool(v)] *)
Definition truthy (v : value) : bool :=
  match v with
  | VNone => false
  | VBool b => b
  | VInt z => negb (Z.eqb z 0)
  | VFloat f => negb (float_is_zero f)
  | VStr s => negb (String.eqb s "")
  | VList l => match l with [] => false | _ => true end
  | VDict d => match d with [] => false | _ => true end
  end.

(** [bool] is a subclass of [int]: the integer a boolean stands for. *)
Definition int_of_bool (b : bool) : Z := if b then 1%Z else 0%Z.

(** [str(v)] *)
Definition str (py : python) (v : value) : string :=
  match v with
  | VStr s => s
  | VInt z => pretty z
  | VBool true => "True"
  | VBool false => "False"
  | VNone => "None"
  | _ => repr py v
  end.

(** A set of strings as the list of its elements in insertion order. *)
Definition set_add (x : string) (s : list string) : list string :=
  if existsb (String.eqb x) s then s else s ++ [x].

Definition set_of_list (l : list string) : list string :=
  fold_left (fun s x => set_add x s) l [].

(** [a.union(b)]: a copy of [a], then the elements of [b]. *)
Definition set_union (py : python) (a b : list string) : list string :=
  set_of_list (set_iter py a ++ set_iter py b).

End Py.

(** ** [random] *)

Definition rng : Type := list N.

Module Random.

Definition draw (g : rng) : N * rng :=
  match g with
  | [] => (0%N, [])
  | n :: g' => (n, g')
  end.

Definition randbelow (n : nat) (g : rng) : nat * rng :=
  let '(x, g') := draw g in (N.to_nat x mod n, g').

(** [random.choice(l)] for a non-empty [l] (every call below has one);
    [d] is never returned then. *)
Definition choice {A} (d : A) (l : list A) (g : rng) : A * rng :=
  let '(i, g') := randbelow (length l) g in (nth i l d, g').

(** [random.random()]: a multiple of 2^-53 in [0, 1). *)
Definition random (g : rng) : Q * rng :=
  let '(x, g') := draw g in
  (Qmake (Z.of_N (x mod 2 ^ 53)) (2 ^ 53), g').

(** [random.randint(a, b)] *)
Definition randint (a b : Z) (g : rng) : result (Z * rng) :=
  if (b <? a)%Z then Raise ValueError
  else let '(i, g') := randbelow (Z.to_nat (b - a + 1)) g in
       Ok ((a + Z.of_nat i)%Z, g').

(** [''.join(random.choices(string.digits, k=n))] *)
Fixpoint digits (n : nat) (g : rng) : string * rng :=
  match n with
  | O => ("", g)
  | S n' =>
      let '(c, g1) := choice "0"%char (PyStr.chars "0123456789") g in
      let '(s, g2) := digits n' g1 in
      (String c s, g2)
  end.

Fixpoint accumulate (acc : Q) (w : list Q) : list Q :=
  match w with
  | [] => []
  | x :: w' => (acc + x)%Q :: accumulate (acc + x)%Q w'
  end.

(** [bisect_right(cum, x, 0, hi)] on a sorted [cum]: the first index
    below [hi] whose entry exceeds [x], else [hi]. *)
Fixpoint bisect (cum : list Q) (x : Q) (hi : nat) : nat :=
  match hi, cum with
  | S hi', c :: cum' => if Qlt_le_dec x c then O else S (bisect cum' x hi')
  | _, _ => O
  end.

(** [random.choices(population, weights=w, k=1)[0]] *)
Definition choices1 {A} (d : A) (population : list A) (w : list Q) (g : rng)
  : result (A * rng) :=
  let cum := accumulate 0 w in
  if negb (length cum =? length population)%nat then Raise ValueError
  else
    let total := List.last cum 0%Q in
    if Qle_bool total 0 then Raise ValueError
    else
      let '(r, g') := random g in
      let i := bisect cum (r * total)%Q (length population - 1) in
      Ok (nth i population d, g').

End Random.

(* ================================================================== *)
(** * The data model: endpoints, requests, responses *)
(* ================================================================== *)

(** [parser/swagger.py], class [Endpoint]: the fields the fuzzing core
    reads.  [request_body] is [VNone] or the dict built by
    [_extract_request_body_v3] / [_extract_request_body_v2]. *)
Record Endpoint : Type := {
  path : string;
  method : string;
  parameters : list value;
  request_body : value
}.

(** A request dict.  [req_body] is [VNone], a dict (from [build_request]
    and [mutate_request]) or a JSON text ([deep_mutation]); the key
    ["parameters"] is absent from the requests [mutate_request] builds. *)
Record request : Type := {
  req_method : string;
  req_url : string;
  req_headers : list (string * value);
  req_body : value;
  req_parameters : option (list value)
}.

(** A response dict as [send_sequence] builds it: the status code (0 for
    a transport error), the body text and [dict(resp.headers)], whose keys
    are spelled as the server sent them. *)
Record response : Type := {
  status : Z;
  body : string;
  headers : list (string * string)
}.

Fixpoint assoc {A} (k : string) (d : list (string * A)) : option A :=
  match d with
  | [] => None
  | (k', v) :: d' => if String.eqb k k' then Some v else assoc k d'
  end.

(* ================================================================== *)
(** * [utils/utils.py] *)
(* ================================================================== *)

Definition normalize_path (p : string) : string :=
  let parts := PyStr.split "/" (PyStr.strip "/" p) in
  PyStr.join "/"
    (map (fun p => if PyStr.isdigit p || (PyStr.isalnum p && negb (PyStr.islower p))
                   then "{param}" else p) parts).

Definition sequence_signature (sequence : list request) : list (string * string) :=
  map (fun req => (req_method req, normalize_path (req_url req))) sequence.

(* ================================================================== *)
(** * [feedback/utils.py] *)
(* ================================================================== *)

(** The loop over [zip(concrete_parts, spec_parts)] of [match_path]. *)
Fixpoint match_parts (concrete_parts spec_parts : list string) : bool :=
  match concrete_parts, spec_parts with
  | cp :: cps, sp :: sps =>
      if PyStr.startswith sp "{" && PyStr.endswith sp "}" then match_parts cps sps
      else if negb (String.eqb cp sp) then false
      else match_parts cps sps
  | _, _ => true
  end.

Definition match_path (concrete spec : string) : bool :=
  let concrete_parts := PyStr.split "/" (PyStr.strip "/" concrete) in
  let spec_parts := PyStr.split "/" (PyStr.strip "/" spec) in
  if negb (length concrete_parts =? length spec_parts)%nat then false
  else match_parts concrete_parts spec_parts.

Definition match_paths_with_dependencies (concrete_paths spec_paths : gset string)
  : gset string :=
  list_to_set
    (flat_map (fun concrete =>
                 List.filter (fun spec => match_path concrete spec) (elements spec_paths))
              (elements concrete_paths)).

Definition match_operations_with_dependencies
    (actual_ops spec_ops : gset (string * string)) : gset (string * string) :=
  list_to_set
    (flat_map (fun '(method, concrete_path) =>
                 List.filter (fun '(spec_method, spec_path) =>
                                String.eqb method spec_method
                                && match_path concrete_path spec_path)
                             (elements spec_ops))
              (elements actual_ops)).

(* ================================================================== *)
(** * [feedback/tcl.py] *)
(* ================================================================== *)

(** The six coverage dimensions; a key missing from the dict reads as the
    empty set ([.get(field, set())]). *)
Record coverage : Type := {
  paths : gset string;
  operations : gset (string * string);
  cov_parameters : gset string;
  status_codes : gset string;
  response_fields : gset string;
  input_content_types : gset (string * string * string)
}.

Definition empty_coverage : coverage :=
  {| paths := ∅; operations := ∅; cov_parameters := ∅; status_codes := ∅;
     response_fields := ∅; input_content_types := ∅ |}.

(** [coverage[k].update(other[k])] for every dimension [k]. *)
Definition coverage_update (c other : coverage) : coverage :=
  {| paths := paths c ∪ paths other;
     operations := operations c ∪ operations other;
     cov_parameters := cov_parameters c ∪ cov_parameters other;
     status_codes := status_codes c ∪ status_codes other;
     response_fields := response_fields c ∪ response_fields other;
     input_content_types := input_content_types c ∪ input_content_types other |}.

(** The body of the loop over [requests] in [extract_seq_coverage].  A
    content type is recorded when it is a string: no other value can equal
    a declared content type. *)
Definition cover_request (c : coverage) (req : request) : coverage :=
  let url := hd "" (PyStr.split "?" (req_url req)) in
  let method := req_method req in
  let params1 :=
    match req_headers req with
    | [] => cov_parameters c
    | hs => cov_parameters c ∪ list_to_set (map fst hs)
    end in
  let params2 :=
    match req_body req with
    | VDict ((_ :: _) as d) => params1 ∪ list_to_set (Py.dict_keys d)
    | _ => params1
    end in
  let ctypes :=
    if Py.truthy (req_body req) then
      match assoc "Content-Type" (req_headers req) with
      | Some (VStr ctype) =>
          if String.eqb ctype "" then input_content_types c
          else input_content_types c ∪ {[ (method, url, ctype) ]}
      | _ => input_content_types c
      end
    else input_content_types c in
  {| paths := paths c ∪ {[ url ]};
     operations := operations c ∪ {[ (method, url) ]};
     cov_parameters := params2;
     status_codes := status_codes c;
     response_fields := response_fields c;
     input_content_types := ctypes |}.

(** The body of the loop over [responses]. *)
Definition cover_response (py : python) (c : coverage) (resp : response) : coverage :=
  let codes := status_codes c ∪ {[ pretty (status resp) ]} in
  let fields :=
    match json_loads py (body resp) with
    | Some (VDict d) => response_fields c ∪ list_to_set (Py.dict_keys d)
    | _ => response_fields c
    end in
  {| paths := paths c; operations := operations c;
     cov_parameters := cov_parameters c;
     status_codes := codes; response_fields := fields;
     input_content_types := input_content_types c |}.

Definition extract_seq_coverage (py : python)
    (requests : list request) (responses : list response) : coverage :=
  fold_left (cover_response py) responses
            (fold_left cover_request requests empty_coverage).

(** [len(matched) / len(total)] *)
Definition ratio (matched total : nat) : Q :=
  (inject_Z (Z.of_nat matched) / inject_Z (Z.of_nat total))%Q.

(** One turn of the loop over [fields]: a dimension whose expected set is
    empty is skipped. *)
Definition partial_score `{Countable A} (matched total : gset A) : Q :=
  if decide (total = ∅) then 0%Q else ratio (size matched) (size total).

Definition calculate_tcl_score (seq_coverage spec_info : coverage) : Q :=
  (0
   + partial_score (match_paths_with_dependencies (paths seq_coverage) (paths spec_info))
                   (paths spec_info)
   + partial_score (match_operations_with_dependencies
                      (operations seq_coverage) (operations spec_info))
                   (operations spec_info)
   + partial_score (cov_parameters seq_coverage ∩ cov_parameters spec_info)
                   (cov_parameters spec_info)
   + partial_score (status_codes seq_coverage ∩ status_codes spec_info)
                   (status_codes spec_info)
   + partial_score (response_fields seq_coverage ∩ response_fields spec_info)
                   (response_fields spec_info)
   + partial_score (input_content_types seq_coverage ∩ input_content_types spec_info)
                   (input_content_types spec_info))%Q.

Definition new_key (parent_key key : string) : string :=
  if String.eqb parent_key "" then key else parent_key ++ "." ++ key.

(** [flatten_json(data, parent_key)] with the default separator. *)
Fixpoint flatten_json (data : value) (parent_key : string) : list (string * value) :=
  match data with
  | VDict d =>
      Py.dict_of_items
        ((fix items (d : list (string * value)) : list (string * value) :=
            match d with
            | [] => []
            | (key, v) :: d' => flatten_json v (new_key parent_key key) ++ items d'
            end) d)
  | VList l =>
      Py.dict_of_items
        ((fix items (index : nat) (l : list value) : list (string * value) :=
            match l with
            | [] => []
            | v :: l' =>
                flatten_json v (new_key parent_key (pretty index)) ++ items (S index) l'
            end) 0%nat l)
  | _ => Py.dict_of_items [(parent_key, data)]
  end.

(** [s.strip()] is empty: every character is whitespace. *)
Definition blank (s : string) : bool := forallb PyStr.char_isspace (PyStr.chars s).

Definition CALCULATE_DIVERSITY (py : python) (resp : response) (seen_fields : gset string)
  : Q * gset string :=
  let content_type := default "" (assoc "content-type" (headers resp)) in
  if blank (body resp) || negb (PyStr.contains "application/json" content_type)
  then (0%Q, seen_fields)
  else
    match json_loads py (body resp) with
    | None => (0%Q, seen_fields)
    | Some json_body =>
        let flat := flatten_json json_body "" in
        let fields : gset string := list_to_set (Py.dict_keys flat) in
        let new_fields := fields ∖ seen_fields in
        (inject_Z (Z.of_nat (size new_fields)), fields)
    end.

(* ================================================================== *)
(** * [feedback/id_tracking.py] *)
(* ================================================================== *)

Definition is_valid_id (val : string) : bool :=
  if (30 <? PyStr.len val)%nat then false
  else if PyStr.contains " " val then false
  else if negb (forallb (fun c => PyStr.char_isalnum c || PyStr.char_in c "-_")
                        (PyStr.chars val))
  then false
  else true.

(** [found.setdefault(token, set()).add(value)]: [found] maps a token to
    the set of its values, kept as the list of insertions. *)
Fixpoint found_add (token val : string) (found : list (string * list string))
  : list (string * list string) :=
  match found with
  | [] => [(token, Py.set_add val [])]
  | (t, vs) :: found' =>
      if String.eqb token t then (t, Py.set_add val vs) :: found'
      else (t, vs) :: found_add token val found'
  end.

(** The first token of [match_tokens], in iteration order, that the
    lowered key starts or ends with. *)
Definition matching_token (match_tokens : list string) (key_lower : string)
  : option string :=
  List.find (fun token => PyStr.startswith key_lower token
                          || PyStr.endswith key_lower token) match_tokens.

(** The body of [for k, v in obj.items()] when [v] is a [str] or an [int]
    (a [bool] is an [int]). *)
Definition extract_scalar (py : python) (match_tokens : list string)
    (k : string) (v : value) (found : list (string * list string))
  : list (string * list string) :=
  let key_lower := PyStr.lower k in
  let val := Py.str py v in
  if is_valid_id val then
    match matching_token match_tokens key_lower with
    | Some token => found_add token val found
    | None => found
    end
  else found.

Fixpoint recursive_extract (py : python) (match_tokens : list string)
    (obj : value) (found : list (string * list string)) {struct obj}
  : list (string * list string) :=
  match obj with
  | VDict d =>
      (fix items (d : list (string * value)) (found : list (string * list string)) :=
         match d with
         | [] => found
         | (k, v) :: d' =>
             items d'
               match v with
               | VStr _ | VInt _ | VBool _ => extract_scalar py match_tokens k v found
               | VDict _ | VList _ => recursive_extract py match_tokens v found
               | _ => found
               end
         end) d found
  | VList l =>
      (fix each (l : list value) (found : list (string * list string)) :=
         match l with
         | [] => found
         | item :: l' => each l' (recursive_extract py match_tokens item found)
         end) l found
  | _ => found
  end.

Definition base_tokens : list string := ["id"; "key"; "token"].

(** [{t.lower() for t in base_tokens.union(param_names)}], as iterated. *)
Definition match_tokens_of (py : python) (param_names : list string) : list string :=
  set_iter py
    (Py.set_of_list (map PyStr.lower (set_iter py (Py.set_union py base_tokens param_names)))).

(** [param_names] is the set of dynamic parameter names, given by the list
    of its elements in insertion order. *)
Definition EXTRACT_IDS (py : python) (json_body : string) (param_names : list string)
  : list (string * list string) :=
  match json_loads py json_body with
  | None => []
  | Some parsed =>
      let found := recursive_extract py (match_tokens_of py param_names) parsed [] in
      map (fun '(k, v) => (k, set_iter py v)) found
  end.

(** The (token, value) insertions of the tree walk, in the order in which
    the walk makes them. *)
Definition scalar_events (py : python) (match_tokens : list string)
    (k : string) (v : value) : list (string * string) :=
  let val := Py.str py v in
  if is_valid_id val then
    match matching_token match_tokens (PyStr.lower k) with
    | Some token => [(token, val)]
    | None => []
    end
  else [].

Fixpoint walk_events (py : python) (match_tokens : list string) (obj : value)
  {struct obj} : list (string * string) :=
  match obj with
  | VDict d =>
      (fix items (d : list (string * value)) :=
         match d with
         | [] => []
         | (k, v) :: d' =>
             match v with
             | VStr _ | VInt _ | VBool _ => scalar_events py match_tokens k v
             | VDict _ | VList _ => walk_events py match_tokens v
             | _ => []
             end ++ items d'
         end) d
  | VList l =>
      (fix each (l : list value) :=
         match l with
         | [] => []
         | item :: l' => walk_events py match_tokens item ++ each l'
         end) l
  | _ => []
  end.

(** The values inserted for [token], each at its first occurrence. *)
Definition first_encounters (token : string) (events : list (string * string))
  : list string :=
  Py.set_of_list (map snd (List.filter (fun e => String.eqb (fst e) token) events)).

(** The update of [dynamic_id_table] by the main loop ([test_fuzz.py]). *)
Fixpoint table_append (k val : string) (table : list (string * list string))
  : list (string * list string) :=
  match table with
  | [] => [(k, [val])]
  | (k', vs) :: table' =>
      if String.eqb k k'
      then (k', if existsb (String.eqb val) vs then vs else vs ++ [val]) :: table'
      else (k', vs) :: table_append k val table'
  end.

Fixpoint table_setdefault (k : string) (table : list (string * list string))
  : list (string * list string) :=
  match table with
  | [] => [(k, [])]
  | (k', vs) :: table' =>
      if String.eqb k k' then table else (k', vs) :: table_setdefault k table'
  end.

Definition update_id_table (table new_ids : list (string * list string))
  : list (string * list string) :=
  fold_left (fun table '(k, v) =>
               fold_left (fun table val => table_append k val table) v
                         (table_setdefault k table))
            new_ids table.

(* ================================================================== *)
(** * [generator/utils.py] *)
(* ================================================================== *)

Definition key_matches (param k : string) : bool :=
  PyStr.startswith param k || PyStr.endswith param k
  || PyStr.startswith k param || PyStr.endswith k param.

Definition get_matching_key (param_name : string) (dynamic_id_table : list (string * list string))
  : option string :=
  let param := PyStr.lower param_name in
  option_map fst
    (List.find (fun '(key, _) => key_matches param (PyStr.lower key)) dynamic_id_table).

Definition has_matching_id (param_name : string) (dynamic_id_table : list (string * list string))
  : bool :=
  let param := PyStr.lower param_name in
  existsb (fun '(key, _) => key_matches param (PyStr.lower key)) dynamic_id_table.

(* ================================================================== *)
(** * [generator/request.py] *)
(* ================================================================== *)

(** The longest prefix of decimal digits, and the rest. *)
Fixpoint span_digits (s : string) : string * string :=
  match s with
  | EmptyString => ("", "")
  | String c s' =>
      if PyStr.char_isdecimal c
      then let '(ds, rest) := span_digits s' in (String c ds, rest)
      else ("", s)
  end.

(** [int(ds)] for a string of decimal digits. *)
Definition int_of_digits (ds : string) : Z :=
  fold_left (fun acc c => (10 * acc + Z.of_N (PyStr.code c - 48))%Z) (PyStr.chars ds) 0%Z.

Definition strip_prefix (p s : string) : option string :=
  if String.prefix p s
  then Some (String.substring (String.length p) (String.length s - String.length p) s)
  else None.

(** The [re.fullmatch] of [generate_matching_string]: the pattern is one
    digit, an opening brace, digits, a comma, digits and a closing brace. *)
Definition fullmatch_digit_range (pattern : string) : bool :=
  match pattern with
  | String c rest =>
      PyStr.char_isdecimal c &&
      match strip_prefix "{" rest with
      | Some r0 =>
          let '(ds1, r1) := span_digits r0 in
          negb (String.eqb ds1 "") &&
          match strip_prefix "," r1 with
          | Some r2 =>
              let '(ds2, r3) := span_digits r2 in
              negb (String.eqb ds2 "") && String.eqb r3 "}"
          | None => false
          end
      | None => false
      end
  | EmptyString => false
  end.

Definition newline : string := String "010"%char "".

(** The [re.match] of [generate_matching_string]: the pattern is a caret,
    a backslash, [d], an opening brace, digits, an optional comma, further
    digits, a closing brace and a dollar, at the end of the pattern or
    before its final newline.  The result is the two groups of digits. *)
Definition match_digit_count (pattern : string) : option (string * string) :=
  match strip_prefix "^\d{" pattern with
  | Some r0 =>
      let '(g1, r1) := span_digits r0 in
      if String.eqb g1 "" then None
      else
        let r2 := match strip_prefix "," r1 with Some r => r | None => r1 end in
        let '(g2, r3) := span_digits r2 in
        if String.eqb r3 "}$" || String.eqb r3 ("}$" ++ newline)
        then Some (g1, g2) else None
  | None => None
  end.

Definition generate_matching_string (pattern : string) (g : rng) : result (string * rng) :=
  if fullmatch_digit_range pattern then
    (* [min_len, max_len = map(int, re.findall(...))]: the pattern holds
       three runs of digits, so the unpacking raises. *)
    Raise ValueError
  else
    match match_digit_count pattern with
    | Some (g1, g2) =>
        let min_digits := int_of_digits g1 in
        let max_digits := int_of_digits (if String.eqb g2 "" then g1 else g2) in
        '(length, g1) ← Random.randint min_digits max_digits g;
        Ok (Random.digits (Z.to_nat length) g1)
    | None =>
        if PyStr.startswith pattern "^\d" then Ok ("123456", g)
        else Ok ("example", g)
    end.

(** The number a value stands for in a comparison, if it is one. *)
Definition number_of (v : value) : option pyfloat :=
  match v with
  | VInt z => Some (FQ (inject_Z z))
  | VBool b => Some (FQ (inject_Z (Py.int_of_bool b)))
  | VFloat f => Some f
  | _ => None
  end.

Definition float_lt (a b : pyfloat) : bool :=
  match a, b with
  | FNaN, _ | _, FNaN => false
  | FNegInf, FNegInf => false
  | FNegInf, _ => true
  | _, FNegInf => false
  | FInf, _ => false
  | _, FInf => true
  | FQ x, FQ y => if Qlt_le_dec x y then true else false
  end.

(** [a < b] between a number [a] and any value [b]. *)
Definition py_lt (a b : value) : result bool :=
  match number_of a, number_of b with
  | Some x, Some y => Ok (float_lt x y)
  | _, _ => Raise TypeError
  end.

(** [max(a, b)] and [min(a, b)] of the builtins. *)
Definition py_max (a b : value) : result value :=
  gt ← py_lt a b; Ok (if gt : bool then b else a).
Definition py_min (a b : value) : result value :=
  lt ← py_lt b a; Ok (if lt : bool then b else a).

Definition round_half_even (q : Q) : Z :=
  let f := Qfloor q in
  match Qcompare (q - inject_Z f) (1 # 2) with
  | Lt => f
  | Gt => (f + 1)%Z
  | Eq => if Z.even f then f else (f + 1)%Z
  end.

(** [round(v, 2)], on the exact rational: halves go to the even
    neighbour. *)
Definition round2 (v : value) : result value :=
  match v with
  | VFloat (FQ q) => Ok (VFloat (FQ (Qred (inject_Z (round_half_even (q * 100)) / 100))))
  | VFloat f => Ok (VFloat f)
  | VInt z => Ok (VInt z)
  | VBool b => Ok (VInt (Py.int_of_bool b))
  | _ => Raise TypeError
  end.

Definition is_str (v : option value) (s : string) : bool :=
  match v with
  | Some (VStr s') => String.eqb s' s
  | _ => false
  end.

(** The inner dict of the [object] case: an example for every property,
    in the order of the properties; [generate] is the recursive call. *)
Fixpoint generate_properties (generate : value -> rng -> result (value * rng))
    (props : list (string * value)) (g : rng) : result (list (string * value) * rng) :=
  match props with
  | [] => Ok ([], g)
  | (k, v) :: props' =>
      '(x, g1) ← generate v g;
      '(rest, g2) ← generate_properties generate props' g1;
      Ok ((k, x) :: rest, g2)
  end.

(** [generate_example_value]; [fuel] bounds the depth of the recursion
    into the items and the properties of the schema. *)
Fixpoint generate_example_value_rec (fuel : nat) (schema_def : value) (g : rng)
  : result (value * rng) :=
  match fuel with
  | O => Raise RuntimeError
  | S fuel' =>
      match schema_def with
      | VDict d =>
          match Py.dict_get "example" d with
          | Some example => Ok (example, g)
          | None =>
              let schema_type := Py.dict_get "type" d in
              let schema_format := Py.dict_get "format" d in
              let pattern := default VNone (Py.dict_get "pattern" d) in
              if is_str schema_type "string" then
                if Py.truthy pattern then
                  match pattern with
                  | VStr p => '(s, g') ← generate_matching_string p g; Ok (VStr s, g')
                  | _ => Raise TypeError
                  end
                else if is_str schema_format "email" then Ok (VStr "user@example.com", g)
                else if is_str schema_format "date" then Ok (VStr "2025-01-01", g)
                else if is_str schema_format "date-time" then Ok (VStr "2025-01-01T00:00:00Z", g)
                else Ok (VStr "example-string", g)
              else if is_str schema_type "integer" then
                let minimum := default (VInt 0) (Py.dict_get "minimum" d) in
                let maximum := default (VInt 9999999999) (Py.dict_get "maximum" d) in
                m ← py_max (VInt 123) minimum;
                r ← py_min m maximum;
                Ok (r, g)
              else if is_str schema_type "number" then
                let minimum := default (VFloat (FQ 0)) (Py.dict_get "minimum" d) in
                let maximum := default (VFloat (FQ (999999999 # 100))) (Py.dict_get "maximum" d) in
                m ← py_max (VFloat (FQ (12345 # 100))) minimum;
                r ← py_min m maximum;
                r' ← round2 r;
                Ok (r', g)
              else if is_str schema_type "boolean" then Ok (VBool true, g)
              else if is_str schema_type "array" then
                let items := default (VDict []) (Py.dict_get "items" d) in
                '(item_value, g') ← generate_example_value_rec fuel' items g;
                Ok (match item_value with
                    | VNone => VList []
                    | _ => VList [item_value]
                    end, g')
              else if is_str schema_type "object" then
                match default (VDict []) (Py.dict_get "properties" d) with
                | VDict props =>
                    '(generated, g') ←
                      generate_properties (generate_example_value_rec fuel') props g;
                    Ok (VDict (List.filter (fun kv => match snd kv with
                                                      | VNone => false
                                                      | _ => true
                                                      end) generated), g')
                | _ => Raise AttributeError
                end
              else Ok (VStr "fallback", g)
          end
      | VStr s =>
          if PyStr.contains "example" s then Raise TypeError else Raise AttributeError
      | VList l =>
          if existsb (fun x => is_str (Some x) "example") l
          then Raise TypeError else Raise AttributeError
      | _ => Raise TypeError
      end
  end.

Fixpoint depth (v : value) : nat :=
  match v with
  | VList l => S (fold_right (fun x n => Nat.max (depth x) n) 0%nat l)
  | VDict d => S ((fix go (d : list (string * value)) : nat :=
                     match d with
                     | [] => 0%nat
                     | (_, x) :: d' => Nat.max (depth x) (go d')
                     end) d)
  | _ => 0%nat
  end.

(** The fuel given exceeds the depth of the schema: it is never used up
    ([generate_example_value_fuel]). *)
Definition generate_example_value (schema_def : value) (g : rng) : result (value * rng) :=
  generate_example_value_rec (S (depth schema_def)) schema_def g.

(** [fuel] is enough for [schema]: more than its depth, or any at all for
    the empty dict that stands for missing items. *)
Definition fuelled (fuel : nat) (schema : value) : Prop :=
  (depth schema < fuel)%nat \/ (schema = VDict [] /\ (0 < fuel)%nat).

(** The matches of the regular expression of [RESOLVE_DEPENDENCIES] (an
    opening brace, as few characters as possible, a closing brace; a dot
    matches no newline), left to right.  [cur] is the text read since the
    opening brace of the match under way, in reverse. *)
Fixpoint findall_go (cur : option (list ascii)) (s : string) : list string :=
  match s with
  | EmptyString => []
  | String c s' =>
      match cur with
      | None =>
          if Ascii.eqb c "{" then findall_go (Some []) s' else findall_go None s'
      | Some acc =>
          if Ascii.eqb c "}" then PyStr.of_chars (List.rev acc) :: findall_go None s'
          else if Ascii.eqb c "010" then findall_go None s'
          else findall_go (Some (c :: acc)) s'
      end
  end.

Definition find_placeholders (url : string) : list string := findall_go None url.

(** The search of [request["parameters"]] for the schema of the path
    parameter [ph]. *)
Fixpoint find_param_schema (ph : string) (params : list value) : result value :=
  match params with
  | [] => Ok VNone
  | VDict p :: params' =>
      if is_str (Py.dict_get "name" p) ph && is_str (Py.dict_get "in" p) "path" then
        match Py.dict_get "schema" p with
        | Some schema => Ok schema
        | None =>
            if Py.dict_has "type" p
            then Ok (VDict (List.filter (fun kv => existsb (String.eqb (fst kv))
                                                     ["type"; "format"; "enum"]) p))
            else Ok VNone
        end
      else find_param_schema ph params'
  | _ :: _ => Raise AttributeError
  end.

(** The [else] branch of the loop over the placeholders. *)
Definition fallback_value (py : python) (params : option (list value)) (ph : string)
    (g : rng) : result (string * rng) :=
  schema ← match params with
           | Some ps => find_param_schema ph ps
           | None => Ok VNone
           end;
  '(v, g') ← generate_example_value
               (if Py.truthy schema then schema else VDict [("type", VStr "string")]) g;
  Ok (Py.str py v, g').

(** A discovered value for [ph], when the table has a matching key with
    a non-empty list. *)
Definition discovered_value (ph : string) (dynamic_id_table : list (string * list string))
    (g : rng) : option (string * rng) :=
  match get_matching_key ph dynamic_id_table with
  | Some match_key =>
      if negb (String.eqb match_key "") then
        match assoc match_key dynamic_id_table with
        | Some (v0 :: vs) => Some (Random.choice v0 (v0 :: vs) g)
        | _ => None
        end
      else None
  | None => None
  end.

Definition braces (ph : string) : string := "{" ++ ph ++ "}".

(** The loop over [placeholders]. *)
Fixpoint resolve_url (py : python) (placeholders : list string)
    (params : option (list value)) (dynamic_id_table : list (string * list string))
    (url : string) (g : rng) : result (string * rng) :=
  match placeholders with
  | [] => Ok (url, g)
  | ph :: placeholders' =>
      '(val, g') ← match discovered_value ph dynamic_id_table g with
                   | Some r => Ok r
                   | None => fallback_value py params ph g
                   end;
      resolve_url py placeholders' params dynamic_id_table
                  (PyStr.replace (braces ph) val url) g'
  end.

(** A header value of the form of a placeholder. *)
Definition is_placeholder (val : value) : bool :=
  match val with
  | VStr s => PyStr.startswith s "{" && PyStr.endswith s "}"
  | _ => false
  end.

(** The value stored for one header. *)
Definition resolve_header (py : python) (dynamic_id_table : list (string * list string))
    (val : value) (g : rng) : result (value * rng) :=
  match val with
  | VStr s =>
      if PyStr.startswith s "{" && PyStr.endswith s "}" then
        let ph := PyStr.strip "{}" s in
        match discovered_value ph dynamic_id_table g with
        | Some (v, g') => Ok (VStr v, g')
        | None =>
            '(v, g') ← generate_example_value (VDict [("type", VStr "string")]) g;
            Ok (VStr (Py.str py v), g')
        end
      else Ok (val, g)
  | _ => Ok (val, g)
  end.

(** ** The object store

    A request is a dict object; its headers are a second dict object; its
    body and its parameter list are objects that [RESOLVE_DEPENDENCIES]
    only reads.  [str] values are immutable and stored in place. *)

Inductive object : Type :=
| ORequest (method url : string) (headers body : positive) (parameters : option positive)
| OHeaders (h : list (string * value))
| OValue (v : value).

(** [d[k] = v] on a headers dict. *)
Fixpoint headers_set (k : string) (v : value) (h : list (string * value))
  : list (string * value) :=
  match h with
  | [] => [(k, v)]
  | (k', v') :: h' =>
      if String.eqb k k' then (k, v) :: h' else (k', v') :: headers_set k v h'
  end.

(** A new object at a location not in use. *)
Definition alloc (h : gmap positive object) (o : object) : gmap positive object * positive :=
  let l := fresh (dom h) in (<[l := o]> h, l).

(** [request["parameters"]], when the key is there. *)
Definition read_parameters (h : gmap positive object) (parameters : option positive)
  : result (option (list value)) :=
  match parameters with
  | None => Ok None
  | Some l =>
      match h !! l with
      | Some (OValue (VList ps)) => Ok (Some ps)
      | _ => Raise TypeError
      end
  end.

(** The loop over [headers.items()]: every turn stores into the dict at
    [new_headers]. *)
Fixpoint resolve_headers (py : python) (dynamic_id_table : list (string * list string))
    (items : list (string * value)) (new_headers : positive)
    (h : gmap positive object) (g : rng) : result (gmap positive object * rng) :=
  match items with
  | [] => Ok (h, g)
  | (key, val) :: items' =>
      '(v, g') ← resolve_header py dynamic_id_table val g;
      match h !! new_headers with
      | Some (OHeaders d) =>
          resolve_headers py dynamic_id_table items' new_headers
                          (<[new_headers := OHeaders (headers_set key v d)]> h) g'
      | _ => Raise TypeError
      end
  end.

(** [RESOLVE_DEPENDENCIES(request, dynamic_id_table)] on the store [h],
    [request] being the location of the request dict: the new store, the
    location of the returned dict and the generator state. *)
Definition RESOLVE_DEPENDENCIES (py : python) (h : gmap positive object)
    (request : positive) (dynamic_id_table : list (string * list string)) (g : rng)
  : result (gmap positive object * positive * rng) :=
  match h !! request with
  | Some (ORequest method url headers body parameters) =>
      (* resolved = request.copy() *)
      let '(h1, resolved) := alloc h (ORequest method url headers body parameters) in
      params ← read_parameters h1 parameters;
      '(url', g1) ← resolve_url py (find_placeholders url) params dynamic_id_table url g;
      (* resolved["url"] = url *)
      let h2 := <[resolved := ORequest method url' headers body parameters]> h1 in
      match h2 !! headers with
      | Some (OHeaders items) =>
          (* new_headers = {} *)
          let '(h3, new_headers) := alloc h2 (OHeaders []) in
          '(h4, g2) ← resolve_headers py dynamic_id_table items new_headers h3 g1;
          (* resolved["headers"] = new_headers *)
          Ok (<[resolved := ORequest method url' new_headers body parameters]> h4,
              resolved, g2)
      | _ => Raise TypeError
      end
  | _ => Raise TypeError
  end.

(** The request dict at a location, read with the objects it refers to. *)
Definition snapshot (h : gmap positive object) (l : positive) : option request :=
  match h !! l with
  | Some (ORequest method url headers body parameters) =>
      match h !! headers, h !! body, read_parameters h parameters with
      | Some (OHeaders hs), Some (OValue b), Ok ps =>
          Some {| req_method := method; req_url := url; req_headers := hs;
                  req_body := b; req_parameters := ps |}
      | _, _, _ => None
      end
  | _ => None
  end.

(* ================================================================== *)
(** * [generator/selection.py] *)
(* ================================================================== *)

(** A corpus entry. *)
Record test_entry : Type := {
  sequence : list request;
  responses : list response;
  tcl : Q;
  diversity : Q
}.

Definition ALPHA : Q := 1.
Definition BETA : Q := 1.
Definition MAX_SEQUENCE_LENGTH : nat := 8.
Definition LENGTH_WEIGHT : Q := 3 # 10.

Definition viable (entry : test_entry) : bool :=
  (length (sequence entry) <? MAX_SEQUENCE_LENGTH)%nat.

(** [max(score, 0.01)] *)
Definition entry_score (entry : test_entry) : Q :=
  let length_penalty := (LENGTH_WEIGHT * inject_Z (Z.of_nat (length (sequence entry))))%Q in
  let score := (tcl entry * ALPHA + diversity entry * BETA - length_penalty)%Q in
  if Qlt_le_dec score (1 # 100) then 1 # 100 else score.

Definition Qsum (l : list Q) : Q := fold_left Qplus l 0%Q.

Definition SELECT_TEST (corpus : list test_entry) (g : rng) : result (test_entry * rng) :=
  match corpus with
  | [] => Raise ValueError
  | first :: _ =>
      match List.filter viable corpus with
      | [] => Raise ValueError
      | (v0 :: _) as viable_tests =>
          let '(r, g1) := Random.random g in
          if Qlt_le_dec r (2 # 10) then Ok (Random.choice v0 viable_tests g1)
          else
            let scores := map entry_score viable_tests in
            let total_score := Qsum scores in
            if Qeq_bool total_score 0 then Raise ZeroDivisionError
            else
              let probabilities := map (fun s => (s / total_score)%Q) scores in
              Random.choices1 v0 viable_tests probabilities g1
      end
  end.

(* ================================================================== *)
(** * [mutation/mutate.py] and [mutation/utils.py] *)
(* ================================================================== *)

(** The loop over [zip(template_parts, actual_parts)]. *)
Fixpoint match_template_parts (template_parts actual_parts : list string) : bool :=
  match template_parts, actual_parts with
  | tp :: tps, ap :: aps =>
      if PyStr.startswith tp "{" && PyStr.endswith tp "}" then match_template_parts tps aps
      else if negb (String.eqb tp ap) then false
      else match_template_parts tps aps
  | _, _ => true
  end.

Definition match_path_with_placeholders (template_path actual_path : string) : bool :=
  let template_parts := PyStr.split "/" (PyStr.strip "/" template_path) in
  let actual_parts := PyStr.split "/" (PyStr.strip "/" actual_path) in
  if negb (length template_parts =? length actual_parts)%nat then false
  else match_template_parts template_parts actual_parts.

Definition find_endpoint_by_request (req : request) (all_endpoints : list Endpoint)
  : option Endpoint :=
  List.find (fun ep => String.eqb (method ep) (req_method req)
                       && match_path_with_placeholders (path ep) (req_url req))
            all_endpoints.

Definition isinstance_int (v : value) : bool :=
  match v with VInt _ | VBool _ => true | _ => false end.
Definition isinstance_float (v : value) : bool :=
  match v with VFloat _ => true | _ => false end.
Definition isinstance_str (v : value) : bool :=
  match v with VStr _ => true | _ => false end.
Definition isinstance_bool (v : value) : bool :=
  match v with VBool _ => true | _ => false end.
Definition isinstance_list (v : value) : bool :=
  match v with VList _ => true | _ => false end.

(** The integer of an [int] (or [bool]) value. *)
Definition int_value (v : value) : Z :=
  match v with
  | VInt z => z
  | VBool b => Py.int_of_bool b
  | _ => 0%Z
  end.

(** [value * 2] on a float: the double of a double is exact, unless it
    passes the largest double, where the product is an infinity. *)
Definition float_double (f : pyfloat) : pyfloat :=
  match f with
  | FQ q =>
      if Qle_bool (inject_Z (2 ^ 1023)) q then FInf
      else if Qle_bool q (- inject_Z (2 ^ 1023)) then FNegInf
      else FQ (q * 2)
  | other => other
  end.

Definition alphabet : string :=
  "abcdefghijklmnopqrstuvwxyzABCDEFGHIJKLMNOPQRSTUVWXYZ0123456789".

(** [random_string(length)] *)
Fixpoint random_string (length : nat) (g : rng) : string * rng :=
  match length with
  | O => ("", g)
  | S n =>
      let '(c, g1) := Random.choice "a"%char (PyStr.chars alphabet) g in
      let '(s, g2) := random_string n g1 in
      (String c s, g2)
  end.

(** [mutate_value]: the tests are made in the order of the source. *)
Definition mutate_value (v : value) (g : rng) : value * rng :=
  if isinstance_int v then
    let z := int_value v in
    Random.choice VNone
      [VInt 0; VInt (-1); VInt (z + 1); VInt (z - 1); VInt 999999] g
  else if isinstance_float v then
    match v with
    | VFloat f =>
        Random.choice VNone
          [VFloat (FQ 0); VFloat (FQ (-11 # 10)); VFloat (float_double f);
           VFloat (FQ (9999999 # 100))] g
    | _ => (v, g)
    end
  else if isinstance_str v then
    match v with
    | VStr s =>
        let '(r, g1) := random_string 50 g in
        Random.choice VNone
          [VStr ""; VStr (s ++ "_mutated"); VStr (PyStr.join newline [s; s; s]); VStr r] g1
    | _ => (v, g)
    end
  else if isinstance_bool v then
    match v with
    | VBool b => (VBool (negb b), g)
    | _ => (v, g)
    end
  else if isinstance_list v then
    match v with
    | VList l => (VList (l ++ l), g)
    | _ => (v, g)
    end
  else (v, g).

Fixpoint repeat_string (s : string) (n : nat) : string :=
  match n with
  | O => ""
  | S n' => s ++ repeat_string s n'
  end.

(** [generate_fuzz_value(schema)].  [emoji] stands for the third string
    literal of the source, whose characters lie outside the code points
    modelled. *)
Definition generate_fuzz_value (emoji : string) (schema : value) (g : rng)
  : result (value * rng) :=
  match schema with
  | VDict d =>
      let typ := Py.dict_get "type" d in
      if is_str typ "string" then
        Ok (Random.choice VNone
              [VStr ""; VStr (repeat_string "a" 1000); VStr emoji;
               VStr (String "000"%char ""); VStr "null"; VStr "1234"] g)
      else if is_str typ "integer" then
        Ok (Random.choice VNone
              [VInt (-1); VInt 0; VInt 1; VInt (2 ^ 31 - 1); VInt (- 2 ^ 31)] g)
      else if is_str typ "number" then
        Ok (Random.choice VNone
              [VFloat (FQ (-1)); VFloat (FQ 0); VFloat (FQ (314159 # 100000));
               VFloat FInf; VFloat FNegInf] g)
      else if is_str typ "boolean" then
        Ok (Random.choice VNone [VBool true; VBool false] g)
      else if is_str typ "array" then Ok (VList [], g)
      else if is_str typ "object" then Ok (VDict [], g)
      else Ok (VStr "fuzz", g)
  | _ => Raise AttributeError
  end.

(** [d.get(k, {})] on a value that must be a dict. *)
Definition get_or_empty (k : string) (v : value) : result value :=
  match v with
  | VDict d => Ok (default (VDict []) (Py.dict_get k d))
  | _ => Raise AttributeError
  end.

(** [x in container] for a string [x]. *)
Definition str_in (x : string) (container : value) : result bool :=
  match container with
  | VDict d => Ok (Py.dict_has x d)
  | VList l => Ok (existsb (fun e => is_str (Some e) x) l)
  | VStr s => Ok (PyStr.contains x s)
  | _ => Raise TypeError
  end.

(** [container[k] = v] *)
Definition setitem (k : string) (v : value) (container : value) : result value :=
  match container with
  | VDict d => Ok (VDict (Py.dict_set k v d))
  | _ => Raise TypeError
  end.

(** The loop that adds the optional fields not present. *)
Fixpoint add_optional_fields (emoji : string) (properties : list (string * value))
    (required_fields : value) (original_body : value) (g : rng)
  : result (value * rng) :=
  match properties with
  | [] => Ok (original_body, g)
  | (field, field_schema) :: properties' =>
      present ← str_in field original_body;
      if present : bool
      then add_optional_fields emoji properties' required_fields original_body g
      else
        required ← str_in field required_fields;
        if required : bool
        then add_optional_fields emoji properties' required_fields original_body g
        else
          '(v, g') ← generate_fuzz_value emoji field_schema g;
          body' ← setitem field v original_body;
          add_optional_fields emoji properties' required_fields body' g'
  end.

(** [json.loads(mutated_req.get("body", "{}"))] inside [try]: anything but
    a [str] raises a [TypeError], which the [except] catches as well. *)
Definition loads_body (py : python) (b : value) : option value :=
  match b with
  | VStr s => json_loads py s
  | _ => None
  end.

Definition with_body (req : request) (b : value) : request :=
  {| req_method := req_method req; req_url := req_url req;
     req_headers := req_headers req; req_body := b;
     req_parameters := req_parameters req |}.

(** One turn of the loop of [deep_mutation]: the request appended to
    [mutated_sequence]. *)
Definition deep_mutate_request (py : python) (emoji : string) (endpoints : list Endpoint)
    (req : request) (g : rng) : result (request * rng) :=
  let mutated_req := req in
  match find_endpoint_by_request req endpoints with
  | None => Ok (mutated_req, g)
  | Some ep =>
      if negb (Py.truthy (request_body ep)) then Ok (mutated_req, g)
      else
        match loads_body py (req_body mutated_req) with
        | None => Ok (mutated_req, g)
        | Some original_body =>
            content ← get_or_empty "content" (request_body ep);
            app_json ← get_or_empty "application/json" content;
            schema ← get_or_empty "schema" app_json;
            if negb (Py.truthy schema) then Ok (mutated_req, g)
            else
              match schema with
              | VDict sd =>
                  if negb (is_str (Py.dict_get "type" sd) "object") then Ok (mutated_req, g)
                  else
                    properties ← get_or_empty "properties" schema;
                    let required_fields := default (VList []) (Py.dict_get "required" sd) in
                    match properties with
                    | VDict props =>
                        '(body', g') ← add_optional_fields emoji props required_fields
                                                            original_body g;
                        Ok (with_body mutated_req (VStr (json_dumps py body')), g')
                    | _ => Raise AttributeError
                    end
              | _ => Raise AttributeError
              end
        end
  end.

Fixpoint deep_mutation (py : python) (emoji : string) (sequence : list request)
    (endpoints : list Endpoint) (g : rng) : result (list request * rng) :=
  match sequence with
  | [] => Ok ([], g)
  | req :: sequence' =>
      '(mutated_req, g1) ← deep_mutate_request py emoji endpoints req g;
      '(rest, g2) ← deep_mutation py emoji sequence' endpoints g1;
      Ok (mutated_req :: rest, g2)
  end.

(* ================================================================== *)
(** * [parser/swagger.py]: the request body of an endpoint *)
(* ================================================================== *)

(** [_extract_request_body_v3(op_obj)]; [resolve_schema] stands for
    [self._resolve_schema], of which only the dict it returns is used. *)
Definition _extract_request_body_v3 (resolve_schema : value -> value) (op_obj : value)
  : result value :=
  requestBody ← get_or_empty "requestBody" op_obj;
  content ← get_or_empty "content" requestBody;
  app_json ← get_or_empty "application/json" content;
  match app_json with
  | VDict aj =>
      let schema := default VNone (Py.dict_get "schema" aj) in
      if Py.truthy schema then
        let schema := resolve_schema schema in
        required ← match schema with
                   | VDict sd => Ok (default (VList []) (Py.dict_get "required" sd))
                   | _ => Raise AttributeError
                   end;
        properties ← get_or_empty "properties" schema;
        Ok (VDict [("properties", properties); ("required", required)])
      else Ok VNone
  | _ => Raise AttributeError
  end.

(* ================================================================== *)
(** * [test_fuzz.py]: the fuzzing loop *)
(* ================================================================== *)

Definition STAGNATION_WINDOW : Q := 25.

(** The module-level state of the loop.  [sent] is the record of the calls
    of [send_sequence], the latest first: what reached the target. *)
Record engine : Type := {
  mutation_mode : bool;
  stagnation_counter : Q;
  last_total_score : Q;
  seen_signatures : gset (list (string * string));
  cumulative_coverage : coverage;
  seen_fields : gset string;
  dynamic_id_table : list (string * list string);
  corpus : list test_entry;
  sent : list (list request)
}.

(** From [send_sequence] to [corpus.append]: the part of an iteration
    after the test on the signature.  [send_sequence] is the exchange with
    the target; the analysis for bugs and the log files are left out, and
    with them what they can raise (a file that cannot be written, a
    request that [json.dumps] cannot serialize): the only exception of
    this part in the model is that of [responses[-1]]. *)
Definition execute (py : python) (send_sequence : list request -> list response)
    (spec_info : coverage) (param_names : list string)
    (st : engine) (extended_sequence : list request) : result engine :=
  let responses := send_sequence extended_sequence in
  match List.rev responses with
  | [] => Raise IndexError
  | last_response :: _ =>
      let seq_coverage := extract_seq_coverage py extended_sequence responses in
      let cumulative := coverage_update (cumulative_coverage st) seq_coverage in
      let '(diversity, new_fields) := CALCULATE_DIVERSITY py last_response (seen_fields st) in
      let tcl_score := calculate_tcl_score seq_coverage spec_info in
      let new_ids := EXTRACT_IDS py (body last_response) param_names in
      Ok {| mutation_mode := mutation_mode st;
            stagnation_counter := stagnation_counter st;
            last_total_score := last_total_score st;
            seen_signatures := seen_signatures st;
            cumulative_coverage := cumulative;
            seen_fields := seen_fields st ∪ new_fields;
            dynamic_id_table := update_id_table (dynamic_id_table st) new_ids;
            corpus := corpus st ++ [{| sequence := extended_sequence;
                                       responses := responses;
                                       tcl := tcl_score;
                                       diversity := diversity |}];
            sent := extended_sequence :: sent st |}
  end.

Definition with_stagnation (st : engine) (stagnation : Q)
    (seen : gset (list (string * string))) (total : Q) (mode : bool) : engine :=
  {| mutation_mode := mode;
     stagnation_counter := stagnation;
     last_total_score := total;
     seen_signatures := seen;
     cumulative_coverage := cumulative_coverage st;
     seen_fields := seen_fields st;
     dynamic_id_table := dynamic_id_table st;
     corpus := corpus st;
     sent := sent st |}.

(** An iteration from the computation of the signature of
    [extended_sequence] on.  The stagnation counter is an exact rational:
    the iteration at which a run of additions of 0.2 reaches the window
    can differ by one from that of the floats. *)
Definition iterate (py : python) (send_sequence : list request -> list response)
    (spec_info : coverage) (param_names : list string)
    (st : engine) (extended_sequence : list request) : result engine :=
  let sig := sequence_signature extended_sequence in
  let new_signature := negb (bool_decide (sig ∈ seen_signatures st)) in
  if negb (mutation_mode st) then
    let current_total_score := calculate_tcl_score (cumulative_coverage st) spec_info in
    let '(stagnation, seen) :=
      if negb new_signature then
        ((stagnation_counter st + 1)%Q, seen_signatures st)
      else if Qle_bool current_total_score (last_total_score st) then
        ((stagnation_counter st + (2 # 10))%Q, seen_signatures st ∪ {[ sig ]})
      else (0%Q, seen_signatures st ∪ {[ sig ]}) in
    if Qle_bool STAGNATION_WINDOW stagnation then
      (* mutation_mode = True; continue *)
      Ok (with_stagnation st stagnation seen current_total_score true)
    else
      execute py send_sequence spec_info param_names
              (with_stagnation st stagnation seen current_total_score false)
              extended_sequence
  else execute py send_sequence spec_info param_names st extended_sequence.

(* ================================================================== *)
(** * A runtime and inputs for the examples *)
(* ================================================================== *)

(** A runtime whose [json.loads] knows the documents of [docs] (a text is
    malformed when it is not among them) and whose sets are iterated in
    the order [order] of their insertions. *)
Definition example_python (docs : list (string * value))
    (order : list string -> list string) : python :=
  {| json_loads := fun s => assoc s docs;
     json_dumps := fun _ => "<json>";
     set_iter := order;
     repr := fun _ => "<repr>" |}.

Definition string_schema : value := VDict [("type", VStr "string")].

(** [POST /pets] with a required [name] and an optional [tag], as
    [_extract_request_body_v3] stores its body schema. *)
Definition pets_post : Endpoint :=
  {| path := "/pets"; method := "POST"; parameters := [];
     request_body :=
       VDict [("properties", VDict [("name", string_schema); ("tag", string_schema)]);
              ("required", VList [VStr "name"])] |}.

Definition json_headers : list (string * value) :=
  [("Content-Type", VStr "application/json")].

(** The request [build_request] makes for [pets_post]. *)
Definition pets_post_request : request :=
  {| req_method := "POST"; req_url := "/pets"; req_headers := json_headers;
     req_body := VDict [("name", VStr "example-string")];
     req_parameters := Some [] |}.

Definition pets_get_request : request :=
  {| req_method := "GET"; req_url := "/pets"; req_headers := json_headers;
     req_body := VNone; req_parameters := Some [] |}.

(** The double quote, for the JSON texts of the examples. *)
Definition dq : string := String (ascii_of_nat 34) "".

(** The text of a JSON object with one member, a string. *)
Definition json_member (key val : string) : string :=
  "{" ++ dq ++ key ++ dq ++ ": " ++ dq ++ val ++ dq ++ "}".

(* ================================================================== *)
(** * Predicates of the statements *)
(* ================================================================== *)

(** The request body of an endpoint as the parser stores it: [None], or
    a dict with the two keys [properties] and [required]. *)
Definition normalized_body (rb : value) : bool :=
  match rb with
  | VNone => true
  | VDict [(k1, _); (k2, _)] => String.eqb k1 "properties" && String.eqb k2 "required"
  | _ => false
  end.

(** No opening and no closing brace. *)
Definition brace_free (s : string) : bool :=
  forallb (fun c => negb (Ascii.eqb c "{") && negb (Ascii.eqb c "}")) (PyStr.chars s).

(** A path template: text without braces, and placeholders made of an
    opening brace, a name without brace or newline, and a closing brace.
    [inside] tells whether a placeholder is open. *)
Fixpoint template_go (inside : bool) (s : string) : bool :=
  match s with
  | EmptyString => negb inside
  | String c s' =>
      if inside then
        if Ascii.eqb c "}" then template_go false s'
        else if Ascii.eqb c "{" || Ascii.eqb c "010" then false
        else template_go true s'
      else
        if Ascii.eqb c "{" then template_go true s'
        else if Ascii.eqb c "}" then false
        else template_go false s'
  end.

Definition well_formed_template (url : string) : bool := template_go false url.

(** Every value of every key of the table is free of braces. *)
Definition table_brace_free (table : list (string * list string)) : bool :=
  forallb (fun kv => forallb brace_free (snd kv)) table.

(** The characters of a plain ASCII identifier: A-Z, a-z, 0-9,
    the hyphen and the underscore. *)
Definition ascii_id_char (c : ascii) : bool :=
  PyStr.char_ascii_alnum c || PyStr.char_in c "-_".

(** The characters [is_valid_id] lets through. *)
Definition id_char (c : ascii) : bool :=
  PyStr.char_isalnum c || PyStr.char_in c "-_".

(** The word [cafe] with an acute accent on its last letter (code point
    233). *)
Definition cafe : string := "caf" ++ String (ascii_of_nat 233) "".

(** A response with a JSON body and the header name as servers usually
    spell it. *)
Definition pet_response : response :=
  {| status := 200; body := json_member "name" "Rex";
     headers := [("Content-Type", "application/json")] |}.

(** The same response with the header name in lower case. *)
Definition pet_response_lower : response :=
  {| status := 200; body := json_member "name" "Rex";
     headers := [("content-type", "application/json")] |}.

Definition pet_document : value := VDict [("name", VStr "Rex")].

(** The runtime of the examples about responses. *)
Definition pet_python : python :=
  example_python [(json_member "name" "Rex", pet_document)] (fun l => l).

(** A target that answers every request with [pet_response]. *)
Definition pet_target (requests : list request) : list response :=
  map (fun _ => pet_response) requests.

(** The state of the loop after the seed [GET /pets]: its signature is
    known, nothing else has happened. *)
Definition seeded_engine : engine :=
  {| mutation_mode := false;
     stagnation_counter := 0;
     last_total_score := 0;
     seen_signatures := {[ sequence_signature [pets_get_request] ]};
     cumulative_coverage := empty_coverage;
     seen_fields := ∅;
     dynamic_id_table := [];
     corpus := [];
     sent := [] |}.

(** The insertions [events] made into [found], one after the other. *)
Definition add_events (events : list (string * string))
    (found : list (string * list string)) : list (string * list string) :=
  fold_left (fun found e => found_add (fst e) (snd e) found) events found.

(** The set stored for [token], empty when there is none. *)
Definition bucket (token : string) (found : list (string * list string)) : list string :=
  match assoc token found with
  | Some vs => vs
  | None => []
  end.

(** A response body with the identifier [cafe]. *)
Definition cafe_document : value := VDict [("id", VStr cafe)].
Definition cafe_python : python :=
  example_python [(json_member "id" cafe, cafe_document)] (fun l => l).

(** A response body with two identifiers, and a runtime that iterates a
    set from its latest insertion back to its first. *)
Definition two_ids_text : string :=
  "{" ++ dq ++ "aid" ++ dq ++ ": " ++ dq ++ "1" ++ dq ++ ", "
      ++ dq ++ "bid" ++ dq ++ ": " ++ dq ++ "2" ++ dq ++ "}".
Definition two_ids_document : value := VDict [("aid", VStr "1"); ("bid", VStr "2")].
Definition reversing_python : python :=
  example_python [(two_ids_text, two_ids_document)] (@List.rev string).

(** A placeholder name: no brace and no newline. *)
Definition clean_name (n : string) : bool :=
  forallb (fun c => negb (Ascii.eqb c "{") && negb (Ascii.eqb c "}")
                    && negb (Ascii.eqb c "010")) (PyStr.chars n).

(** The request at the location a call of [RESOLVE_DEPENDENCIES] returned,
    and the store it left. *)
Definition resolved_request
    (r : result (gmap positive object * positive * rng)) : option request :=
  match r with
  | Ok (h', resolved, _) => snapshot h' resolved
  | Raise _ => None
  end.

Definition resolved_store
    (r : result (gmap positive object * positive * rng)) : gmap positive object :=
  match r with
  | Ok (h', _, _) => h'
  | Raise _ => ∅
  end.

Definition resolved_location
    (r : result (gmap positive object * positive * rng)) : positive :=
  match r with
  | Ok (_, resolved, _) => resolved
  | Raise _ => 1%positive
  end.

Definition resolved_rng
    (r : result (gmap positive object * positive * rng)) : rng :=
  match r with
  | Ok (_, _, g) => g
  | Raise _ => []
  end.

(** The parameter [id] of a path, an integer. *)
Definition id_parameter : value :=
  VDict [("name", VStr "id"); ("in", VStr "path");
         ("schema", VDict [("type", VStr "integer")])].

(** A store with the request that [build_request] makes for
    [GET /pets/{id}/toys/{toy}] with a header parameter for a token: the
    request dict at 1, its headers at 2, its body ([None]) at 3 and the
    parameter list of the endpoint at 4. *)
Definition pet_store : gmap positive object :=
  {[ 1%positive := ORequest "GET" "/pets/{id}/toys/{toy}" 2%positive 3%positive
                            (Some 4%positive);
     2%positive := OHeaders [("Content-Type", VStr "application/json");
                             ("X-Token", VStr "{token}")];
     3%positive := OValue VNone;
     4%positive := OValue (VList [id_parameter]) ]}.

Definition pet_request : request :=
  {| req_method := "GET"; req_url := "/pets/{id}/toys/{toy}";
     req_headers := [("Content-Type", VStr "application/json");
                     ("X-Token", VStr "{token}")];
     req_body := VNone; req_parameters := Some [id_parameter] |}.

(** A table with two toys harvested, and a table whose values are
    placeholders themselves. *)
Definition toy_table : list (string * list string) := [("toy", ["ball"; "bone"])].
Definition brace_table : list (string * list string) :=
  [("id", ["{id}"]); ("toy", ["{toy}"]); ("token", ["{token}"])].

(** ** What a resolved request is made of *)

(** A piece of a path template: text, or a placeholder by its name. *)
Inductive piece : Type :=
| Text (t : string)
| Hole (n : string).

(** The pieces written out, with [fill n] in the place of the placeholder
    [n]; with [braces] for [fill], the template itself. *)
Fixpoint render (fill : string -> string) (pieces : list piece) : string :=
  match pieces with
  | [] => ""
  | Text t :: pieces' => t ++ render fill pieces'
  | Hole n :: pieces' => fill n ++ render fill pieces'
  end.

(** The names of the placeholders, from left to right. *)
Fixpoint holes (pieces : list piece) : list string :=
  match pieces with
  | [] => []
  | Text _ :: pieces' => holes pieces'
  | Hole n :: pieces' => n :: holes pieces'
  end.

(** The texts hold no brace; the names hold no brace and no newline. *)
Definition template_pieces (pieces : list piece) : bool :=
  forallb (fun p => match p with
                    | Text t => brace_free t
                    | Hole n => clean_name n
                    end) pieces.

(** A resolution under way: the placeholders for which a value is
    [chosen] are replaced, the others stand as they are. *)
Definition partial_fill (chosen : string -> option string) (n : string) : string :=
  match chosen n with
  | Some v => v
  | None => braces n
  end.

(** The choice of [val] for [ph], unless [ph] has a value already. *)
Definition choose (chosen : string -> option string) (ph val : string) (n : string)
  : option string :=
  match chosen n with
  | Some v => Some v
  | None => if String.eqb n ph then Some val else None
  end.

(** The values that the table offers for the placeholder [ph]: those
    listed under the first key that matches it; none when no key matches
    or the key is the empty string. *)
Definition table_values (dynamic_id_table : list (string * list string)) (ph : string)
  : list string :=
  match get_matching_key ph dynamic_id_table with
  | Some match_key =>
      if String.eqb match_key "" then [] else default [] (assoc match_key dynamic_id_table)
  | None => []
  end.

(** [v] may stand for the placeholder [ph] of a url: it is a value that
    the table offers or, when the table offers none, an example made from
    the schema of the parameter (from the schema of a string when there is
    none). *)
Definition url_value (py : python) (dynamic_id_table : list (string * list string))
    (params : option (list value)) (ph v : string) : Prop :=
  In v (table_values dynamic_id_table ph)
  \/ (table_values dynamic_id_table ph = []
      /\ exists g0 g1, fallback_value py params ph g0 = Ok (v, g1)).

(** [v'] may be stored for the header value [val]: [val] itself when it
    has not the form of a placeholder; otherwise a value that the table
    offers for the name between the braces or, when it offers none, the
    example of a string. *)
Definition header_value (dynamic_id_table : list (string * list string))
    (val v' : value) : Prop :=
  match val with
  | VStr s =>
      if is_placeholder val then
        exists v,
          v' = VStr v
          /\ (In v (table_values dynamic_id_table (PyStr.strip "{}" s))
              \/ (table_values dynamic_id_table (PyStr.strip "{}" s) = []
                  /\ v = "example-string"))
      else v' = val
  | _ => v' = val
  end.

(** Every value of the table passes [is_valid_id], as the values that
    [EXTRACT_IDS] returns do. *)
Definition table_valid (table : list (string * list string)) : bool :=
  forallb (fun kv => forallb is_valid_id (snd kv)) table.

(** A table as the harvester fills it: one pet found. *)
Definition id_table : list (string * list string) := [("id", ["7"])].

(** A request whose url holds a brace inside a placeholder, with its
    headers at 2 and its body at 3. *)
Definition nested_store : gmap positive object :=
  {[ 1%positive := ORequest "GET" "/pets/{id}/{{id}}" 2%positive 3%positive None;
     2%positive := OHeaders [];
     3%positive := OValue VNone ]}.

(** A path parameter whose schema gives an example with braces, and the
    request for [GET /pets/{id}] with it. *)
Definition echo_parameter : value :=
  VDict [("name", VStr "id"); ("in", VStr "path");
         ("schema", VDict [("type", VStr "string"); ("example", VStr "{id}")])].

Definition echo_store : gmap positive object :=
  {[ 1%positive := ORequest "GET" "/pets/{id}" 2%positive 3%positive (Some 4%positive);
     2%positive := OHeaders [];
     3%positive := OValue VNone;
     4%positive := OValue (VList [echo_parameter]) ]}.
(* ================================================================== *)
(** * Further predicates of the statements *)
(* ================================================================== *)

(** No slash. *)
Definition no_slash (s : string) : bool :=
  forallb (fun c => negb (Ascii.eqb c "/")) (PyStr.chars s).

(** A non-empty string of decimal digits, as a numeric identifier in a
    path is. *)
Definition decimal_id (s : string) : bool :=
  negb (String.eqb s "") && forallb PyStr.char_isdecimal (PyStr.chars s).

(** The segment that [normalize_path] writes for the segment [p]. *)
Definition normalize_segment (p : string) : string :=
  if PyStr.isdigit p || (PyStr.isalnum p && negb (PyStr.islower p)) then "{param}" else p.

Definition starts_with_slash (s : string) : bool :=
  match s with
  | String c _ => Ascii.eqb c "/"
  | EmptyString => false
  end.

Definition ends_with_slash (s : string) : bool := starts_with_slash (PyStr.rev s).

(** Every dimension of [c1] is included in that of [c2]. *)
Definition coverage_subseteq (c1 c2 : coverage) : Prop :=
  paths c1 ⊆ paths c2
  /\ operations c1 ⊆ operations c2
  /\ cov_parameters c1 ⊆ cov_parameters c2
  /\ status_codes c1 ⊆ status_codes c2
  /\ response_fields c1 ⊆ response_fields c2
  /\ input_content_types c1 ⊆ input_content_types c2.

(** A leaf of a JSON document: neither a list nor a dict. *)
Definition is_leaf (v : value) : bool :=
  match v with
  | VList _ | VDict _ => false
  | _ => true
  end.

(** What a specification with the single operation [GET /pets] expects. *)
Definition pets_spec_info : coverage :=
  {| paths := {[ "/pets" ]}; operations := {[ ("GET", "/pets") ]};
     cov_parameters := ∅; status_codes := {[ "200" ]};
     response_fields := {[ "name" ]}; input_content_types := ∅ |}.

(** The table has the key [k], and the value [val] under it. *)
Definition has_key (table : list (string * list string)) (k : string) : Prop :=
  exists vs, assoc k table = Some vs.

Definition holds (table : list (string * list string)) (k val : string) : Prop :=
  exists vs, assoc k table = Some vs /\ In val vs.

(** [re.findall] for one or more decimal digits: the maximal runs of
    digits, left to right.  [cur] is the run under way, in reverse. *)
Fixpoint findall_digits_go (cur : list ascii) (s : string) : list string :=
  match s with
  | EmptyString =>
      match cur with
      | [] => []
      | _ => [PyStr.of_chars (List.rev cur)]
      end
  | String c s' =>
      if PyStr.char_isdecimal c then findall_digits_go (c :: cur) s'
      else
        match cur with
        | [] => findall_digits_go [] s'
        | _ => PyStr.of_chars (List.rev cur) :: findall_digits_go [] s'
        end
  end.

Definition findall_digits (s : string) : list string := findall_digits_go [] s.

(* ================================================================== *)
(** * [parser/swagger.py]: the parameters of an endpoint *)
(* ================================================================== *)

(** [p.get("in") == place].  [Endpoint.__init__] makes this test on every
    parameter, so each parameter of an endpoint is a dict. *)
Definition param_in (place : string) (p : value) : bool :=
  match p with
  | VDict d => is_str (Py.dict_get "in" d) place
  | _ => false
  end.

(** The attributes [path_params] and [header_params] that the constructor
    computes from [parameters]. *)
Definition path_params (ep : Endpoint) : list value :=
  List.filter (param_in "path") (parameters ep).

Definition header_params (ep : Endpoint) : list value :=
  List.filter (param_in "header") (parameters ep).

(* ================================================================== *)
(** * [generator/selection.py]: the choice of the next endpoint *)
(* ================================================================== *)

(** [s.rstrip(set)] *)
Definition rstrip (set : string) (s : string) : string :=
  PyStr.rev (PyStr.lstrip set (PyStr.rev s)).

(** [sorted(l, key=key, reverse=reverse)]: an insertion from the right;
    the sort is stable, in reverse as well. *)
Fixpoint insert_sorted {A} (key : A -> Z) (reverse : bool) (x : A) (l : list A) : list A :=
  match l with
  | [] => [x]
  | y :: l' =>
      if (if reverse then key x <? key y else key y <? key x)%Z
      then y :: insert_sorted key reverse x l'
      else x :: l
  end.

Definition sorted {A} (key : A -> Z) (reverse : bool) (l : list A) : list A :=
  fold_right (insert_sorted key reverse) [] l.

(** [score_candidate(base_endpoint, candidate)] for a [base_endpoint] that
    is not [None]. *)
Definition score_candidate (base_endpoint candidate : Endpoint) : Z :=
  let score : Z :=
    if String.eqb (path candidate) (path base_endpoint) then 3%Z
    else if PyStr.startswith (path candidate) (rstrip "/" (path base_endpoint) ++ "/")
    then 2%Z
    else if bool_decide (firstn 1 (skipn 1 (PyStr.split "/" (path candidate)))
                         = firstn 1 (skipn 1 (PyStr.split "/" (path base_endpoint))))
    then 1%Z
    else 0%Z in
  (if negb (String.eqb (method candidate) (method base_endpoint)) then score + 1 else score)%Z.

(** [p.get("required")] is true. *)
Definition is_required (p : value) : bool :=
  match p with
  | VDict d => Py.truthy (default VNone (Py.dict_get "required" d))
  | _ => false
  end.

(** [all(has_matching_id(p["name"], dynamic_id_table) for p in
    required_params)]: the names are looked at one after the other, up to
    the first without a matching key. *)
Fixpoint all_resolvable (required_params : list value)
    (dynamic_id_table : list (string * list string)) : result bool :=
  match required_params with
  | [] => Ok true
  | VDict d :: required_params' =>
      match Py.dict_get "name" d with
      | Some (VStr name) =>
          if has_matching_id name dynamic_id_table
          then all_resolvable required_params' dynamic_id_table
          else Ok false
      | Some _ => Raise AttributeError
      | None => Raise KeyError
      end
  | _ :: _ => Raise AttributeError
  end.

(** The templates of the endpoints that the requests of the sequence
    belong to. *)
Definition used_templates (sequence : list request) (endpoints : list Endpoint)
  : gset (string * string) :=
  fold_left (fun used req =>
               match find_endpoint_by_request req endpoints with
               | Some ep => used ∪ {[ (method ep, path ep) ]}
               | None => used
               end)
            sequence ∅.

(** The loop that fills [compatible]. *)
Fixpoint compatible_endpoints (used : gset (string * string))
    (dynamic_id_table : list (string * list string)) (endpoints : list Endpoint)
  : result (list Endpoint) :=
  match endpoints with
  | [] => Ok []
  | ep :: endpoints' =>
      if bool_decide ((method ep, path ep) ∈ used)
      then compatible_endpoints used dynamic_id_table endpoints'
      else
        resolvable ← all_resolvable
                       (List.filter is_required (path_params ep ++ header_params ep))
                       dynamic_id_table;
        rest ← compatible_endpoints used dynamic_id_table endpoints';
        Ok (if resolvable : bool then ep :: rest else rest)
  end.

(** [all_endpoints] is the list that [find_endpoint_by_request] searches
    (the copy of the function in this module is the one of
    [mutation/utils.py]). *)
Definition CHOOSE_COMPATIBLE_ENDPOINT (base_test : test_entry) (endpoints : list Endpoint)
    (dynamic_id_table : list (string * list string)) : result Endpoint :=
  let used := used_templates (sequence base_test) endpoints in
  compatible ← compatible_endpoints used dynamic_id_table endpoints;
  match compatible with
  | [] => Raise RuntimeError
  | _ :: _ =>
      (* base_test["sequence"][-1] *)
      match List.rev (sequence base_test) with
      | [] => Raise IndexError
      | last_request :: _ =>
          match find_endpoint_by_request last_request endpoints with
          | None =>
              (* [sorted] calls [score_candidate(None, ep)] *)
              Raise AttributeError
          | Some base_endpoint =>
              match sorted (score_candidate base_endpoint) true compatible with
              | best :: _ => Ok best
              | [] => Raise IndexError
              end
          end
      end
  end.

(** [p.get("required", True)] is true. *)
Definition required_unless_told (p : value) : bool :=
  match p with
  | VDict d => Py.truthy (default (VBool true) (Py.dict_get "required" d))
  | _ => false
  end.

(** The loop over [endpoint.header_params] of [IS_SEED_ENDPOINT]. *)
Fixpoint seed_headers (header_params : list value) : result bool :=
  match header_params with
  | [] => Ok true
  | VDict d :: header_params' =>
      match Py.dict_get "name" d with
      | Some (VStr n) =>
          let name := PyStr.lower n in
          if Py.truthy (default (VBool false) (Py.dict_get "required" d))
             && negb (existsb (String.eqb name) ["content-type"; "accept"])
          then Ok false
          else seed_headers header_params'
      | Some _ => Raise AttributeError
      | None => Raise KeyError
      end
  | _ :: _ => Raise AttributeError
  end.

Definition IS_SEED_ENDPOINT (endpoint : Endpoint) : result bool :=
  if existsb required_unless_told (path_params endpoint) then Ok false
  else seed_headers (header_params endpoint).

(** The key of the sort of [SELECT_FALLBACK_SEEDS]. *)
Definition required_path_params (ep : Endpoint) : Z :=
  Z.of_nat (length (List.filter required_unless_told (path_params ep))).

Definition SELECT_FALLBACK_SEEDS (endpoints : list Endpoint) (k : nat) : list Endpoint :=
  let ranked := sorted required_path_params false endpoints in
  firstn k ranked.

(** [test_fuzz.py]: the endpoints of the seed corpus. *)
Fixpoint seed_candidates (endpoints : list Endpoint) : result (list Endpoint) :=
  match endpoints with
  | [] => Ok []
  | ep :: endpoints' =>
      seed ← IS_SEED_ENDPOINT ep;
      rest ← seed_candidates endpoints';
      Ok (if seed : bool then ep :: rest else rest)
  end.

Definition seed_endpoints (endpoints : list Endpoint) : result (list Endpoint) :=
  seeds ← seed_candidates endpoints;
  Ok (match seeds with
      | [] => SELECT_FALLBACK_SEEDS endpoints 3
      | _ :: _ => seeds
      end).

(** [GET /pets], without parameters, and [GET /pets/{id}] with its path
    parameter. *)
Definition pets_get : Endpoint :=
  {| path := "/pets"; method := "GET"; parameters := []; request_body := VNone |}.

Definition pet_get : Endpoint :=
  {| path := "/pets/{id}"; method := "GET";
     parameters := [VDict [("name", VStr "id"); ("in", VStr "path");
                           ("required", VBool true);
                           ("schema", VDict [("type", VStr "integer")])]];
     request_body := VNone |}.

(** A corpus entry with the one request [GET /pets]. *)
Definition pets_get_test : test_entry :=
  {| sequence := [pets_get_request]; responses := [pet_response]; tcl := 1; diversity := 1 |}.

(** The keys of [l] never decrease. *)
Fixpoint ordered {A} (key : A -> Z) (l : list A) : Prop :=
  match l with
  | [] => True
  | x :: l' => Forall (fun y => (key x <= key y)%Z) l' /\ ordered key l'
  end.

(* ================================================================== *)
(** * [generator/request.py]: [build_request] *)
(* ================================================================== *)

(** The loop over [endpoint.parameters] that fills [headers].  The keys
    of [headers] are [str]s in this model: a header parameter whose name is
    another value that can be hashed is outside it, and ends the loop with
    a [TypeError] as a name that cannot be hashed does. *)
Fixpoint header_examples (params : list value) (headers : list (string * value)) (g : rng)
  : result (list (string * value) * rng) :=
  match params with
  | [] => Ok (headers, g)
  | VDict param :: params' =>
      if is_str (Py.dict_get "in" param) "header" then
        match Py.dict_get "name" param with
        | None => Raise KeyError
        | Some name =>
            match Py.dict_get "schema" param with
            | None => Raise KeyError
            | Some schema =>
                '(v, g') ← generate_example_value schema g;
                match name with
                | VStr n => header_examples params' (headers_set n v headers) g'
                | _ => Raise TypeError
                end
            end
        end
      else header_examples params' headers g
  | _ :: _ => Raise AttributeError
  end.

(** The strings among the elements of a list that is made a set.  An
    element that is not a [str] is the name of no property and is left
    out; a list or a dict cannot be hashed. *)
Fixpoint hashable_names (l : list value) : result (list string) :=
  match l with
  | [] => Ok []
  | VStr s :: l' => rest ← hashable_names l'; Ok (s :: rest)
  | VList _ :: _ | VDict _ :: _ => Raise TypeError
  | _ :: l' => hashable_names l'
  end.

(** [set(schema.get("required", []))], as the list of its elements in
    the order of their insertion. *)
Definition required_set (schema : list (string * value)) : result (list string) :=
  match default (VList []) (Py.dict_get "required" schema) with
  | VList l => names ← hashable_names l; Ok (Py.set_of_list names)
  | VStr s => Ok (Py.set_of_list (map (fun c => String c "") (PyStr.chars s)))
  | VDict d => Ok (Py.set_of_list (Py.dict_keys d))
  | _ => Raise TypeError
  end.

(** [body[name] = value] unless [value is None]. *)
Definition set_unless_none (name : string) (v : value) (body : list (string * value))
  : list (string * value) :=
  match v with
  | VNone => body
  | _ => Py.dict_set name v body
  end.

(** The loop over [required]: [names] is the set as it is iterated. *)
Fixpoint required_examples (props : value) (names : list string)
    (body : list (string * value)) (g : rng) : result (list (string * value) * rng) :=
  match names with
  | [] => Ok (body, g)
  | name :: names' =>
      match props with
      | VDict items =>
          match Py.dict_get name items with
          | Some definition =>
              if Py.truthy definition then
                '(v, g') ← generate_example_value definition g;
                required_examples props names' (set_unless_none name v body) g'
              else required_examples props names' body g
          | None => required_examples props names' body g
          end
      | _ => Raise AttributeError
      end
  end.

(** The list [optional_fields]: the properties that are not required
    and not read-only. *)
Fixpoint optional_fields (items : list (string * value)) (required : list string)
  : result (list (string * value)) :=
  match items with
  | [] => Ok []
  | (name, definition) :: items' =>
      keep ← (if existsb (String.eqb name) required then Ok false
              else match definition with
                   | VDict d =>
                       Ok (negb (Py.truthy (default (VBool false) (Py.dict_get "readOnly" d))))
                   | _ => Raise AttributeError
                   end);
      rest ← optional_fields items' required;
      Ok (if keep : bool then (name, definition) :: rest else rest)
  end.

(** ["example" in d] for the definition of a field kept above, a dict. *)
Definition has_example (field : string * value) : bool :=
  match snd field with
  | VDict d => Py.dict_has "example" d
  | _ => false
  end.

(** The body of [build_request]: the fields required, and for a [POST]
    without any, one optional field. *)
Definition build_body (py : python) (method : string) (schema : list (string * value))
    (g : rng) : result (list (string * value) * rng) :=
  let props := default (VDict []) (Py.dict_get "properties" schema) in
  required ← required_set schema;
  '(body, g1) ← required_examples props (set_iter py required) [] g;
  if String.eqb method "POST" && negb (Py.truthy (VDict body)) then
    match props with
    | VDict items =>
        optional ← optional_fields items required;
        let with_example := List.filter has_example optional in
        let fallback_candidates :=
          match with_example with
          | [] => optional
          | _ :: _ => with_example
          end in
        match fallback_candidates with
        | [] => Ok (body, g1)
        | c0 :: _ =>
            let '((name, definition), g2) := Random.choice c0 fallback_candidates g1 in
            '(v, g3) ← generate_example_value definition g2;
            Ok (set_unless_none name v body, g3)
        end
    | _ => Raise AttributeError
    end
  else Ok (body, g1).

Definition build_request (py : python) (endpoint : Endpoint) (g : rng)
  : result (request * rng) :=
  let url := path endpoint in
  let method := method endpoint in
  '(headers, g1) ← header_examples (parameters endpoint)
                                    [("Content-Type", VStr "application/json")] g;
  '(body, g2) ← (if Py.truthy (request_body endpoint) then
                   match request_body endpoint with
                   | VDict schema => build_body py method schema g1
                   | _ => Raise AttributeError
                   end
                 else Ok ([], g1));
  Ok ({| req_method := method; req_url := url; req_headers := headers;
         req_body := if Py.truthy (VDict body) then VDict body else VNone;
         req_parameters := Some (parameters endpoint) |}, g2).

(* ================================================================== *)
(** * [mutation/mutate.py]: [mutate_request] *)
(* ================================================================== *)

(** A variant of the request [req]: the dict built in both loops, which
    has no key ["parameters"]. *)
Definition variant (req : request) (mutated : list (string * value)) : request :=
  {| req_method := req_method req; req_url := req_url req;
     req_headers := req_headers req; req_body := VDict mutated;
     req_parameters := None |}.

(** The loop over the fields of the body: for each field a copy of the
    body with the value of the field mutated. *)
Fixpoint value_mutations (req : request) (original_body : list (string * value))
    (fields : list string) (g : rng) : list request * rng :=
  match fields with
  | [] => ([], g)
  | field :: fields' =>
      let '(v, g1) := mutate_value (default VNone (Py.dict_get field original_body)) g in
      let '(rest, g2) := value_mutations req original_body fields' g1 in
      (variant req (Py.dict_set field v original_body) :: rest, g2)
  end.

(** [for f in properties]: the keys of a dict, the elements of a list of
    names, the characters of a string.  The fields are [str]s in this
    model: a list with another element is outside it, and gives the
    [TypeError] of an element that cannot be hashed. *)
Definition field_names (properties : value) : result (list string) :=
  match properties with
  | VDict d => Ok (Py.dict_keys d)
  | VList l =>
      if forallb isinstance_str l
      then Ok (flat_map (fun x => match x with VStr s => [s] | _ => [] end) l)
      else Raise TypeError
  | VStr s => Ok (map (fun c => String c "") (PyStr.chars s))
  | _ => Raise TypeError
  end.

(** The loop over [optional_fields]: [properties[field]] needs a dict. *)
Fixpoint optional_mutations (req : request) (properties : value)
    (original_body : list (string * value)) (fields : list string) (g : rng)
  : result (list request * rng) :=
  match fields with
  | [] => Ok ([], g)
  | field :: fields' =>
      match properties with
      | VDict props =>
          match Py.dict_get field props with
          | Some definition =>
              '(example_val, g1) ← generate_example_value definition g;
              '(rest, g2) ← optional_mutations req properties original_body fields' g1;
              Ok (match example_val with
                  | VNone => rest
                  | _ => variant req (Py.dict_set field example_val original_body) :: rest
                  end, g2)
          | None => Raise KeyError
          end
      | _ => Raise TypeError
      end
  end.

Definition mutate_request (req : request) (schema : value) (g : rng)
  : result (list request * rng) :=
  match req_body req with
  | VDict ((_ :: _) as original_body) =>
      let '(mutations, g1) :=
        value_mutations req original_body (Py.dict_keys original_body) g in
      properties ← get_or_empty "properties" schema;
      required ← match schema with
                 | VDict s => required_set s
                 | _ => Raise AttributeError
                 end;
      names ← field_names properties;
      let optional_fields :=
        List.filter (fun f => negb (Py.dict_has f original_body)
                              && negb (existsb (String.eqb f) required)) names in
      '(more, g2) ← optional_mutations req properties original_body optional_fields g1;
      Ok (mutations ++ more, g2)
  | _ => Ok ([req], g)
  end.

(* ================================================================== *)
(** * [executor/auth.py] and [executor/sender.py] *)
(* ================================================================== *)

(** [AuthHandler]: [header] is the header given to the constructor, or
    the empty dict. *)
Record AuthHandler : Type := {
  auth_type : value;
  token : value;
  header : list (string * value)
}.

Definition has_auth (a : AuthHandler) : bool := Py.truthy (VDict (header a)).

Definition get_auth_header (a : AuthHandler) : list (string * value) := header a.

(** The arguments of a call of [requests.request]. *)
Record call : Type := {
  call_method : string;
  call_url : string;
  call_headers : list (string * value);
  call_json : value
}.

(** [requests.request]: the exchange with the target, which has a state
    of its own.  The answer is a response (status code, text and headers)
    or the message of the exception raised. *)
Definition transport (W : Type) : Type := W -> call -> W * (response + string).

(** [headers.update(other)] *)
Definition headers_update (headers other : list (string * value)) : list (string * value) :=
  fold_left (fun h kv => headers_set (fst kv) (snd kv) h) other headers.

(** The response recorded when the exchange raises. *)
Definition error_response (e : string) : response :=
  {| status := 0; body := "Error: " ++ e; headers := [] |}.

(** One turn of the loop of [send_sequence]. *)
Definition send_one {W} (http : transport W) (base_url : string)
    (auth_handler : option AuthHandler) (w : W) (req : request) : W * response :=
  let method := req_method req in
  let url := (rstrip "/" base_url ++ req_url req)%string in
  let headers :=
    match auth_handler with
    | Some a => if has_auth a then headers_update (req_headers req) (get_auth_header a)
                else req_headers req
    | None => req_headers req
    end in
  let body := req_body req in
  let '(w1, answer) :=
    http w {| call_method := method; call_url := url;
                 call_headers := headers; call_json := body |} in
  match answer with
  | inl resp =>
      match auth_handler with
      | Some a =>
          if (status resp =? 401)%Z || (status resp =? 403)%Z then
            let retry_headers := headers_update (req_headers req) (get_auth_header a) in
            let '(w2, answer2) :=
              http w1 {| call_method := method; call_url := url;
                            call_headers := retry_headers; call_json := body |} in
            match answer2 with
            | inl resp2 => (w2, resp2)
            | inr e => (w2, error_response e)
            end
          else (w1, resp)
      | None => (w1, resp)
      end
  | inr e => (w1, error_response e)
  end.

Fixpoint send_sequence {W} (http : transport W) (requests_list : list request)
    (base_url : string) (auth_handler : option AuthHandler) (w : W) : W * list response :=
  match requests_list with
  | [] => (w, [])
  | req :: requests_list' =>
      let '(w1, resp) := send_one http base_url auth_handler w req in
      let '(w2, responses) := send_sequence http requests_list' base_url auth_handler w1 in
      (w2, resp :: responses)
  end.

(** [test_fuzz.py]: [responses[-1]], the subscript after each call of
    [send_sequence]. *)
Definition last_response (responses : list response) : result response :=
  match List.rev responses with
  | [] => Raise IndexError
  | r :: _ => Ok r
  end.

(* ================================================================== *)
(** * [parser/swagger.py]: the request body in version 2.0 *)
(* ================================================================== *)

(** [_extract_request_body_v2(parameters)]: the first parameter in the
    body whose schema is true decides. *)
Fixpoint _extract_request_body_v2 (resolve_schema : value -> value)
    (parameters : list value) : result value :=
  match parameters with
  | [] => Ok VNone
  | VDict param :: parameters' =>
      if is_str (Py.dict_get "in" param) "body" then
        let schema := default VNone (Py.dict_get "schema" param) in
        if Py.truthy schema then
          let schema := resolve_schema schema in
          required ← match schema with
                     | VDict sd => Ok (default (VList []) (Py.dict_get "required" sd))
                     | _ => Raise AttributeError
                     end;
          properties ← get_or_empty "properties" schema;
          Ok (VDict [("properties", properties); ("required", required)])
        else _extract_request_body_v2 resolve_schema parameters'
      else _extract_request_body_v2 resolve_schema parameters'
  | _ :: _ => Raise AttributeError
  end.

(** The state [seeded_engine] once the loop has entered mutation mode. *)
Definition mutating_engine : engine :=
  {| mutation_mode := true;
     stagnation_counter := 25;
     last_total_score := 0;
     seen_signatures := {[ sequence_signature [pets_get_request] ]};
     cumulative_coverage := empty_coverage;
     seen_fields := ∅;
     dynamic_id_table := [];
     corpus := [];
     sent := [] |}.

(** An operation of a specification in version 3 with a JSON body, and
    the parameters of one in version 2.0 with a body. *)
Definition pets_post_operation : value :=
  VDict [("requestBody",
          VDict [("content",
                  VDict [("application/json",
                          VDict [("schema",
                                  VDict [("type", VStr "object");
                                         ("properties", VDict [("name", string_schema)]);
                                         ("required", VList [VStr "name"])])])])])].

Definition pets_post_parameters : list value :=
  [VDict [("name", VStr "pet"); ("in", VStr "body");
          ("schema", VDict [("type", VStr "object");
                            ("properties", VDict [("name", string_schema)])])]].

(** [POST /pets] with its body schema under [content], the shape that
    [deep_mutation] reads, and a request for it whose body is a JSON
    text. *)
Definition pets_post_content : Endpoint :=
  {| path := "/pets"; method := "POST"; parameters := [];
     request_body :=
       VDict [("content",
               VDict [("application/json",
                       VDict [("schema",
                               VDict [("type", VStr "object");
                                      ("properties",
                                       VDict [("name", string_schema);
                                              ("tag", string_schema)]);
                                      ("required", VList [VStr "name"])])])])] |}.

Definition pets_post_text_request : request :=
  {| req_method := "POST"; req_url := "/pets"; req_headers := json_headers;
     req_body := VStr (json_member "name" "Rex");
     req_parameters := Some [] |}.

(* ================================================================== *)
(** * Properties *)
(* ================================================================== *)

(** ** Mutation of values *)

Lemma choice_nth {A} (d : A) (l : list A) (g : rng) :
  exists i, fst (Random.choice d l g) = nth i l d.
Proof.
  unfold Random.choice, Random.randbelow. destruct (Random.draw g) as [x g'].
  eexists. reflexivity.
Qed.

Lemma choice_In {A} (d : A) (l : list A) (g : rng) :
  l <> [] -> In (fst (Random.choice d l g)) l.
Proof.
  intros Hl. unfold Random.choice, Random.randbelow.
  destruct (Random.draw g) as [x g']. cbn [fst].
  apply nth_In. apply Nat.mod_upper_bound. destruct l; [congruence | discriminate].
Qed.

(** C9: [mutate_value] tests [isinstance(value, int)] first, and a [bool]
    is an [int]: on a boolean it returns one of the five integers of the
    first branch, never the negation. *)
Theorem mutate_value_bool_takes_int_branch (b : bool) (g : rng) :
  mutate_value (VBool b) g
  = Random.choice VNone
      [VInt 0; VInt (-1); VInt (Py.int_of_bool b + 1); VInt (Py.int_of_bool b - 1);
       VInt 999999] g
  /\ isinstance_bool (fst (mutate_value (VBool b) g)) = false.
Proof.
  split; [reflexivity |].
  change (mutate_value (VBool b) g)
    with (Random.choice VNone
            [VInt 0; VInt (-1); VInt (Py.int_of_bool b + 1); VInt (Py.int_of_bool b - 1);
             VInt 999999] g).
  destruct (choice_nth VNone
              [VInt 0; VInt (-1); VInt (Py.int_of_bool b + 1);
               VInt (Py.int_of_bool b - 1); VInt 999999] g) as [i ->].
  do 6 (destruct i as [| i]; [reflexivity |]). destruct i; reflexivity.
Qed.

(** On [True] with a draw of 1 the result is the integer -1. *)
Example mutate_value_true : mutate_value (VBool true) [1%N] = (VInt (-1), []).
Proof. reflexivity. Qed.

(** The other branches of [mutate_value] are as the specification says. *)
Lemma mutate_value_other_types (g : rng) :
  (forall z, In (fst (mutate_value (VInt z) g))
               [VInt 0; VInt (-1); VInt (z + 1); VInt (z - 1); VInt 999999])
  /\ (forall f, In (fst (mutate_value (VFloat f) g))
                  [VFloat (FQ 0); VFloat (FQ (-11 # 10)); VFloat (float_double f);
                   VFloat (FQ (9999999 # 100))])
  /\ (forall l, mutate_value (VList l) g = (VList (l ++ l), g))
  /\ (forall d, mutate_value (VDict d) g = (VDict d, g))
  /\ mutate_value VNone g = (VNone, g).
Proof.
  repeat split; intros; try reflexivity.
  - apply (choice_In VNone); discriminate.
  - apply (choice_In VNone); discriminate.
Qed.

(** ** Diversity *)

(** C3: [CALCULATE_DIVERSITY] reads the key [content-type] in lower case
    from a plain dict: a response whose header is spelled otherwise, as in
    [Content-Type], is never parsed and scores 0. *)
Theorem CALCULATE_DIVERSITY_needs_lower_case_key
    (py : python) (resp : response) (seen : gset string) :
  assoc "content-type" (headers resp) = None ->
  CALCULATE_DIVERSITY py resp seen = (0%Q, seen).
Proof.
  intros H. unfold CALCULATE_DIVERSITY. rewrite H. cbn [from_option].
  replace (PyStr.contains "application/json" "") with false by reflexivity.
  rewrite orb_true_r. reflexivity.
Qed.

Lemma CALCULATE_DIVERSITY_capitalised_header :
  CALCULATE_DIVERSITY pet_python pet_response ∅ = (0%Q, ∅).
Proof.
  apply CALCULATE_DIVERSITY_needs_lower_case_key. reflexivity.
Defined.

(** What the code does when the key is there: the count of the new
    flattened keys and the keys of this response. *)
Lemma CALCULATE_DIVERSITY_parsed
    (py : python) (resp : response) (seen : gset string) (ctype : string) (doc : value) :
  assoc "content-type" (headers resp) = Some ctype ->
  PyStr.contains "application/json" ctype = true ->
  blank (body resp) = false ->
  json_loads py (body resp) = Some doc ->
  CALCULATE_DIVERSITY py resp seen
  = (inject_Z (Z.of_nat (size (list_to_set (Py.dict_keys (flatten_json doc ""))
                                ∖ seen : gset string))),
     list_to_set (Py.dict_keys (flatten_json doc ""))).
Proof.
  intros H1 H2 H3 H4. unfold CALCULATE_DIVERSITY.
  rewrite H1. cbn [from_option id]. rewrite H2, H3, H4. reflexivity.
Qed.

(** With the lower-case key the same body scores its one new field. *)
Example CALCULATE_DIVERSITY_lower_case_header :
  CALCULATE_DIVERSITY pet_python pet_response_lower ∅ = (1%Q, {[ "name" ]}).
Proof.
  erewrite CALCULATE_DIVERSITY_parsed by reflexivity. vm_compute. reflexivity.
Qed.

(** ** Deep mutation *)

Lemma deep_mutate_request_normalized
    (py : python) (emoji : string) (endpoints : list Endpoint) (req : request) (g : rng) :
  Forall (fun ep => normalized_body (request_body ep) = true) endpoints ->
  deep_mutate_request py emoji endpoints req g = Ok (req, g).
Proof.
  intros Hall. unfold deep_mutate_request, find_endpoint_by_request.
  destruct (List.find _ endpoints) as [ep |] eqn:Hfind; [| reflexivity].
  apply List.find_some in Hfind as [Hin _].
  rewrite Forall_forall in Hall. specialize (Hall ep).
  assert (Hn : normalized_body (request_body ep) = true).
  { apply Hall. apply list_elem_of_In. exact Hin. }
  clear Hall. destruct (request_body ep) as [| | | | | | d]; try discriminate Hn.
  { reflexivity. }
  destruct d as [| [k1 v1] [| [k2 v2] [| ? ?]]]; try discriminate Hn.
  cbn in Hn. apply andb_true_iff in Hn as [H1 H2].
  apply String.eqb_eq in H1, H2. subst k1 k2.
  cbn [Py.truthy negb].
  destruct (loads_body py (req_body req)); reflexivity.
Qed.

(** C1: the parser stores the request body of an endpoint as a dict with
    the keys [properties] and [required]; [deep_mutation] looks for the key
    [content] in it, finds no schema, and returns every request as it
    was: no optional property is added. *)
Theorem deep_mutation_parser_endpoints_unchanged
    (py : python) (emoji : string) (sequence : list request)
    (endpoints : list Endpoint) (g : rng) :
  Forall (fun ep => normalized_body (request_body ep) = true) endpoints ->
  deep_mutation py emoji sequence endpoints g = Ok (sequence, g).
Proof.
  intros Hall. induction sequence as [| req sequence IH]; [reflexivity |].
  cbn [deep_mutation]. rewrite deep_mutate_request_normalized by assumption.
  cbn. rewrite IH. reflexivity.
Qed.

Lemma deep_mutation_pets_unchanged :
  deep_mutation pet_python "" [pets_post_request] [pets_post] []
  = Ok ([pets_post_request], []).
Proof.
  apply deep_mutation_parser_endpoints_unchanged.
  constructor; [reflexivity | constructor].
Defined.

(** What [_extract_request_body_v3] returns is [None] or such a dict. *)
Lemma extract_request_body_v3_normalized
    (resolve_schema : value -> value) (op_obj rb : value) :
  _extract_request_body_v3 resolve_schema op_obj = Ok rb ->
  normalized_body rb = true.
Proof.
  unfold _extract_request_body_v3. intros H.
  destruct (get_or_empty "requestBody" op_obj) as [rbody |]; [| discriminate].
  cbn in H. destruct (get_or_empty "content" rbody) as [content |]; [| discriminate].
  cbn in H. destruct (get_or_empty "application/json" content) as [aj |]; [| discriminate].
  cbn in H. destruct aj as [| | | | | | aj]; try discriminate.
  destruct (Py.truthy _).
  - destruct (resolve_schema _) as [| | | | | | sd]; try discriminate.
    cbn in H. destruct (default (VDict []) (Py.dict_get "properties" sd));
      inversion H; reflexivity.
  - inversion H. reflexivity.
Qed.

(** A body that is not a text is not parsed either: the requests of
    [build_request], whose body is a dict or [None], come back as they
    were whatever the endpoints. *)
Lemma deep_mutate_request_body_not_text
    (py : python) (emoji : string) (endpoints : list Endpoint) (req : request) (g : rng) :
  isinstance_str (req_body req) = false ->
  deep_mutate_request py emoji endpoints req g = Ok (req, g).
Proof.
  intros H. unfold deep_mutate_request.
  destruct (find_endpoint_by_request req endpoints) as [ep |]; [| reflexivity].
  destruct (negb (Py.truthy (request_body ep))); [reflexivity |].
  destruct (req_body req); try discriminate H; reflexivity.
Qed.

(** ** Sequences whose signature is known *)

(** C2: in exploration mode an extended sequence whose signature is known
    adds 1 to the stagnation counter, and unless that reaches the window
    the iteration goes on: the sequence is sent and joins the corpus. *)
Theorem duplicate_sequence_is_sent
    (py : python) (send_sequence : list request -> list response)
    (spec_info : coverage) (param_names : list string)
    (st : engine) (extended_sequence : list request) :
  mutation_mode st = false ->
  sequence_signature extended_sequence ∈ seen_signatures st ->
  Qle_bool STAGNATION_WINDOW (stagnation_counter st + 1) = false ->
  send_sequence extended_sequence <> [] ->
  exists st',
    iterate py send_sequence spec_info param_names st extended_sequence = Ok st'
    /\ stagnation_counter st' = (stagnation_counter st + 1)%Q
    /\ sent st' = extended_sequence :: sent st
    /\ length (corpus st') = S (length (corpus st))
    /\ (exists entry, last (corpus st') = Some entry
                      /\ sequence entry = extended_sequence).
Proof.
  intros Hmode Hseen Hwin Hresp. unfold iterate.
  rewrite Hmode. cbn [negb].
  rewrite bool_decide_eq_true_2 by exact Hseen. cbn [negb].
  rewrite Hwin. unfold execute.
  destruct (List.rev (send_sequence extended_sequence)) as [| last_response rest] eqn:Hrev.
  { exfalso. apply Hresp. apply (f_equal (@List.rev response)) in Hrev.
    rewrite List.rev_involutive in Hrev. exact Hrev. }
  destruct (CALCULATE_DIVERSITY py last_response _) as [diversity new_fields].
  eexists. split; [reflexivity |]. cbn.
  repeat split.
  - rewrite length_app. cbn. lia.
  - eexists. split; [apply last_snoc | reflexivity].
Qed.

(** Only when the counter reaches the window is nothing sent: the
    iteration switches to mutation mode and ends. *)
Lemma duplicate_sequence_at_window
    (py : python) (send_sequence : list request -> list response)
    (spec_info : coverage) (param_names : list string)
    (st : engine) (extended_sequence : list request) :
  mutation_mode st = false ->
  sequence_signature extended_sequence ∈ seen_signatures st ->
  Qle_bool STAGNATION_WINDOW (stagnation_counter st + 1) = true ->
  iterate py send_sequence spec_info param_names st extended_sequence
  = Ok (with_stagnation st (stagnation_counter st + 1)%Q (seen_signatures st)
          (calculate_tcl_score (cumulative_coverage st) spec_info) true).
Proof.
  intros Hmode Hseen Hwin. unfold iterate.
  rewrite Hmode. cbn [negb].
  rewrite bool_decide_eq_true_2 by exact Hseen. cbn [negb].
  rewrite Hwin. reflexivity.
Qed.

Lemma duplicate_seed_is_sent :
  exists st',
    iterate pet_python pet_target empty_coverage [] seeded_engine [pets_get_request] = Ok st'
    /\ stagnation_counter st' = (stagnation_counter seeded_engine + 1)%Q
    /\ sent st' = [pets_get_request] :: sent seeded_engine
    /\ length (corpus st') = S (length (corpus seeded_engine))
    /\ (exists entry, last (corpus st') = Some entry
                      /\ sequence entry = [pets_get_request]).
Proof.
  apply duplicate_sequence_is_sent.
  - reflexivity.
  - change (sequence_signature [pets_get_request]
            ∈ ({[ sequence_signature [pets_get_request] ]} : gset (list (string * string)))).
    apply elem_of_singleton_2. reflexivity.
  - reflexivity.
  - discriminate.
Defined.

(** ** The TCL score *)

Lemma Qdiv_bounds (a b : Q) :
  (0 < b)%Q -> (0 <= a)%Q -> (a <= b)%Q ->
  (0 <= a / b)%Q /\ (a / b <= 1)%Q /\ (a / b == 1 -> a == b)%Q.
Proof.
  intros Hb Ha Hab. split; [| split].
  - apply Qle_shift_div_l; [exact Hb | lra].
  - apply Qle_shift_div_r; [exact Hb | lra].
  - intros Heq.
    assert (Hnz : ~ (b == 0)%Q) by (intros E; rewrite E in Hb; inversion Hb).
    rewrite <- (Qmult_div_r a b Hnz). rewrite Heq. lra.
Qed.

Lemma ratio_bounds (m t : nat) :
  (0 < t)%nat -> (m <= t)%nat ->
  (0 <= ratio m t)%Q /\ (ratio m t <= 1)%Q /\ (ratio m t == 1 -> m = t)%Q.
Proof.
  intros Ht Hm. unfold ratio.
  assert (Hpos : (0 < inject_Z (Z.of_nat t))%Q).
  { change 0%Q with (inject_Z 0). rewrite <- Zlt_Qlt. lia. }
  assert (Hm0 : (0 <= inject_Z (Z.of_nat m))%Q).
  { change 0%Q with (inject_Z 0). rewrite <- Zle_Qle. lia. }
  assert (Hmt : (inject_Z (Z.of_nat m) <= inject_Z (Z.of_nat t))%Q).
  { rewrite <- Zle_Qle. lia. }
  destruct (Qdiv_bounds _ _ Hpos Hm0 Hmt) as (H0 & H1 & H2).
  split; [exact H0 |]. split; [exact H1 |].
  intros Heq. apply H2 in Heq. apply (proj1 (inject_Z_injective _ _)) in Heq. lia.
Qed.

Lemma partial_score_bounds `{Countable A} (matched total : gset A) :
  matched ⊆ total ->
  (0 <= partial_score matched total)%Q
  /\ (partial_score matched total <= 1)%Q
  /\ (partial_score matched total == 1 -> total <> ∅ /\ matched = total)%Q.
Proof.
  intros Hsub. unfold partial_score.
  destruct (decide (total = ∅)) as [He | Hne].
  - split; [lra |]. split; [lra |]. intros Habs. exfalso. lra.
  - assert (Hsize : (0 < size total)%nat).
    { destruct (size total) eqn:Hs; [| lia].
      apply size_empty_inv in Hs. exfalso. apply Hne. apply leibniz_equiv. exact Hs. }
    assert (Hle : (size matched <= size total)%nat) by (apply subseteq_size; exact Hsub).
    destruct (ratio_bounds (size matched) (size total) Hsize Hle) as (H0 & H1 & H2).
    split; [exact H0 |]. split; [exact H1 |].
    intros Heq. split; [exact Hne |].
    apply set_subseteq_size_eq; [exact Hsub |].
    rewrite (H2 Heq). reflexivity.
Qed.

Lemma match_paths_subset (concrete_paths spec_paths : gset string) :
  match_paths_with_dependencies concrete_paths spec_paths ⊆ spec_paths.
Proof.
  intros p Hp. unfold match_paths_with_dependencies in Hp.
  apply elem_of_list_to_set in Hp. apply list_elem_of_In in Hp.
  apply in_flat_map in Hp as (c & _ & Hc).
  apply List.filter_In in Hc as [Hc _].
  apply elem_of_elements. apply list_elem_of_In. exact Hc.
Qed.

Lemma match_paths_elem (concrete_paths spec_paths : gset string) (p : string) :
  p ∈ match_paths_with_dependencies concrete_paths spec_paths ->
  exists c, c ∈ concrete_paths /\ match_path c p = true.
Proof.
  intros Hp. unfold match_paths_with_dependencies in Hp.
  apply elem_of_list_to_set in Hp. apply list_elem_of_In in Hp.
  apply in_flat_map in Hp as (c & Hc & Hf).
  apply List.filter_In in Hf as [_ Hm].
  exists c. split; [| exact Hm].
  apply elem_of_elements. apply list_elem_of_In. exact Hc.
Qed.

Lemma match_operations_subset (actual_ops spec_ops : gset (string * string)) :
  match_operations_with_dependencies actual_ops spec_ops ⊆ spec_ops.
Proof.
  intros p Hp. unfold match_operations_with_dependencies in Hp.
  apply elem_of_list_to_set in Hp. apply list_elem_of_In in Hp.
  apply in_flat_map in Hp as ([m c] & _ & Hc).
  apply List.filter_In in Hc as [Hc _].
  apply elem_of_elements. apply list_elem_of_In. exact Hc.
Qed.

Lemma match_operations_elem (actual_ops spec_ops : gset (string * string))
    (spec_method spec_path : string) :
  (spec_method, spec_path) ∈ match_operations_with_dependencies actual_ops spec_ops ->
  exists c, (spec_method, c) ∈ actual_ops /\ match_path c spec_path = true.
Proof.
  intros Hp. unfold match_operations_with_dependencies in Hp.
  apply elem_of_list_to_set in Hp. apply list_elem_of_In in Hp.
  apply in_flat_map in Hp as ([m c] & Hc & Hf).
  apply List.filter_In in Hf as [_ Hm].
  apply andb_true_iff in Hm as [Hm1 Hm2]. apply String.eqb_eq in Hm1. subst m.
  exists c. split; [| exact Hm2].
  apply elem_of_elements. apply list_elem_of_In. exact Hc.
Qed.

(** C6: the TCL score lies between 0 and 6, and it is 6 only if each of
    the six expected sets is non-empty and wholly matched: every expected
    path and operation is matched by a covered one, and every other
    expected element is covered. *)
Theorem calculate_tcl_score_bounds (seq_coverage spec_info : coverage) :
  (0 <= calculate_tcl_score seq_coverage spec_info)%Q
  /\ (calculate_tcl_score seq_coverage spec_info <= 6)%Q
  /\ ((calculate_tcl_score seq_coverage spec_info == 6)%Q ->
      (paths spec_info <> ∅
       /\ forall p, p ∈ paths spec_info ->
            exists c, c ∈ paths seq_coverage /\ match_path c p = true)
      /\ (operations spec_info <> ∅
          /\ forall m p, (m, p) ∈ operations spec_info ->
               exists c, (m, c) ∈ operations seq_coverage /\ match_path c p = true)
      /\ (cov_parameters spec_info <> ∅
          /\ cov_parameters spec_info ⊆ cov_parameters seq_coverage)
      /\ (status_codes spec_info <> ∅
          /\ status_codes spec_info ⊆ status_codes seq_coverage)
      /\ (response_fields spec_info <> ∅
          /\ response_fields spec_info ⊆ response_fields seq_coverage)
      /\ (input_content_types spec_info <> ∅
          /\ input_content_types spec_info ⊆ input_content_types seq_coverage)).
Proof.
  unfold calculate_tcl_score.
  destruct (partial_score_bounds _ _
              (match_paths_subset (paths seq_coverage) (paths spec_info)))
    as (A0 & A1 & A2).
  destruct (partial_score_bounds _ _
              (match_operations_subset (operations seq_coverage) (operations spec_info)))
    as (B0 & B1 & B2).
  destruct (partial_score_bounds _ _
              (intersection_subseteq_r (cov_parameters seq_coverage) (cov_parameters spec_info)))
    as (C0 & C1 & C2).
  destruct (partial_score_bounds _ _
              (intersection_subseteq_r (status_codes seq_coverage) (status_codes spec_info)))
    as (D0 & D1 & D2).
  destruct (partial_score_bounds _ _
              (intersection_subseteq_r (response_fields seq_coverage) (response_fields spec_info)))
    as (E0 & E1 & E2).
  destruct (partial_score_bounds _ _
              (intersection_subseteq_r (input_content_types seq_coverage) (input_content_types spec_info)))
    as (F0 & F1 & F2).
  split; [lra |]. split; [lra |].
  intros Hsix.
  destruct A2 as [A2 A3]; [lra |].
  destruct B2 as [B2 B3]; [lra |].
  destruct C2 as [C2 C3]; [lra |].
  destruct D2 as [D2 D3]; [lra |].
  destruct E2 as [E2 E3]; [lra |].
  destruct F2 as [F2 F3]; [lra |].
  repeat split; try assumption.
  - intros p Hp. apply (match_paths_elem _ (paths spec_info)). rewrite A3. exact Hp.
  - intros m p Hp. apply (match_operations_elem _ (operations spec_info)).
    rewrite B3. exact Hp.
  - rewrite <- C3. apply intersection_subseteq_l.
  - rewrite <- D3. apply intersection_subseteq_l.
  - rewrite <- E3. apply intersection_subseteq_l.
  - rewrite <- F3. apply intersection_subseteq_l.
Qed.

(** Scenario 4 of the specification: one expected path out of three
    covered, nothing else expected. *)
Example calculate_tcl_score_third :
  (calculate_tcl_score
     {| paths := {[ "/a" ]}; operations := ∅; cov_parameters := ∅; status_codes := ∅;
        response_fields := ∅; input_content_types := ∅ |}
     {| paths := {[ "/a"; "/b"; "/c" ]}; operations := ∅; cov_parameters := ∅;
        status_codes := ∅; response_fields := ∅; input_content_types := ∅ |}
   == 1 # 3)%Q.
Proof. vm_compute. reflexivity. Qed.

(** ** Selection of a test *)

Lemma accumulate_length (w : list Q) (acc : Q) :
  length (Random.accumulate acc w) = length w.
Proof.
  revert acc. induction w as [| x w IH]; intros acc; [reflexivity |].
  cbn. rewrite IH. reflexivity.
Qed.

Lemma accumulate_last_pos (w : list Q) (acc : Q) :
  List.Forall (fun x => (0 < x)%Q) w -> w <> [] -> (0 <= acc)%Q ->
  (0 < List.last (Random.accumulate acc w) 0)%Q.
Proof.
  revert acc. induction w as [| x w IH]; intros acc Hall Hne Hacc; [congruence |].
  inversion Hall as [| ? ? Hx Hw]; subst.
  destruct w as [| y w].
  - cbn. lra.
  - change (Random.accumulate acc (x :: y :: w))
      with ((acc + x)%Q :: Random.accumulate (acc + x)%Q (y :: w)).
    assert (Hcons : Random.accumulate (acc + x)%Q (y :: w) <> []) by (cbn; discriminate).
    destruct (Random.accumulate (acc + x)%Q (y :: w)) as [| c cs] eqn:Hacc';
      [congruence |].
    change (List.last ((acc + x)%Q :: c :: cs) 0%Q) with (List.last (c :: cs) 0%Q).
    rewrite <- Hacc'. apply IH; [exact Hw | discriminate | lra].
Qed.

Lemma bisect_le (cum : list Q) (x : Q) (hi : nat) : (Random.bisect cum x hi <= hi)%nat.
Proof.
  revert cum. induction hi as [| hi IH]; intros cum; [destruct cum; cbn; lia |].
  destruct cum as [| c cum]; cbn; [lia |].
  destruct (Qlt_le_dec x c); [lia |]. specialize (IH cum). lia.
Qed.

Lemma entry_score_pos (entry : test_entry) : (0 < entry_score entry)%Q.
Proof.
  unfold entry_score. destruct (Qlt_le_dec _ _) as [H | H]; [reflexivity | lra].
Qed.

Lemma fold_Qplus_pos (l : list Q) (a : Q) :
  List.Forall (fun x => (0 < x)%Q) l -> (0 <= a)%Q -> l <> [] ->
  (0 < fold_left Qplus l a)%Q.
Proof.
  revert a. induction l as [| x l IH]; intros a Hall Ha Hne; [congruence |].
  inversion Hall as [| ? ? Hx Hl]; subst. cbn.
  destruct l as [| y l]; [cbn; lra |].
  apply IH; [exact Hl | lra | discriminate].
Qed.

Lemma choices1_total {A} (d : A) (population : list A) (w : list Q) (g : rng) :
  population <> [] -> length w = length population ->
  List.Forall (fun x => (0 < x)%Q) w ->
  exists x g', Random.choices1 d population w g = Ok (x, g') /\ In x population.
Proof.
  intros Hne Hlen Hpos. unfold Random.choices1.
  rewrite accumulate_length, Hlen, Nat.eqb_refl. cbn [negb].
  assert (Hw : w <> []) by (intros ->; destruct population; [congruence | discriminate]).
  assert (Htot : (0 < List.last (Random.accumulate 0 w) 0)%Q)
    by (apply accumulate_last_pos; [exact Hpos | exact Hw | lra]).
  destruct (Qle_bool _ 0) eqn:Hle.
  { apply Qle_bool_iff in Hle. lra. }
  destruct (Random.random g) as [r g'].
  eexists _, _. split; [reflexivity |].
  apply nth_In.
  pose proof (bisect_le (Random.accumulate 0 w)
                (r * List.last (Random.accumulate 0 w) 0)%Q (length population - 1)).
  destruct population; [congruence | cbn in *; lia].
Qed.

Lemma SELECT_TEST_viable (corpus : list test_entry) (g : rng) :
  List.filter viable corpus <> [] ->
  exists entry g', SELECT_TEST corpus g = Ok (entry, g')
                   /\ In entry (List.filter viable corpus).
Proof.
  intros Hne. unfold SELECT_TEST.
  destruct corpus as [| first corpus]; [cbn in Hne; congruence |].
  destruct (List.filter viable (first :: corpus)) as [| v0 vs] eqn:Hf; [congruence |].
  destruct (Random.random g) as [r g1].
  destruct (Qlt_le_dec r (2 # 10)).
  - destruct (Random.choice v0 (v0 :: vs) g1) as [entry g2] eqn:Hc.
    exists entry, g2. split; [reflexivity |].
    change entry with (fst (entry, g2)). rewrite <- Hc.
    apply choice_In. discriminate.
  - assert (Hscores : List.Forall (fun x => (0 < x)%Q) (map entry_score (v0 :: vs))).
    { apply List.Forall_forall. intros x Hx. apply in_map_iff in Hx as (e & <- & _).
      apply entry_score_pos. }
    assert (Htotal : (0 < Qsum (map entry_score (v0 :: vs)))%Q).
    { apply fold_Qplus_pos; [exact Hscores | lra | discriminate]. }
    destruct (Qeq_bool _ 0) eqn:Hz.
    { apply Qeq_bool_iff in Hz. lra. }
    apply choices1_total.
    + discriminate.
    + rewrite !length_map. reflexivity.
    + apply List.Forall_forall. intros x Hx. apply in_map_iff in Hx as (s & <- & Hs).
      rewrite List.Forall_forall in Hscores. specialize (Hscores s Hs).
      apply Qlt_shift_div_l; [exact Htotal | lra].
Qed.

Lemma filter_viable_nil (corpus : list test_entry) :
  List.filter viable corpus = [] <->
  List.Forall (fun entry => (MAX_SEQUENCE_LENGTH <= length (sequence entry))%nat) corpus.
Proof.
  induction corpus as [| e corpus IH].
  - split; [constructor | reflexivity].
  - cbn [List.filter]. destruct (viable e) eqn:Hv; unfold viable in Hv.
    + apply Nat.ltb_lt in Hv. split; [discriminate |].
      intros Hall. inversion Hall; subst. lia.
    + apply Nat.ltb_ge in Hv. rewrite IH. split.
      * intros Hall. constructor; assumption.
      * intros Hall. inversion Hall; assumption.
Qed.

(** C8: [SELECT_TEST] raises (a [ValueError], the only exception it can
    raise) exactly when the corpus is empty or none of its entries has a
    sequence shorter than [MAX_SEQUENCE_LENGTH] = 8; otherwise it returns
    an entry of the corpus whose sequence is shorter than 8. *)
Theorem SELECT_TEST_fails_exactly_without_viable_test
    (corpus : list test_entry) (g : rng) :
  MAX_SEQUENCE_LENGTH = 8%nat
  /\ (SELECT_TEST corpus g = Raise ValueError <->
      corpus = []
      \/ List.Forall (fun entry => (8 <= length (sequence entry))%nat) corpus)
  /\ (forall e, SELECT_TEST corpus g = Raise e -> e = ValueError)
  /\ ((exists entry g', SELECT_TEST corpus g = Ok (entry, g')) <->
      List.Exists (fun entry => (length (sequence entry) < 8)%nat) corpus)
  /\ (forall entry g', SELECT_TEST corpus g = Ok (entry, g') ->
        In entry corpus /\ (length (sequence entry) < 8)%nat).
Proof.
  split; [reflexivity |].
  destruct (List.filter viable corpus) as [| v0 vs] eqn:Hf.
  - (* no viable test *)
    assert (Hraise : SELECT_TEST corpus g = Raise ValueError).
    { unfold SELECT_TEST. destruct corpus; [reflexivity |]. rewrite Hf. reflexivity. }
    pose proof (proj1 (filter_viable_nil corpus) Hf) as Hall.
    change MAX_SEQUENCE_LENGTH with 8%nat in Hall.
    rewrite Hraise. split; [| split; [| split]].
    + split; [intros _; right; exact Hall | reflexivity].
    + intros e He. inversion He. reflexivity.
    + split; [intros (entry & g' & H); discriminate |].
      intros Hex. exfalso. apply List.Exists_exists in Hex as (entry & Hin & Hlt).
      rewrite List.Forall_forall in Hall. specialize (Hall entry Hin). lia.
    + intros entry g' H. discriminate.
  - (* some viable test *)
    destruct (SELECT_TEST_viable corpus g) as (entry & g' & Hok & Hin);
      [rewrite Hf; discriminate |].
    assert (Hentry : In entry corpus /\ (length (sequence entry) < 8)%nat).
    { apply List.filter_In in Hin as [Hin Hv]. split; [exact Hin |].
      unfold viable in Hv. apply Nat.ltb_lt in Hv. exact Hv. }
    rewrite Hok. split; [| split; [| split]].
    + split; [discriminate |].
      intros [-> | Hall]; [cbn in Hf; discriminate |].
      exfalso. rewrite List.Forall_forall in Hall.
      specialize (Hall entry (proj1 Hentry)). lia.
    + intros e He. discriminate.
    + split; [intros _ | intros _; eauto].
      apply List.Exists_exists. exists entry. exact Hentry.
    + intros entry' g'' H. inversion H; subst. exact Hentry.
Qed.

(** ** Harvest of identifiers *)

(** Induction on a value and on the values it holds. *)
Lemma value_nested_ind (P : value -> Prop) :
  P VNone -> (forall b, P (VBool b)) -> (forall z, P (VInt z)) ->
  (forall f, P (VFloat f)) -> (forall s, P (VStr s)) ->
  (forall l, List.Forall P l -> P (VList l)) ->
  (forall d, List.Forall (fun kv => P (snd kv)) d -> P (VDict d)) ->
  forall v, P v.
Proof.
  intros HN HB HI HF HS HL HD.
  fix IH 1. intros [| b | z | f | s | l | d].
  - exact HN.
  - apply HB.
  - apply HI.
  - apply HF.
  - apply HS.
  - apply HL. induction l as [| x l IHl]; constructor; [apply IH | exact IHl].
  - apply HD. induction d as [| [k x] d IHd]; constructor; [apply IH | exact IHd].
Qed.

Lemma add_events_app (e1 e2 : list (string * string)) (found : list (string * list string)) :
  add_events (e1 ++ e2) found = add_events e2 (add_events e1 found).
Proof. unfold add_events. apply fold_left_app. Qed.

Lemma extract_scalar_events (py : python) (tokens : list string) (k : string) (v : value)
    (found : list (string * list string)) :
  extract_scalar py tokens k v found = add_events (scalar_events py tokens k v) found.
Proof.
  unfold extract_scalar, scalar_events.
  destruct (is_valid_id _); [| reflexivity].
  destruct (matching_token _ _); reflexivity.
Qed.

(** The walk inserts exactly its events, in their order. *)
Lemma recursive_extract_events (py : python) (tokens : list string) (obj : value) :
  forall found,
    recursive_extract py tokens obj found = add_events (walk_events py tokens obj) found.
Proof.
  induction obj as [| b | z | f | s | l IHl | d IHd] using value_nested_ind;
    intros found; try reflexivity.
  - cbn [recursive_extract walk_events]. revert found.
    induction IHl as [| x l Hx _ IH]; intros found; [reflexivity |].
    rewrite add_events_app, <- Hx. apply IH.
  - cbn [recursive_extract walk_events]. revert found.
    induction IHd as [| [k x] d Hx _ IH]; intros found; [reflexivity |].
    rewrite add_events_app. cbn [snd] in Hx.
    rewrite IH. f_equal.
    destruct x; try reflexivity; try apply extract_scalar_events; apply Hx.
Qed.

Lemma set_add_In (x y : string) (s : list string) :
  In x (Py.set_add y s) <-> x = y \/ In x s.
Proof.
  unfold Py.set_add. destruct (existsb (String.eqb y) s) eqn:He.
  - apply existsb_exists in He as (z & Hz & Heq). apply String.eqb_eq in Heq. subst z.
    split; [tauto |]. intros [-> | H]; assumption.
  - rewrite in_app_iff. cbn. intuition congruence.
Qed.

Lemma set_add_NoDup (y : string) (s : list string) :
  List.NoDup s -> List.NoDup (Py.set_add y s).
Proof.
  intros Hs. unfold Py.set_add. destruct (existsb (String.eqb y) s) eqn:He; [exact Hs |].
  apply NoDup_ListNoDup. apply NoDup_app. split; [apply NoDup_ListNoDup; exact Hs |].
  split; [| apply NoDup_singleton].
  intros x Hx Hx'. apply list_elem_of_In in Hx. apply list_elem_of_In in Hx'.
  destruct Hx' as [<- | []].
  assert (existsb (String.eqb y) s = true); [| congruence].
  apply existsb_exists. exists y. split; [exact Hx | apply String.eqb_refl].
Qed.

Lemma fold_set_add_NoDup (l s : list string) :
  List.NoDup s -> List.NoDup (fold_left (fun s x => Py.set_add x s) l s).
Proof.
  revert s. induction l as [| x l IH]; intros s Hs; [exact Hs |].
  cbn. apply IH. apply set_add_NoDup. exact Hs.
Qed.

Lemma fold_set_add_In (l s : list string) (x : string) :
  In x (fold_left (fun s x => Py.set_add x s) l s) <-> In x l \/ In x s.
Proof.
  revert s. induction l as [| y l IH]; intros s; cbn; [tauto |].
  rewrite IH, set_add_In. intuition congruence.
Qed.

Lemma assoc_found_add (t t' v : string) (found : list (string * list string)) :
  assoc t (found_add t' v found)
  = if String.eqb t t' then Some (Py.set_add v (bucket t found)) else assoc t found.
Proof.
  unfold bucket. induction found as [| [k vs] found IH].
  - cbn. destruct (String.eqb t t'); reflexivity.
  - cbn [found_add]. destruct (String.eqb t' k) eqn:Hk.
    + apply String.eqb_eq in Hk. subst k. cbn [assoc].
      destruct (String.eqb t t'); reflexivity.
    + cbn [assoc]. destruct (String.eqb t k) eqn:Htk.
      * apply String.eqb_eq in Htk. subst k.
        destruct (String.eqb t t') eqn:Htt; [| reflexivity].
        apply String.eqb_eq in Htt. subst t'. rewrite String.eqb_refl in Hk. discriminate.
      * exact IH.
Qed.

Lemma bucket_add_events (t : string) (events : list (string * string))
    (found : list (string * list string)) :
  bucket t (add_events events found)
  = fold_left (fun s x => Py.set_add x s)
              (map snd (List.filter (fun e => String.eqb (fst e) t) events))
              (bucket t found).
Proof.
  revert found. induction events as [| [t' v] events IH]; intros found; [reflexivity |].
  cbn [add_events fold_left List.filter fst snd].
  change (fold_left _ events ?f) with (add_events events f).
  rewrite IH. unfold bucket at 1. rewrite assoc_found_add.
  rewrite (String.eqb_sym t' t). destruct (String.eqb t t'); reflexivity.
Qed.

Lemma found_add_keys (t v : string) (found : list (string * list string)) :
  map fst (found_add t v found)
  = if existsb (String.eqb t) (map fst found) then map fst found else map fst found ++ [t].
Proof.
  induction found as [| [k vs] found IH]; [reflexivity |].
  cbn [found_add map fst existsb]. destruct (String.eqb t k); [reflexivity |].
  cbn [map fst orb]. rewrite IH. destruct (existsb _ _); reflexivity.
Qed.

Lemma add_events_keys_NoDup (events : list (string * string))
    (found : list (string * list string)) :
  List.NoDup (map fst found) -> List.NoDup (map fst (add_events events found)).
Proof.
  revert found. induction events as [| [t v] events IH]; intros found Hf; [exact Hf |].
  cbn [add_events fold_left fst snd].
  change (fold_left _ events ?f) with (add_events events f).
  apply IH. rewrite found_add_keys. apply (set_add_NoDup t). exact Hf.
Qed.

Lemma assoc_In_NoDup {A} (t : string) (x : A) (l : list (string * A)) :
  List.NoDup (map fst l) -> In (t, x) l -> assoc t l = Some x.
Proof.
  induction l as [| [k y] l IH]; intros Hnd Hin; [destruct Hin |].
  inversion Hnd as [| ? ? Hk Hl]; subst. cbn.
  destruct Hin as [Heq | Hin].
  - inversion Heq; subst. rewrite String.eqb_refl. reflexivity.
  - destruct (String.eqb t k) eqn:Htk; [| apply IH; assumption].
    apply String.eqb_eq in Htk. subst k. exfalso. apply Hk.
    apply in_map_iff. exists (t, x). split; [reflexivity | exact Hin].
Qed.

(** A bucket of the result is the iteration of the set of the values
    first encountered for its token. *)
Lemma EXTRACT_IDS_bucket (py : python) (json_body : string) (param_names : list string)
    (t : string) (vs : list string) :
  In (t, vs) (EXTRACT_IDS py json_body param_names) ->
  exists parsed,
    json_loads py json_body = Some parsed
    /\ vs = set_iter py (first_encounters t
                           (walk_events py (match_tokens_of py param_names) parsed)).
Proof.
  unfold EXTRACT_IDS. destruct (json_loads py json_body) as [parsed |]; [| intros []].
  intros Hin. exists parsed. split; [reflexivity |].
  apply in_map_iff in Hin as ([k h] & Heq & Hin). inversion Heq; subst. f_equal.
  rewrite recursive_extract_events in Hin.
  apply assoc_In_NoDup in Hin; [| apply add_events_keys_NoDup; constructor].
  pose proof (bucket_add_events t
                (walk_events py (match_tokens_of py param_names) parsed) []) as Hb.
  unfold bucket at 1 in Hb. rewrite Hin in Hb. exact Hb.
Qed.

Lemma first_encounters_NoDup (t : string) (events : list (string * string)) :
  List.NoDup (first_encounters t events).
Proof. apply fold_set_add_NoDup. constructor. Qed.

Lemma first_encounters_In (t v : string) (events : list (string * string)) :
  In v (first_encounters t events) <-> In (t, v) events.
Proof.
  unfold first_encounters, Py.set_of_list. rewrite fold_set_add_In.
  rewrite in_map_iff. split.
  - intros [([t' v'] & Hv & Hin) | []]. cbn in Hv. subst v'.
    apply List.filter_In in Hin as [Hin Ht]. cbn in Ht. apply String.eqb_eq in Ht.
    subst t'. exact Hin.
  - intros Hin. left. exists (t, v). split; [reflexivity |].
    apply List.filter_In. split; [exact Hin | apply String.eqb_refl].
Qed.

(** C4 (first part and amended second part): malformed JSON gives the
    empty mapping; otherwise a bucket has no duplicates and holds exactly
    the values encountered for its token during the walk, in the order in
    which the runtime iterates that set. *)
Theorem EXTRACT_IDS_buckets_are_sets
    (py : python) (json_body : string) (param_names : list string) :
  set_iter_ok py ->
  (json_loads py json_body = None -> EXTRACT_IDS py json_body param_names = [])
  /\ (forall t vs,
        In (t, vs) (EXTRACT_IDS py json_body param_names) ->
        exists parsed,
          json_loads py json_body = Some parsed
          /\ NoDup vs
          /\ Permutation vs
               (first_encounters t
                  (walk_events py (match_tokens_of py param_names) parsed))
          /\ forall v, In v vs <->
                       In (t, v) (walk_events py (match_tokens_of py param_names) parsed)).
Proof.
  intros Hok. split.
  - intros Hnone. unfold EXTRACT_IDS. rewrite Hnone. reflexivity.
  - intros t vs Hin. apply EXTRACT_IDS_bucket in Hin as (parsed & Hparsed & ->).
    exists parsed. split; [exact Hparsed |].
    assert (Hnd : NoDup (first_encounters t
                           (walk_events py (match_tokens_of py param_names) parsed)))
      by (apply NoDup_ListNoDup, first_encounters_NoDup).
    pose proof (Hok _ Hnd) as Hperm.
    split; [| split; [exact Hperm |]].
    + rewrite Hperm. exact Hnd.
    + intros v. rewrite <- first_encounters_In. split; intros Hv.
      * apply (Permutation_in _ Hperm Hv).
      * apply (Permutation_in _ (Permutation_sym Hperm) Hv).
Qed.

Lemma reversing_python_ok : set_iter_ok reversing_python.
Proof. intros l _. apply Permutation_sym. apply Permutation_rev. Qed.

Lemma EXTRACT_IDS_two_ids_set :
  exists parsed,
    json_loads reversing_python two_ids_text = Some parsed
    /\ NoDup ["2"; "1"]
    /\ Permutation ["2"; "1"]
         (first_encounters "id" (walk_events reversing_python
                                   (match_tokens_of reversing_python []) parsed))
    /\ forall v, In v ["2"; "1"] <->
                 In ("id", v) (walk_events reversing_python
                                 (match_tokens_of reversing_python []) parsed).
Proof.
  apply (proj2 (EXTRACT_IDS_buckets_are_sets reversing_python two_ids_text []
                  reversing_python_ok) "id" ["2"; "1"]).
  vm_compute. left. reflexivity.
Defined.

(** C4, as stated, fails: on a runtime that iterates a set from its
    latest insertion back, the two identifiers of [two_ids_document] come
    out in the order 2, 1, and they were encountered in the order 1, 2. *)
Lemma EXTRACT_IDS_order_is_not_encounter_order :
  set_iter_ok reversing_python
  /\ json_loads reversing_python two_ids_text = Some two_ids_document
  /\ EXTRACT_IDS reversing_python two_ids_text [] = [("id", ["2"; "1"])]
  /\ first_encounters "id"
       (walk_events reversing_python (match_tokens_of reversing_python [])
          two_ids_document) = ["1"; "2"].
Proof.
  split; [exact reversing_python_ok |]. vm_compute. repeat split.
Qed.

(** ** Validity of the harvested values *)

Lemma scalar_events_valid (py : python) (tokens : list string) (k : string) (v : value)
    (t val : string) :
  In (t, val) (scalar_events py tokens k v) -> is_valid_id val = true.
Proof.
  unfold scalar_events. destruct (is_valid_id (Py.str py v)) eqn:Hv; [| intros []].
  destruct (matching_token _ _); [| intros []].
  intros [Heq | []]. inversion Heq; subst. exact Hv.
Qed.

Lemma walk_events_valid (py : python) (tokens : list string) (obj : value) (t val : string) :
  In (t, val) (walk_events py tokens obj) -> is_valid_id val = true.
Proof.
  induction obj as [| b | z | f | s | l IHl | d IHd] using value_nested_ind;
    try (intros []).
  - cbn [walk_events]. induction IHl as [| x l Hx _ IH]; [intros [] |].
    rewrite in_app_iff. intros [H | H]; [apply Hx; exact H | apply IH; exact H].
  - cbn [walk_events]. induction IHd as [| [k x] d Hx _ IH]; [intros [] |].
    rewrite in_app_iff. intros [H | H]; [| apply IH; exact H].
    cbn [snd] in Hx.
    destruct x; try (destruct H); try (apply Hx; exact H);
      apply (scalar_events_valid _ _ _ _ _ _ H).
Qed.

Lemma id_char_not_space (c : ascii) : id_char c = true -> PyStr.char_isspace c = false.
Proof.
  destruct c as [[] [] [] [] [] [] [] []]; vm_compute; intros H;
    first [reflexivity | discriminate H].
Qed.

(** What [is_valid_id] ensures. *)
Lemma is_valid_id_sound (val : string) :
  is_valid_id val = true ->
  (PyStr.len val <= 30)%nat
  /\ forallb (fun c => negb (PyStr.char_isspace c)) (PyStr.chars val) = true
  /\ forallb id_char (PyStr.chars val) = true.
Proof.
  unfold is_valid_id. destruct (Nat.ltb_spec 30 (PyStr.len val)); [discriminate |].
  destruct (PyStr.contains " " val); [discriminate |].
  destruct (forallb _ (PyStr.chars val)) eqn:Hall; [| discriminate].
  intros _. split; [lia |]. fold id_char in Hall. split; [| reflexivity].
  rewrite forallb_forall in *. intros c Hc. rewrite id_char_not_space; [reflexivity |].
  apply Hall. exact Hc.
Qed.

Lemma EXTRACT_IDS_valid (py : python) (json_body : string) (param_names : list string)
    (t : string) (vs : list string) (v : string) :
  set_iter_ok py ->
  In (t, vs) (EXTRACT_IDS py json_body param_names) -> In v vs ->
  is_valid_id v = true.
Proof.
  intros Hok Hin Hv.
  apply EXTRACT_IDS_bucket in Hin as (parsed & _ & ->).
  assert (Hnd : NoDup (first_encounters t
                         (walk_events py (match_tokens_of py param_names) parsed)))
    by (apply NoDup_ListNoDup, first_encounters_NoDup).
  apply (Permutation_in _ (Hok _ Hnd)) in Hv.
  apply first_encounters_In in Hv. apply (walk_events_valid _ _ _ _ _ Hv).
Qed.

Lemma table_setdefault_In (k : string) (table : list (string * list string))
    (k' : string) (vs : list string) :
  In (k', vs) (table_setdefault k table) -> In (k', vs) table \/ vs = [].
Proof.
  induction table as [| [k0 vs0] table IH]; cbn.
  - intros [H | []]. inversion H. right. reflexivity.
  - destruct (String.eqb k k0); [intros H; left; exact H |].
    intros [H | H]; [left; left; exact H |].
    destruct (IH H) as [H' | H']; [left; right; exact H' | right; exact H'].
Qed.

Lemma table_append_In (k val : string) (table : list (string * list string))
    (k' : string) (vs : list string) (v : string) :
  In (k', vs) (table_append k val table) -> In v vs ->
  v = val \/ exists vs0, In (k', vs0) table /\ In v vs0.
Proof.
  induction table as [| [k0 vs0] table IH]; cbn.
  - intros [H | []] Hv. inversion H; subst. destruct Hv as [<- | []]. left. reflexivity.
  - destruct (String.eqb k k0).
    + intros [H | H] Hv.
      * inversion H; subst. destruct (existsb _ vs0).
        -- right. exists vs0. split; [left; reflexivity | exact Hv].
        -- apply in_app_iff in Hv as [Hv | [<- | []]].
           ++ right. exists vs0. split; [left; reflexivity | exact Hv].
           ++ left. reflexivity.
      * right. exists vs. split; [right; exact H | exact Hv].
    + intros [H | H] Hv.
      * inversion H; subst. right. exists vs. split; [left; reflexivity | exact Hv].
      * destruct (IH H Hv) as [-> | (vs1 & H1 & H2)]; [left; reflexivity |].
        right. exists vs1. split; [right; exact H1 | exact H2].
Qed.

(** The update of the table by the main loop stores nothing but values of
    the table and of the new mapping. *)
Lemma update_id_table_values (P : string -> Prop)
    (new_ids table : list (string * list string)) :
  (forall k vs v, In (k, vs) table -> In v vs -> P v) ->
  (forall k vs v, In (k, vs) new_ids -> In v vs -> P v) ->
  forall k vs v, In (k, vs) (update_id_table table new_ids) -> In v vs -> P v.
Proof.
  unfold update_id_table. revert table.
  induction new_ids as [| [k0 vals] new_ids IH]; intros table Ht Hn; [exact Ht |].
  cbn [fold_left]. apply IH.
  - assert (Hvals : forall v, In v vals -> P v).
    { intros v Hv. apply (Hn k0 vals v); [left; reflexivity | exact Hv]. }
    assert (Hsd : forall k vs v, In (k, vs) (table_setdefault k0 table) -> In v vs -> P v).
    { intros k vs v Hin Hv. apply table_setdefault_In in Hin as [Hin | ->];
        [apply (Ht k vs v Hin Hv) | destruct Hv]. }
    clear Hn Ht IH. revert Hvals Hsd. generalize (table_setdefault k0 table).
    induction vals as [| val vals IHv]; intros tbl Hvals Hsd; [exact Hsd |].
    cbn [fold_left]. apply IHv.
    + intros v Hv. apply Hvals. right. exact Hv.
    + intros k vs v Hin Hv.
      destruct (table_append_In _ _ _ _ _ _ Hin Hv) as [-> | (vs0 & H0 & H1)].
      * apply Hvals. left. reflexivity.
      * apply (Hsd k vs0 v H0 H1).
  - intros k vs v Hin Hv. apply (Hn k vs v); [right; exact Hin | exact Hv].
Qed.

(** C5 (amended): every value in a bucket returned by [EXTRACT_IDS], and
    so every value the main loop adds to the table, has at most 30
    characters, no whitespace, and only characters that [str.isalnum]
    accepts (letters and digits, beyond ASCII as well), hyphens and
    underscores. *)
Theorem harvested_values_are_valid
    (py : python) (json_body : string) (param_names : list string) :
  set_iter_ok py ->
  (forall t vs v,
      In (t, vs) (EXTRACT_IDS py json_body param_names) -> In v vs ->
      (PyStr.len v <= 30)%nat
      /\ forallb (fun c => negb (PyStr.char_isspace c)) (PyStr.chars v) = true
      /\ forallb id_char (PyStr.chars v) = true)
  /\ (forall table,
        (forall k vs v, In (k, vs) table -> In v vs -> is_valid_id v = true) ->
        forall k vs v,
          In (k, vs) (update_id_table table (EXTRACT_IDS py json_body param_names)) ->
          In v vs -> is_valid_id v = true).
Proof.
  intros Hok. split.
  - intros t vs v Hin Hv. apply is_valid_id_sound.
    apply (EXTRACT_IDS_valid py json_body param_names t vs v Hok Hin Hv).
  - intros table Ht. apply update_id_table_values; [exact Ht |].
    intros k vs v Hin Hv.
    apply (EXTRACT_IDS_valid py json_body param_names k vs v Hok Hin Hv).
Qed.

Lemma cafe_python_ok : set_iter_ok cafe_python.
Proof. intros l _. apply Permutation_refl. Qed.

Lemma harvested_cafe_is_valid :
  (PyStr.len cafe <= 30)%nat
  /\ forallb (fun c => negb (PyStr.char_isspace c)) (PyStr.chars cafe) = true
  /\ forallb id_char (PyStr.chars cafe) = true.
Proof.
  apply (proj1 (harvested_values_are_valid cafe_python (json_member "id" cafe) []
                  cafe_python_ok) "id" [cafe] cafe).
  - vm_compute. left. reflexivity.
  - left. reflexivity.
Defined.

(** C5, as stated, fails: the identifier [cafe], whose last character is
    no ASCII letter, is harvested. *)
Lemma harvested_value_outside_ascii :
  set_iter_ok cafe_python
  /\ json_loads cafe_python (json_member "id" cafe) = Some cafe_document
  /\ EXTRACT_IDS cafe_python (json_member "id" cafe) [] = [("id", [cafe])]
  /\ forallb ascii_id_char (PyStr.chars cafe) = false.
Proof.
  split; [exact cafe_python_ok |]. vm_compute. repeat split.
Qed.

(** ** Resolution of dependencies: strings *)

Lemma app_cons (c : ascii) (a b : string) :
  (String c a ++ b = String c (a ++ b))%string.
Proof. reflexivity. Qed.

Lemma app_empty (s : string) : ("" ++ s = s)%string.
Proof. reflexivity. Qed.

Ltac norm_app := repeat (rewrite app_cons || rewrite app_empty).

Lemma append_assoc (a b c : string) : ((a ++ b) ++ c = a ++ (b ++ c))%string.
Proof. induction a as [| x a IH]; norm_app; [reflexivity | rewrite IH; reflexivity]. Qed.

Lemma append_length (a b : string) :
  String.length (a ++ b)%string = (String.length a + String.length b)%nat.
Proof.
  induction a as [| x a IH]; norm_app; cbn; [reflexivity | rewrite IH; reflexivity].
Qed.

Lemma chars_app (a b : string) :
  PyStr.chars (a ++ b)%string = PyStr.chars a ++ PyStr.chars b.
Proof.
  unfold PyStr.chars. induction a as [| x a IH]; norm_app; cbn; [reflexivity |].
  rewrite IH. reflexivity.
Qed.

Lemma brace_free_app (a b : string) :
  brace_free (a ++ b)%string = brace_free a && brace_free b.
Proof. unfold brace_free. rewrite chars_app. apply forallb_app. Qed.

Lemma prefix_cons (a b : ascii) (s1 s2 : string) :
  String.prefix (String a s1) (String b s2)
  = if ascii_dec a b then String.prefix s1 s2 else false.
Proof. reflexivity. Qed.

Lemma prefix_refl_app (a s : string) : String.prefix a (a ++ s)%string = true.
Proof.
  induction a as [| x a IH]; norm_app; [destruct s; reflexivity |].
  rewrite prefix_cons. destruct (ascii_dec x x); [exact IH | congruence].
Qed.

Lemma clean_name_cons (c : ascii) (n : string) :
  clean_name (String c n) = true ->
  c <> "{"%char /\ c <> "}"%char /\ c <> "010"%char /\ clean_name n = true.
Proof.
  unfold clean_name. cbn. intros H. apply andb_true_iff in H as [Hc Hn].
  apply andb_true_iff in Hc as [Hc Hnl]. apply andb_true_iff in Hc as [Ho Hcl].
  repeat split; try exact Hn; intros ->; discriminate.
Qed.

(** Between two names without closing brace, one followed by a closing
    brace is a prefix of the other so followed only if they are equal. *)
Lemma prefix_closed_name (ph n rest : string) :
  clean_name ph = true -> clean_name n = true ->
  String.prefix (ph ++ "}")%string (n ++ "}" ++ rest)%string = true -> ph = n.
Proof.
  revert n. induction ph as [| x ph IH]; intros n Hph Hn.
  - destruct n as [| y n]; [reflexivity |].
    apply clean_name_cons in Hn as (_ & Hy & _ & _).
    norm_app. rewrite prefix_cons.
    destruct (ascii_dec "}" y) as [<- | Hne]; [congruence | discriminate].
  - apply clean_name_cons in Hph as (_ & Hx & _ & Hph).
    destruct n as [| y n]; norm_app; rewrite prefix_cons.
    + destruct (ascii_dec x "}") as [-> | Hne]; [congruence | discriminate].
    + apply clean_name_cons in Hn as (_ & _ & _ & Hn).
      destruct (ascii_dec x y) as [<- | Hne]; [| discriminate].
      intros Hp. f_equal. apply (IH n Hph Hn Hp).
Qed.

Lemma braces_cons (n : string) : braces n = String "{" (n ++ "}")%string.
Proof. reflexivity. Qed.

Lemma replace_go_unfold (old new : string) (c : ascii) (s : string) :
  PyStr.replace_go old new 0 (String c s)
  = if String.prefix old (String c s)
    then (new ++ PyStr.replace_go old new (String.length old - 1) s)%string
    else String c (PyStr.replace_go old new 0 s).
Proof. reflexivity. Qed.

Section Replace.

Variables (ph val : string).
Hypothesis ph_clean : clean_name ph = true.

Lemma replace_go_skip (x s : string) :
  PyStr.replace_go (braces ph) val (String.length x) (x ++ s)%string
  = PyStr.replace_go (braces ph) val 0 s.
Proof.
  induction x as [| c x IH]; norm_app; cbn; [destruct s; reflexivity | exact IH].
Qed.

Lemma replace_go_char (c : ascii) (s : string) :
  c <> "{"%char ->
  PyStr.replace_go (braces ph) val 0 (String c s)
  = String c (PyStr.replace_go (braces ph) val 0 s).
Proof.
  intros Hc. rewrite replace_go_unfold. rewrite braces_cons at 1. rewrite prefix_cons.
  destruct (ascii_dec "{" c) as [E | _]; [congruence | reflexivity].
Qed.

Lemma replace_go_pass (x s : string) :
  forallb (fun c => negb (Ascii.eqb c "{")) (PyStr.chars x) = true ->
  PyStr.replace_go (braces ph) val 0 (x ++ s)%string
  = (x ++ PyStr.replace_go (braces ph) val 0 s)%string.
Proof.
  induction x as [| c x IH]; intros Hx; norm_app; [reflexivity |].
  cbn in Hx. apply andb_true_iff in Hx as [Hc Hx].
  rewrite replace_go_char.
  - rewrite IH by exact Hx. reflexivity.
  - intros ->. discriminate Hc.
Qed.

Lemma clean_name_no_open (n : string) :
  clean_name n = true ->
  forallb (fun c => negb (Ascii.eqb c "{")) (PyStr.chars n) = true.
Proof.
  unfold clean_name. rewrite !forallb_forall. intros H c Hc.
  specialize (H c Hc). apply andb_true_iff in H as [H _].
  apply andb_true_iff in H as [H _]. exact H.
Qed.

(** [replace] on a placeholder: the one named [ph] becomes [val], any
    other stays. *)
Lemma replace_go_placeholder (n s : string) :
  clean_name n = true ->
  PyStr.replace_go (braces ph) val 0 (braces n ++ s)%string
  = ((if String.eqb n ph then val else braces n)
     ++ PyStr.replace_go (braces ph) val 0 s)%string.
Proof.
  intros Hn. destruct (String.eqb_spec n ph) as [-> | Hne].
  - rewrite (braces_cons ph) at 2. norm_app. rewrite replace_go_unfold.
    rewrite <- app_cons, <- braces_cons. rewrite prefix_refl_app. f_equal.
    replace (String.length (braces ph) - 1)%nat with (String.length (ph ++ "}")%string)
      by (rewrite braces_cons; cbn; lia).
    apply replace_go_skip.
  - rewrite (braces_cons n) at 1. norm_app. rewrite replace_go_unfold.
    replace (String.prefix (braces ph) (String "{" ((n ++ "}") ++ s)%string))
      with false.
    + rewrite (braces_cons n). norm_app. f_equal. rewrite !append_assoc.
      rewrite replace_go_pass by (apply clean_name_no_open; exact Hn).
      f_equal.
    + symmetry. rewrite braces_cons, prefix_cons.
      destruct (ascii_dec "{" "{"); [| congruence].
      rewrite append_assoc.
      destruct (String.prefix (ph ++ "}") (n ++ "}" ++ s)) eqn:Hp; [| reflexivity].
      exfalso. apply Hne. symmetry. apply (prefix_closed_name ph n s ph_clean Hn Hp).
Qed.

End Replace.

(** ** Path templates *)

Lemma clean_name_unfold (c : ascii) (n : string) :
  clean_name (String c n)
  = negb (Ascii.eqb c "{") && negb (Ascii.eqb c "}") && negb (Ascii.eqb c "010")
    && clean_name n.
Proof. reflexivity. Qed.

Lemma template_inside (s : string) :
  template_go true s = true ->
  exists n rest,
    s = (n ++ "}" ++ rest)%string /\ clean_name n = true
    /\ template_go false rest = true
    /\ (String.length rest < String.length s)%nat.
Proof.
  induction s as [| c s IH]; [discriminate |].
  cbn [template_go]. destruct (Ascii.eqb c "}") eqn:Hclose.
  - apply Ascii.eqb_eq in Hclose. subst c. intros H.
    exists ""%string, s. split; [reflexivity |]. split; [reflexivity |].
    split; [exact H | cbn; lia].
  - destruct (Ascii.eqb c "{" || Ascii.eqb c "010") eqn:Hbad; [discriminate |].
    intros H. destruct (IH H) as (n & rest & -> & Hn & Hrest & Hlen).
    exists (String c n), rest. split; [reflexivity |].
    split; [| split; [exact Hrest | cbn; lia]].
    rewrite clean_name_unfold, Hn, Hclose.
    apply orb_false_iff in Hbad as [-> ->]. reflexivity.
Qed.

(** Induction on a path template: nothing, a character that is no brace
    before a template, or a placeholder before a template. *)
Lemma template_ind (P : string -> Prop) :
  P ""%string ->
  (forall c s, c <> "{"%char -> c <> "}"%char ->
               template_go false s = true -> P s -> P (String c s)) ->
  (forall n s, clean_name n = true ->
               template_go false s = true -> P s -> P (braces n ++ s)%string) ->
  forall s, template_go false s = true -> P s.
Proof.
  intros Hnil Hchar Hph s.
  remember (String.length s) as k eqn:Hk.
  revert s Hk. induction k as [k IH] using lt_wf_ind. intros s Hk Hs.
  destruct s as [| c s]; [exact Hnil |].
  cbn [template_go] in Hs. destruct (Ascii.eqb c "{") eqn:Hopen.
  - apply Ascii.eqb_eq in Hopen. subst c.
    destruct (template_inside s Hs) as (n & rest & -> & Hn & Hrest & Hlen).
    replace (String "{" (n ++ "}" ++ rest)%string) with (braces n ++ rest)%string
      by (rewrite braces_cons; norm_app; rewrite append_assoc; reflexivity).
    apply Hph; [exact Hn | exact Hrest |].
    apply (IH (String.length rest)); [subst k; cbn; lia | reflexivity | exact Hrest].
  - destruct (Ascii.eqb c "}") eqn:Hclose; [discriminate |].
    apply Hchar.
    + intros ->. discriminate Hopen.
    + intros ->. discriminate Hclose.
    + exact Hs.
    + apply (IH (String.length s)); [subst k; cbn; lia | reflexivity | exact Hs].
Qed.

Lemma template_char (c : ascii) (s : string) :
  c <> "{"%char -> c <> "}"%char ->
  template_go false (String c s) = template_go false s
  /\ findall_go None (String c s) = findall_go None s.
Proof.
  intros H1 H2. cbn [template_go findall_go].
  destruct (Ascii.eqb_spec c "{"); [congruence |].
  destruct (Ascii.eqb_spec c "}"); [congruence |]. split; reflexivity.
Qed.

Lemma template_free_prefix (x s : string) :
  brace_free x = true ->
  template_go false (x ++ s)%string = template_go false s
  /\ findall_go None (x ++ s)%string = findall_go None s.
Proof.
  unfold brace_free. induction x as [| c x IH]; intros Hx; norm_app;
    [split; reflexivity |].
  cbn in Hx. apply andb_true_iff in Hx as [Hc Hx].
  apply andb_true_iff in Hc as [Ho Hcl].
  destruct (template_char c (x ++ s)%string) as [-> ->].
  - intros ->. discriminate Ho.
  - intros ->. discriminate Hcl.
  - apply IH. exact Hx.
Qed.

Lemma template_inside_name (n s : string) (acc : list ascii) :
  clean_name n = true ->
  template_go true (n ++ "}" ++ s)%string = template_go false s
  /\ findall_go (Some acc) (n ++ "}" ++ s)%string
     = PyStr.of_chars (List.rev acc ++ PyStr.chars n) :: findall_go None s.
Proof.
  revert acc. induction n as [| c n IH]; intros acc Hn.
  - cbn. rewrite app_nil_r. split; reflexivity.
  - rewrite app_cons. rewrite clean_name_unfold in Hn. apply andb_true_iff in Hn as [Hc Hn].
    apply andb_true_iff in Hc as [Hc Hnl]. apply andb_true_iff in Hc as [Ho Hcl].
    apply negb_true_iff in Ho, Hcl, Hnl.
    cbn [template_go findall_go]. rewrite Ho, Hcl, Hnl. cbn [orb].
    destruct (IH (c :: acc) Hn) as [-> ->]. split; [reflexivity |].
    cbn [List.rev PyStr.chars list_ascii_of_string]. rewrite <- app_assoc. reflexivity.
Qed.

Lemma template_placeholder (n s : string) :
  clean_name n = true ->
  template_go false (braces n ++ s)%string = template_go false s
  /\ findall_go None (braces n ++ s)%string = n :: findall_go None s.
Proof.
  intros Hn. rewrite braces_cons. norm_app. rewrite append_assoc.
  cbn [template_go findall_go]. change (Ascii.eqb "{" "{") with true. cbn iota.
  destruct (template_inside_name n s [] Hn) as [-> ->]. split; [reflexivity |].
  cbn [List.rev app]. unfold PyStr.of_chars, PyStr.chars.
  rewrite string_of_list_ascii_of_string. reflexivity.
Qed.

(** Replacing a placeholder in a template by text without braces gives a
    template again, with the other placeholders left. *)
Lemma replace_template (ph val : string) :
  clean_name ph = true -> brace_free val = true ->
  forall url,
    template_go false url = true ->
    template_go false (PyStr.replace (braces ph) val url) = true
    /\ findall_go None (PyStr.replace (braces ph) val url)
       = List.filter (fun n => negb (String.eqb n ph)) (findall_go None url).
Proof.
  intros Hph Hval.
  change (forall url, template_go false url = true ->
            template_go false (PyStr.replace_go (braces ph) val 0 url) = true
            /\ findall_go None (PyStr.replace_go (braces ph) val 0 url)
               = List.filter (fun n => negb (String.eqb n ph)) (findall_go None url)).
  apply template_ind.
  - split; reflexivity.
  - intros c s Hc1 Hc2 Hs IH. rewrite replace_go_char by exact Hc1.
    destruct (template_char c (PyStr.replace_go (braces ph) val 0 s) Hc1 Hc2) as [-> ->].
    destruct (template_char c s Hc1 Hc2) as [_ ->]. exact IH.
  - intros n s Hn Hs [IH1 IH2]. rewrite (replace_go_placeholder ph val Hph n s Hn).
    destruct (template_placeholder n s Hn) as [_ ->]. cbn [List.filter].
    destruct (String.eqb n ph); cbn [negb].
    + destruct (template_free_prefix val (PyStr.replace_go (braces ph) val 0 s) Hval)
        as [-> ->]. split; assumption.
    + destruct (template_placeholder n (PyStr.replace_go (braces ph) val 0 s) Hn)
        as [-> ->]. split; [exact IH1 | rewrite IH2; reflexivity].
Qed.

Lemma template_placeholders_clean :
  forall url,
    template_go false url = true ->
    List.Forall (fun n => clean_name n = true) (findall_go None url).
Proof.
  apply template_ind.
  - constructor.
  - intros c s Hc1 Hc2 Hs IH. destruct (template_char c s Hc1 Hc2) as [_ ->]. exact IH.
  - intros n s Hn Hs IH. destruct (template_placeholder n s Hn) as [_ ->].
    constructor; [exact Hn | exact IH].
Qed.

Lemma brace_free_cons (c : ascii) (s : string) :
  brace_free (String c s)
  = negb (Ascii.eqb c "{") && negb (Ascii.eqb c "}") && brace_free s.
Proof. reflexivity. Qed.

Lemma template_without_placeholder :
  forall url,
    template_go false url = true -> findall_go None url = [] -> brace_free url = true.
Proof.
  apply (template_ind (fun url => findall_go None url = [] -> brace_free url = true)).
  - reflexivity.
  - intros c s Hc1 Hc2 Hs IH. destruct (template_char c s Hc1 Hc2) as [_ ->].
    intros Hnone. rewrite brace_free_cons, (IH Hnone).
    destruct (Ascii.eqb_spec c "{"); [congruence |].
    destruct (Ascii.eqb_spec c "}"); [congruence |]. reflexivity.
  - intros n s Hn Hs IH. destruct (template_placeholder n s Hn) as [_ ->]. discriminate.
Qed.

(** ** Resolution of dependencies: the values put in *)

Lemma assoc_In {A} (k : string) (x : A) (l : list (string * A)) :
  assoc k l = Some x -> In (k, x) l.
Proof.
  induction l as [| [k' y] l IH]; [discriminate |]. cbn.
  destruct (String.eqb_spec k k') as [-> | _].
  - intros H. inversion H. left. reflexivity.
  - intros H. right. apply IH. exact H.
Qed.

Lemma discovered_value_free (ph : string) (table : list (string * list string))
    (g g' : rng) (v : string) :
  table_brace_free table = true ->
  discovered_value ph table g = Some (v, g') -> brace_free v = true.
Proof.
  intros Ht. unfold discovered_value.
  destruct (get_matching_key ph table) as [key |]; [| discriminate].
  destruct (negb (String.eqb key "")); [| discriminate].
  destruct (assoc key table) as [[| v0 vs] |] eqn:Ha; try discriminate.
  intros H. apply assoc_In in Ha.
  assert (Hv : In v (v0 :: vs)).
  { change v with (fst (v, g')). inversion H as [H']. apply choice_In. discriminate. }
  unfold table_brace_free in Ht. rewrite forallb_forall in Ht.
  specialize (Ht _ Ha). cbn [snd] in Ht. rewrite forallb_forall in Ht.
  apply Ht. exact Hv.
Qed.

(** ** Path templates as pieces *)

Lemma template_pieces_of :
  forall url,
    template_go false url = true ->
    exists pieces,
      url = render braces pieces
      /\ template_pieces pieces = true
      /\ findall_go None url = holes pieces.
Proof.
  apply template_ind.
  - exists []. repeat split.
  - intros c s Hc1 Hc2 Hs (pieces & -> & Hp & Hf).
    exists (Text (String c "") :: pieces). split; [reflexivity |]. split.
    + cbn [template_pieces forallb]. fold (template_pieces pieces). rewrite Hp.
      rewrite brace_free_cons.
      destruct (Ascii.eqb_spec c "{"); [congruence |].
      destruct (Ascii.eqb_spec c "}"); [congruence |]. reflexivity.
    + cbn [render holes]. norm_app.
      destruct (template_char c (render braces pieces) Hc1 Hc2) as [_ ->]. exact Hf.
  - intros n s Hn Hs (pieces & -> & Hp & Hf).
    exists (Hole n :: pieces). split; [reflexivity |]. split.
    + cbn [template_pieces forallb]. fold (template_pieces pieces). rewrite Hn, Hp.
      reflexivity.
    + cbn [render holes].
      destruct (template_placeholder n (render braces pieces) Hn) as [_ ->].
      rewrite Hf. reflexivity.
Qed.

Lemma brace_free_no_open (x : string) :
  brace_free x = true ->
  forallb (fun c => negb (Ascii.eqb c "{")) (PyStr.chars x) = true.
Proof.
  unfold brace_free. rewrite !forallb_forall. intros H c Hc.
  specialize (H c Hc). apply andb_true_iff in H as [H _]. exact H.
Qed.

Lemma render_ext (f1 f2 : string -> string) (pieces : list piece) :
  (forall n, In n (holes pieces) -> f1 n = f2 n) ->
  render f1 pieces = render f2 pieces.
Proof.
  induction pieces as [| [t | n] pieces IH]; intros H; cbn [render holes] in *.
  - reflexivity.
  - rewrite IH by exact H. reflexivity.
  - rewrite (H n) by (left; reflexivity). rewrite IH; [reflexivity |].
    intros m Hm. apply H. right. exact Hm.
Qed.

Lemma render_brace_free (fill : string -> string) (pieces : list piece) :
  template_pieces pieces = true ->
  (forall n, In n (holes pieces) -> brace_free (fill n) = true) ->
  brace_free (render fill pieces) = true.
Proof.
  induction pieces as [| [t | n] pieces IH]; intros Hp Hf; [reflexivity | |];
    cbn [template_pieces forallb] in Hp; apply andb_true_iff in Hp as [Hx Hp];
    cbn [render holes] in *; rewrite brace_free_app.
  - rewrite Hx. apply IH; assumption.
  - rewrite (Hf n) by (left; reflexivity). apply IH; [exact Hp |].
    intros m Hm. apply Hf. right. exact Hm.
Qed.

(** [replace] on a resolution under way: the placeholder [ph] takes the
    value [val] wherever it still stands, and nothing else changes. *)
Lemma replace_render (ph val : string) (chosen : string -> option string)
    (pieces : list piece) :
  clean_name ph = true ->
  (forall n v, chosen n = Some v -> brace_free v = true) ->
  template_pieces pieces = true ->
  PyStr.replace (braces ph) val (render (partial_fill chosen) pieces)
  = render (partial_fill (choose chosen ph val)) pieces.
Proof.
  intros Hph Hchosen.
  change (template_pieces pieces = true ->
          PyStr.replace_go (braces ph) val 0 (render (partial_fill chosen) pieces)
          = render (partial_fill (choose chosen ph val)) pieces).
  induction pieces as [| [t | n] pieces IH]; intros Hp; [reflexivity | |];
    cbn [template_pieces forallb] in Hp; apply andb_true_iff in Hp as [Hx Hp];
    cbn [render].
  - rewrite replace_go_pass by (apply brace_free_no_open; exact Hx).
    rewrite (IH Hp). reflexivity.
  - unfold partial_fill at 1 3. unfold choose at 1.
    destruct (chosen n) as [v |] eqn:Hn.
    + rewrite replace_go_pass by (apply brace_free_no_open, (Hchosen n v Hn)).
      rewrite (IH Hp). reflexivity.
    + rewrite (replace_go_placeholder ph val Hph n _ Hx). rewrite (IH Hp).
      destruct (String.eqb n ph); reflexivity.
Qed.

Lemma discovered_value_table (ph : string) (table : list (string * list string))
    (g g' : rng) (v : string) :
  discovered_value ph table g = Some (v, g') -> In v (table_values table ph).
Proof.
  unfold discovered_value, table_values.
  destruct (get_matching_key ph table) as [key |]; [| discriminate].
  destruct (String.eqb key ""); [discriminate |]. cbn [negb].
  destruct (assoc key table) as [[| v0 vs] |]; try discriminate.
  intros H. cbn [default from_option id].
  change v with (fst (v, g')). inversion H as [H']. apply choice_In. discriminate.
Qed.

Lemma discovered_value_miss (ph : string) (table : list (string * list string)) (g : rng) :
  discovered_value ph table g = None -> table_values table ph = [].
Proof.
  unfold discovered_value, table_values.
  destruct (get_matching_key ph table) as [key |]; [| reflexivity].
  destruct (String.eqb key ""); [reflexivity |]. cbn [negb].
  destruct (assoc key table) as [[| v0 vs] |]; [reflexivity | | reflexivity].
  destruct (Random.choice v0 (v0 :: vs) g). discriminate.
Qed.

(** The loop over the placeholders, on a resolution under way: every
    placeholder of the list gets a value, from the table or from an
    example, and a value once chosen stays. *)
Lemma resolve_url_render (py : python) (params : option (list value))
    (table : list (string * list string)) (pieces : list piece) :
  template_pieces pieces = true ->
  table_brace_free table = true ->
  forall placeholders chosen g url' g',
    List.Forall (fun n => clean_name n = true) placeholders ->
    (forall ph g0 v g1,
        In ph placeholders -> fallback_value py params ph g0 = Ok (v, g1) ->
        brace_free v = true) ->
    (forall n v, chosen n = Some v ->
                 brace_free v = true /\ url_value py table params n v) ->
    resolve_url py placeholders params table (render (partial_fill chosen) pieces) g
    = Ok (url', g') ->
    exists chosen',
      url' = render (partial_fill chosen') pieces
      /\ (forall n v, chosen' n = Some v ->
                      brace_free v = true /\ url_value py table params n v)
      /\ (forall n, In n placeholders -> chosen' n <> None)
      /\ (forall n, chosen n <> None -> chosen' n <> None).
Proof.
  intros Hp Ht. induction placeholders as [| ph phs IH];
    intros chosen g url' g' Hclean Hfb Hchosen Hres.
  - cbn in Hres. inversion Hres; subst. exists chosen.
    split; [reflexivity |]. split; [exact Hchosen |].
    split; [intros n [] | intros n Hn; exact Hn].
  - inversion Hclean as [| ? ? Hph Hphs]; subst. cbn [resolve_url] in Hres.
    assert (Hval : exists val g1,
               brace_free val = true /\ url_value py table params ph val
               /\ resolve_url py phs params table
                    (PyStr.replace (braces ph) val (render (partial_fill chosen) pieces)) g1
                  = Ok (url', g')).
    { destruct (discovered_value ph table g) as [[val g1] |] eqn:Hd.
      - exists val, g1. split; [apply (discovered_value_free _ _ _ _ _ Ht Hd) |].
        split; [left; apply (discovered_value_table _ _ _ _ _ Hd) | exact Hres].
      - destruct (fallback_value py params ph g) as [[val g1] |] eqn:Hf;
          [| discriminate Hres].
        exists val, g1. split; [apply (Hfb ph g val g1); [left; reflexivity | exact Hf] |].
        split; [| exact Hres]. right.
        split; [apply (discovered_value_miss _ _ _ Hd) | eauto]. }
    destruct Hval as (val & g1 & Hfree & Hvalue & Hrest).
    rewrite (replace_render ph val chosen pieces Hph) in Hrest;
      [| intros n v Hn; apply (Hchosen n v Hn) | exact Hp].
    destruct (IH (choose chosen ph val) g1 url' g' Hphs) as (chosen' & Hurl & Hc' & Hall & Hkeep).
    + intros ph0 g0 v0 g2 Hin. apply Hfb. right. exact Hin.
    + intros n v. unfold choose. destruct (chosen n) as [v0 |] eqn:Hn.
      * intros E. inversion E; subst. apply (Hchosen n v Hn).
      * destruct (String.eqb_spec n ph) as [-> | _]; [| discriminate].
        intros E. inversion E; subst. split; assumption.
    + exact Hrest.
    + exists chosen'. split; [exact Hurl |]. split; [exact Hc' |]. split.
      * intros n [<- | Hn]; [| apply Hall; exact Hn].
        apply Hkeep. unfold choose. destruct (chosen ph); [discriminate |].
        rewrite String.eqb_refl. discriminate.
      * intros n Hn. apply Hkeep. unfold choose. destruct (chosen n); [discriminate |].
        congruence.
Qed.

Lemma brace_free_not_placeholder (v : string) :
  brace_free v = true -> is_placeholder (VStr v) = false.
Proof.
  destruct v as [| c v]; [reflexivity |]. rewrite brace_free_cons.
  unfold is_placeholder, PyStr.startswith. rewrite prefix_cons.
  destruct (ascii_dec "{" c) as [<- | _]; [discriminate | reflexivity].
Qed.

Lemma string_example (g : rng) :
  generate_example_value (VDict [("type", VStr "string")]) g
  = Ok (VStr "example-string", g).
Proof. reflexivity. Qed.

Lemma resolve_header_not_placeholder (py : python) (table : list (string * list string))
    (val v : value) (g g' : rng) :
  table_brace_free table = true ->
  resolve_header py table val g = Ok (v, g') -> is_placeholder v = false.
Proof.
  intros Ht. unfold resolve_header. destruct val as [| | | | s | |];
    try (intros H; inversion H; reflexivity).
  destruct (PyStr.startswith s "{" && PyStr.endswith s "}") eqn:Hform.
  - destruct (discovered_value _ table g) as [[x g1] |] eqn:Hd.
    + intros H. inversion H; subst. apply brace_free_not_placeholder.
      apply (discovered_value_free _ _ _ _ _ Ht Hd).
    + rewrite string_example. intros H. inversion H. reflexivity.
  - intros H. inversion H; subst. exact Hform.
Qed.

Lemma headers_set_Forall (P : value -> Prop) (k : string) (v : value)
    (h : list (string * value)) :
  P v -> List.Forall (fun kv => P (snd kv)) h ->
  List.Forall (fun kv => P (snd kv)) (headers_set k v h).
Proof.
  intros Hv Hh. induction Hh as [| [k' v'] h Hx Hh IH]; cbn.
  - constructor; [exact Hv | constructor].
  - destruct (String.eqb k k'); constructor; assumption.
Qed.

Lemma resolve_header_value (py : python) (table : list (string * list string))
    (val v : value) (g g' : rng) :
  resolve_header py table val g = Ok (v, g') -> header_value table val v.
Proof.
  unfold resolve_header, header_value. destruct val as [| | | | s | |];
    try (intros H; inversion H; reflexivity).
  cbn [is_placeholder].
  destruct (PyStr.startswith s "{" && PyStr.endswith s "}").
  - destruct (discovered_value _ table g) as [[x g1] |] eqn:Hd.
    + intros H. inversion H; subst. exists x. split; [reflexivity |]. left.
      apply (discovered_value_table _ _ _ _ _ Hd).
    + rewrite string_example. intros H. inversion H; subst.
      exists "example-string". split; [reflexivity |]. right.
      split; [apply (discovered_value_miss _ _ _ Hd) | reflexivity].
  - intros H. inversion H; subst. reflexivity.
Qed.

Lemma headers_set_In (k : string) (v : value) (h : list (string * value))
    (k0 : string) (v0 : value) :
  In (k0, v0) (headers_set k v h) -> (k0, v0) = (k, v) \/ In (k0, v0) h.
Proof.
  induction h as [| [k' v'] h IH]; cbn.
  - intros [E | []]. left. symmetry. exact E.
  - destruct (String.eqb k k'); cbn.
    + intros [E | Hin]; [left; symmetry; exact E | right; right; exact Hin].
    + intros [E | Hin]; [right; left; exact E |].
      destruct (IH Hin) as [E | Hin']; [left; exact E | right; right; exact Hin'].
Qed.

Lemma headers_set_keys (k : string) (v : value) (h : list (string * value)) (k0 : string) :
  k0 = k \/ In k0 (map fst h) -> In k0 (map fst (headers_set k v h)).
Proof.
  induction h as [| [k' v'] h IH]; cbn.
  - intros [-> | []]. left. reflexivity.
  - destruct (String.eqb_spec k k') as [<- | Hne]; cbn.
    + intros [-> | [-> | Hin]]; [left | left | right]; auto.
    + intros [-> | [-> | Hin]]; [right; apply IH; left | left | right; apply IH; right];
        auto.
Qed.

(** The loop over the headers: what the dict [new_headers] holds in the
    end was there before or comes from an item, and every key is there. *)
Lemma resolve_headers_values (py : python) (table : list (string * list string))
    (items : list (string * value)) (new_headers : positive) :
  forall (h : gmap positive object) (g : rng) (d : list (string * value))
         (h' : gmap positive object) (g' : rng),
    h !! new_headers = Some (OHeaders d) ->
    resolve_headers py table items new_headers h g = Ok (h', g') ->
    exists d',
      h' !! new_headers = Some (OHeaders d')
      /\ (forall k v', In (k, v') d' ->
            In (k, v') d \/ exists val, In (k, val) items /\ header_value table val v')
      /\ (forall k, In k (map fst d) \/ In k (map fst items) -> In k (map fst d')).
Proof.
  induction items as [| [key val] items IH]; intros h g d h' g' Hd Hres.
  - cbn in Hres. inversion Hres; subst. exists d. split; [exact Hd |].
    split; [intros k v' Hin; left; exact Hin | intros k [Hk | []]; exact Hk].
  - cbn [resolve_headers] in Hres.
    destruct (resolve_header py table val g) as [[v g1] |] eqn:Hv; [| discriminate Hres].
    cbn in Hres. rewrite Hd in Hres.
    destruct (IH (<[new_headers := OHeaders (headers_set key v d)]> h) g1
                 (headers_set key v d) h' g') as (d' & Hd' & Hvals & Hkeys).
    + apply lookup_insert_eq.
    + exact Hres.
    + exists d'. split; [exact Hd' |]. split.
      * intros k v' Hin. destruct (Hvals k v' Hin) as [Hset | (val0 & Hin0 & Hval0)].
        -- apply headers_set_In in Hset as [E | Hold]; [| left; exact Hold].
           inversion E; subst. right. exists val. split; [left; reflexivity |].
           apply (resolve_header_value _ _ _ _ _ _ Hv).
        -- right. exists val0. split; [right; exact Hin0 | exact Hval0].
      * intros k Hk. apply Hkeys. cbn [map fst] in Hk.
        destruct Hk as [Hk | [<- | Hk]].
        -- left. apply headers_set_keys. right. exact Hk.
        -- left. apply headers_set_keys. left. reflexivity.
        -- right. exact Hk.
Qed.

(** ** Resolution of dependencies: the store *)

(** The loop over the headers writes to the dict [new_headers] only. *)
Lemma resolve_headers_store (py : python) (table : list (string * list string))
    (items : list (string * value)) (new_headers : positive) :
  forall (h : gmap positive object) (g : rng) (d : list (string * value))
         (h' : gmap positive object) (g' : rng),
    h !! new_headers = Some (OHeaders d) ->
    resolve_headers py table items new_headers h g = Ok (h', g') ->
    (forall l, l <> new_headers -> h' !! l = h !! l)
    /\ dom h' = dom h
    /\ exists d',
         h' !! new_headers = Some (OHeaders d')
         /\ (table_brace_free table = true ->
             List.Forall (fun kv => is_placeholder (snd kv) = false) d ->
             List.Forall (fun kv => is_placeholder (snd kv) = false) d').
Proof.
  induction items as [| [key val] items IH]; intros h g d h' g' Hd Hres.
  - cbn in Hres. inversion Hres; subst. split; [reflexivity |]. split; [reflexivity |].
    exists d. split; [exact Hd | intros _ H; exact H].
  - cbn [resolve_headers] in Hres.
    destruct (resolve_header py table val g) as [[v g1] |] eqn:Hv; [| discriminate Hres].
    cbn in Hres. rewrite Hd in Hres.
    destruct (IH (<[new_headers := OHeaders (headers_set key v d)]> h) g1
                 (headers_set key v d) h' g') as (Hframe & Hdom & d' & Hd' & Hall).
    + apply lookup_insert_eq.
    + exact Hres.
    + split; [| split].
      * intros l Hl. rewrite (Hframe l Hl). apply lookup_insert_ne. congruence.
      * rewrite Hdom. apply dom_insert_lookup_L. rewrite Hd. eauto.
      * exists d'. split; [exact Hd' |]. intros Ht Hdall. apply (Hall Ht).
        apply (headers_set_Forall (fun x => is_placeholder x = false));
          [| exact Hdall].
        apply (resolve_header_not_placeholder _ _ _ _ _ _ Ht Hv).
Qed.

Lemma read_parameters_alloc (h : gmap positive object) (l : positive) (o : object)
    (parameters : option positive) (params : option (list value)) :
  l ∉ dom h ->
  read_parameters h parameters = Ok params ->
  read_parameters (<[l := o]> h) parameters = Ok params.
Proof.
  intros Hl. destruct parameters as [p |]; [| intros H; exact H]. cbn.
  destruct (h !! p) as [op |] eqn:Hp; [| discriminate].
  rewrite lookup_insert_ne; [rewrite Hp; intros H; exact H |].
  intros ->. apply Hl. apply elem_of_dom. rewrite Hp. eauto.
Qed.

(** What a successful call has done, step by step. *)
Lemma RESOLVE_DEPENDENCIES_steps (py : python) (h : gmap positive object)
    (request : positive) (table : list (string * list string)) (g : rng)
    (h' : gmap positive object) (resolved : positive) (g' : rng) :
  RESOLVE_DEPENDENCIES py h request table g = Ok (h', resolved, g') ->
  exists method url headers body parameters params url' g1 items new_headers items',
    h !! request = Some (ORequest method url headers body parameters)
    /\ (resolved ∉ dom h)
    /\ read_parameters (<[resolved := ORequest method url headers body parameters]> h)
         parameters = Ok params
    /\ resolve_url py (find_placeholders url) params table url g = Ok (url', g1)
    /\ h !! headers = Some (OHeaders items)
    /\ (new_headers ∉ dom h) /\ new_headers <> resolved
    /\ h' !! resolved = Some (ORequest method url' new_headers body parameters)
    /\ h' !! new_headers = Some (OHeaders items')
    /\ (forall l, l <> resolved -> l <> new_headers -> h' !! l = h !! l)
    /\ dom h' = {[ resolved; new_headers ]} ∪ dom h
    /\ (table_brace_free table = true ->
        List.Forall (fun kv => is_placeholder (snd kv) = false) items')
    /\ (forall k v', In (k, v') items' ->
          exists val, In (k, val) items /\ header_value table val v')
    /\ (forall k, In k (map fst items) -> In k (map fst items')).
Proof.
  unfold RESOLVE_DEPENDENCIES, alloc.
  destruct (h !! request) as [[method url headers body parameters | |] |] eqn:Hreq;
    try discriminate.
  set (resolved0 := fresh (dom h)).
  assert (Hfresh : resolved0 ∉ dom h) by apply is_fresh.
  set (h1 := <[resolved0 := ORequest method url headers body parameters]> h).
  destruct (read_parameters h1 parameters) as [params |] eqn:Hparams; [| discriminate].
  cbn [mbind result_bind].
  destruct (resolve_url py (find_placeholders url) params table url g)
    as [[url' g1] |] eqn:Hurl; [| discriminate].
  cbn [mbind result_bind].
  set (h2 := <[resolved0 := ORequest method url' headers body parameters]> h1).
  destruct (h2 !! headers) as [[| items |] |] eqn:Hheaders; try discriminate.
  set (new_headers0 := fresh (dom h2)).
  assert (Hfresh2 : new_headers0 ∉ dom h2) by apply is_fresh.
  assert (Hdom2 : dom h2 = {[ resolved0 ]} ∪ dom h).
  { unfold h2, h1. rewrite !dom_insert_L.
    apply set_eq. intros x. rewrite !elem_of_union, !elem_of_singleton. tauto. }
  set (h3 := <[new_headers0 := OHeaders []]> h2).
  destruct (resolve_headers py table items new_headers0 h3 g1) as [[h4 g2] |] eqn:Hloop;
    [| discriminate].
  cbn [mbind result_bind]. intros H. inversion H; subst h' resolved g'. clear H.
  assert (Hne : new_headers0 <> resolved0).
  { intros E. apply Hfresh2. rewrite Hdom2, E.
    apply elem_of_union_l, elem_of_singleton. reflexivity. }
  assert (Hnh : new_headers0 ∉ dom h).
  { intros E. apply Hfresh2. rewrite Hdom2. apply elem_of_union_r. exact E. }
  assert (Hh : headers <> resolved0).
  { intros ->. unfold h2 in Hheaders. rewrite lookup_insert_eq in Hheaders.
    discriminate. }
  destruct (resolve_headers_store py table items new_headers0 h3 g1 [] h4 g2)
    as (Hframe & Hdom4 & items' & Hitems' & Hall).
  { apply lookup_insert_eq. }
  { exact Hloop. }
  exists method, url, headers, body, parameters, params, url', g1, items,
    new_headers0, items'.
  split; [reflexivity |]. split; [exact Hfresh |]. split; [exact Hparams |].
  split; [exact Hurl |]. split.
  { unfold h2, h1 in Hheaders. rewrite !lookup_insert_ne in Hheaders by congruence.
    exact Hheaders. }
  split; [exact Hnh |]. split; [exact Hne |]. split; [apply lookup_insert_eq |].
  split; [rewrite lookup_insert_ne by congruence; exact Hitems' |]. split.
  { intros l Hl1 Hl2. rewrite lookup_insert_ne by congruence.
    rewrite (Hframe l Hl2). unfold h3, h2, h1.
    rewrite !lookup_insert_ne by congruence. reflexivity. }
  split.
  { rewrite dom_insert_L, Hdom4. unfold h3. rewrite dom_insert_L, Hdom2.
    apply set_eq. intros x. rewrite !elem_of_union, !elem_of_singleton. tauto. }
  split; [intros Ht; apply (Hall Ht); constructor |].
  destruct (resolve_headers_values py table items new_headers0 h3 g1 [] h4 g2)
    as (d' & Hd' & Hvals & Hkeys).
  { apply lookup_insert_eq. }
  { exact Hloop. }
  rewrite Hitems' in Hd'. inversion Hd'; subst d'. split.
  - intros k v' Hin. destruct (Hvals k v' Hin) as [[] | Hval]. exact Hval.
  - intros k Hk. apply Hkeys. right. exact Hk.
Qed.

(** C10: [RESOLVE_DEPENDENCIES] writes to two new objects only, the dict
    it returns and the headers dict of that one: every object of the store
    before the call is as it was, so the input request reads as before;
    the returned dict shares the body and the parameters of the input. *)
Theorem RESOLVE_DEPENDENCIES_frame
    (py : python) (h : gmap positive object) (request : positive)
    (table : list (string * list string)) (g : rng)
    (h' : gmap positive object) (resolved : positive) (g' : rng) :
  RESOLVE_DEPENDENCIES py h request table g = Ok (h', resolved, g') ->
  (forall l, l ∈ dom h -> h' !! l = h !! l)
  /\ (forall req, snapshot h request = Some req -> snapshot h' request = Some req)
  /\ (resolved ∉ dom h)
  /\ exists method url url' headers new_headers body parameters items',
       h !! request = Some (ORequest method url headers body parameters)
       /\ h' !! resolved = Some (ORequest method url' new_headers body parameters)
       /\ h' !! new_headers = Some (OHeaders items')
       /\ (new_headers ∉ dom h)
       /\ new_headers <> resolved
       /\ dom h' = {[ resolved; new_headers ]} ∪ dom h.
Proof.
  intros Hres.
  destruct (RESOLVE_DEPENDENCIES_steps _ _ _ _ _ _ _ _ Hres)
    as (method & url & headers & body & parameters & params & url' & g1 & items
        & new_headers & items' & Hreq & Hfresh & Hparams & Hurl & Hheaders & Hnh & Hne
        & Hresolved & Hnew & Hframe & Hdom & _).
  assert (Hold : forall l, l ∈ dom h -> h' !! l = h !! l).
  { intros l Hl. apply Hframe; intros ->; [apply Hfresh | apply Hnh]; exact Hl. }
  split; [exact Hold |]. split.
  { intros req. unfold snapshot.
    rewrite (Hold request) by (apply elem_of_dom; rewrite Hreq; eauto).
    rewrite Hreq.
    destruct (h !! headers) as [oh |] eqn:H1; [| discriminate].
    destruct (h !! body) as [ob |] eqn:H2.
    2:{ destruct oh; discriminate. }
    rewrite (Hold headers) by (apply elem_of_dom; rewrite H1; eauto).
    rewrite (Hold body) by (apply elem_of_dom; rewrite H2; eauto).
    rewrite H1, H2.
    assert (Hp : read_parameters h' parameters = read_parameters h parameters).
    { destruct parameters as [p |]; [| reflexivity]. cbn.
      destruct (h !! p) as [op |] eqn:H3.
      - rewrite (Hold p) by (apply elem_of_dom; rewrite H3; eauto).
        rewrite H3. reflexivity.
      - destruct (decide (p = resolved)) as [-> | Hp1]; [rewrite Hresolved; reflexivity |].
        destruct (decide (p = new_headers)) as [-> | Hp2]; [rewrite Hnew; reflexivity |].
        rewrite (Hframe p Hp1 Hp2), H3. reflexivity. }
    rewrite Hp. intros H. exact H. }
  split; [exact Hfresh |].
  exists method, url, url', headers, new_headers, body, parameters, items'.
  repeat split; assumption.
Qed.

Lemma brace_free_no_placeholder (s : string) :
  brace_free s = true -> find_placeholders s = [].
Proof.
  unfold find_placeholders. induction s as [| c s IH]; [reflexivity |].
  rewrite brace_free_cons. intros H. apply andb_true_iff in H as [Hc Hs].
  apply andb_true_iff in Hc as [Ho Hcl].
  destruct (template_char c s) as [_ ->].
  - intros ->. discriminate Ho.
  - intros ->. discriminate Hcl.
  - apply IH. exact Hs.
Qed.

Lemma is_valid_id_brace_free (v : string) :
  is_valid_id v = true -> brace_free v = true.
Proof.
  unfold is_valid_id, brace_free.
  destruct (30 <? PyStr.len v)%nat; [discriminate |].
  destruct (PyStr.contains " " v); [discriminate |].
  destruct (forallb _ (PyStr.chars v)) eqn:Hall; [| discriminate]. intros _.
  rewrite forallb_forall in Hall. apply forallb_forall. intros c Hc.
  specialize (Hall c Hc).
  destruct (Ascii.eqb_spec c "{") as [-> | _]; [discriminate Hall |].
  destruct (Ascii.eqb_spec c "}") as [-> | _]; [discriminate Hall | reflexivity].
Qed.

(** The tables of a run, whose values all pass [is_valid_id], hold no
    brace. *)
Lemma table_valid_brace_free (table : list (string * list string)) :
  table_valid table = true -> table_brace_free table = true.
Proof.
  unfold table_valid, table_brace_free. rewrite !forallb_forall. intros H kv Hkv.
  specialize (H kv Hkv). rewrite forallb_forall in H. apply forallb_forall.
  intros v Hv. apply is_valid_id_brace_free, H, Hv.
Qed.

(** C7 (amended): when the url of the request is a path template, the
    values of the table hold no brace and the examples made for the
    placeholders of the url hold none, the request returned is made as
    follows.  Its url is the template with every placeholder replaced by a
    value that the table lists under the matching key or, when the table
    has none, by the example made from the schema of the parameter (of a
    string without one); it has no brace left, hence no placeholder.
    Every header of the request is there, with its value when that has
    not the form of a placeholder, and otherwise with a value of the table
    or, on a miss, the example string; no header value has the form of a
    placeholder.  Method, body and parameters are those of the request. *)
Theorem RESOLVE_DEPENDENCIES_leaves_no_placeholder
    (py : python) (h : gmap positive object) (loc : positive)
    (table : list (string * list string)) (g : rng)
    (h' : gmap positive object) (resolved : positive) (g' : rng) (req : request) :
  snapshot h loc = Some req ->
  well_formed_template (req_url req) = true ->
  table_brace_free table = true ->
  (forall ph g0 v g1,
      In ph (find_placeholders (req_url req)) ->
      fallback_value py (req_parameters req) ph g0 = Ok (v, g1) -> brace_free v = true) ->
  RESOLVE_DEPENDENCIES py h loc table g = Ok (h', resolved, g') ->
  exists req',
    snapshot h' resolved = Some req'
    /\ brace_free (req_url req') = true
    /\ find_placeholders (req_url req') = []
    /\ List.Forall (fun kv => is_placeholder (snd kv) = false) (req_headers req')
    /\ (exists pieces fill,
          req_url req = render braces pieces
          /\ template_pieces pieces = true
          /\ find_placeholders (req_url req) = holes pieces
          /\ req_url req' = render fill pieces
          /\ forall n, In n (holes pieces) ->
                       url_value py table (req_parameters req) n (fill n))
    /\ (forall k v', In (k, v') (req_headers req') ->
          exists val, In (k, val) (req_headers req) /\ header_value table val v')
    /\ (forall k, In k (map fst (req_headers req)) -> In k (map fst (req_headers req')))
    /\ req_method req' = req_method req
    /\ req_body req' = req_body req
    /\ req_parameters req' = req_parameters req.
Proof.
  intros Hsnap Hwf Htable Hfb Hres.
  destruct (RESOLVE_DEPENDENCIES_steps _ _ _ _ _ _ _ _ Hres)
    as (method & url & headers & body & parameters & params & url' & g1 & items
        & new_headers & items' & Hreq & Hfresh & Hparams & Hurl & Hheaders & Hnh & Hne
        & Hresolved & Hnew & Hframe & Hdom & Hall & Hvals & Hkeys).
  unfold snapshot in Hsnap. rewrite Hreq, Hheaders in Hsnap.
  destruct (h !! body) as [[| | b] |] eqn:Hbody; try discriminate Hsnap.
  destruct (read_parameters h parameters) as [ps |] eqn:Hps; [| discriminate Hsnap].
  inversion Hsnap; subst req; clear Hsnap. cbn [req_url req_parameters req_headers] in *.
  rewrite (read_parameters_alloc _ _ _ _ _ Hfresh Hps) in Hparams.
  inversion Hparams; subst params; clear Hparams.
  assert (Hold : forall l, l ∈ dom h -> h' !! l = h !! l).
  { intros l Hl. apply Hframe; intros ->; [apply Hfresh | apply Hnh]; exact Hl. }
  destruct (template_pieces_of url Hwf) as (pieces & Hrender & Hpieces & Hholes).
  assert (Hstart : render (partial_fill (fun _ => None)) pieces = url).
  { rewrite Hrender. reflexivity. }
  rewrite <- Hstart in Hurl at 2.
  destruct (resolve_url_render py ps table pieces Hpieces Htable
              (find_placeholders url) (fun _ => None) g url' g1)
    as (chosen & Hurl' & Hchosen & Hall_chosen & _).
  { apply template_placeholders_clean. exact Hwf. }
  { exact Hfb. }
  { discriminate. }
  { exact Hurl. }
  set (fill := fun n => default "" (chosen n)).
  assert (Hfill : forall n, In n (holes pieces) ->
                            partial_fill chosen n = fill n
                            /\ brace_free (fill n) = true
                            /\ url_value py table ps n (fill n)).
  { intros n Hn. unfold find_placeholders in Hall_chosen. rewrite Hholes in Hall_chosen.
    specialize (Hall_chosen n Hn). unfold partial_fill, fill.
    destruct (chosen n) as [v |] eqn:Hv; [| congruence].
    split; [reflexivity | apply (Hchosen n v Hv)]. }
  assert (Hurl_fill : url' = render fill pieces).
  { rewrite Hurl'. apply render_ext. intros n Hn. apply (Hfill n Hn). }
  assert (Hfree : brace_free url' = true).
  { rewrite Hurl_fill. apply render_brace_free; [exact Hpieces |].
    intros n Hn. apply (Hfill n Hn). }
  exists {| req_method := method; req_url := url'; req_headers := items';
            req_body := b; req_parameters := ps |}.
  split.
  { unfold snapshot. rewrite Hresolved, Hnew.
    rewrite (Hold body) by (apply elem_of_dom; rewrite Hbody; eauto).
    rewrite Hbody.
    assert (Hp : read_parameters h' parameters = Ok ps).
    { destruct parameters as [p |]; [| exact Hps]. cbn in Hps |- *.
      destruct (h !! p) as [op |] eqn:Hp; [| discriminate Hps].
      rewrite (Hold p) by (apply elem_of_dom; rewrite Hp; eauto).
      rewrite Hp. exact Hps. }
    rewrite Hp. reflexivity. }
  cbn [req_url req_headers req_method req_body req_parameters].
  split; [exact Hfree |]. split; [apply brace_free_no_placeholder; exact Hfree |].
  split; [apply Hall; exact Htable |]. split.
  { exists pieces, fill. split; [exact Hrender |]. split; [exact Hpieces |].
    split; [exact Hholes |]. split; [exact Hurl_fill |].
    intros n Hn. apply (Hfill n Hn). }
  split; [exact Hvals |]. split; [exact Hkeys |]. repeat split.
Qed.

Lemma pet_fallback_brace_free (ph : string) (g0 : rng) (v : string) (g1 : rng) :
  fallback_value pet_python (Some [id_parameter]) ph g0 = Ok (v, g1) ->
  brace_free v = true.
Proof.
  assert (Hs : find_param_schema ph [id_parameter]
               = Ok (if String.eqb "id" ph
                     then VDict [("type", VStr "integer")] else VNone)).
  { unfold find_param_schema, id_parameter.
    change (is_str (Py.dict_get "name" _) ph) with (String.eqb "id" ph).
    destruct (String.eqb "id" ph); reflexivity. }
  unfold fallback_value. rewrite Hs.
  destruct (String.eqb "id" ph); intros H; vm_compute in H; inversion H; reflexivity.
Qed.

Lemma RESOLVE_DEPENDENCIES_pet_no_placeholder :
  exists req',
    snapshot (resolved_store (RESOLVE_DEPENDENCIES pet_python pet_store 1 toy_table [1%N]))
             (resolved_location (RESOLVE_DEPENDENCIES pet_python pet_store 1 toy_table [1%N]))
    = Some req'
    /\ brace_free (req_url req') = true
    /\ find_placeholders (req_url req') = []
    /\ List.Forall (fun kv => is_placeholder (snd kv) = false) (req_headers req')
    /\ (exists pieces fill,
          req_url pet_request = render braces pieces
          /\ template_pieces pieces = true
          /\ find_placeholders (req_url pet_request) = holes pieces
          /\ req_url req' = render fill pieces
          /\ forall n, In n (holes pieces) ->
                       url_value pet_python toy_table (req_parameters pet_request) n (fill n))
    /\ (forall k v', In (k, v') (req_headers req') ->
          exists val, In (k, val) (req_headers pet_request)
                      /\ header_value toy_table val v')
    /\ (forall k, In k (map fst (req_headers pet_request)) ->
                  In k (map fst (req_headers req')))
    /\ req_method req' = req_method pet_request
    /\ req_body req' = req_body pet_request
    /\ req_parameters req' = req_parameters pet_request.
Proof.
  apply (RESOLVE_DEPENDENCIES_leaves_no_placeholder pet_python pet_store 1 toy_table [1%N]
           _ _ (resolved_rng (RESOLVE_DEPENDENCIES pet_python pet_store 1 toy_table [1%N]))
           pet_request).
  - vm_compute. reflexivity.
  - reflexivity.
  - reflexivity.
  - intros ph g0 v g1 _. apply pet_fallback_brace_free.
  - vm_compute. reflexivity.
Defined.

(** The placeholder [id] has no key in [toy_table] and takes the example
    of its schema; [toy] takes a value of the table; the header takes the
    example string. *)
Example RESOLVE_DEPENDENCIES_pet :
  resolved_request (RESOLVE_DEPENDENCIES pet_python pet_store 1 toy_table [1%N])
  = Some {| req_method := "GET"; req_url := "/pets/123/toys/bone";
            req_headers := [("Content-Type", VStr "application/json");
                            ("X-Token", VStr "example-string")];
            req_body := VNone; req_parameters := Some [id_parameter] |}.
Proof. vm_compute. reflexivity. Qed.

(** C7, as stated, fails on tables that a run of the fuzzer holds.  With
    the pet 7 in the table, the url [/pets/{id}/{{id}}], which is no path
    template, comes back as [/pets/7/{7}], where the regular expression
    finds the placeholder [7].  With an empty table and a parameter whose
    schema gives the example [{id}], the url [/pets/{id}] comes back as it
    is.  And with a table whose values are placeholders, which
    [is_valid_id] would not let in, the request comes back with the url and
    the header it had. *)
Lemma RESOLVE_DEPENDENCIES_keeps_placeholders :
  (table_valid id_table = true
   /\ option_map req_url
        (resolved_request (RESOLVE_DEPENDENCIES pet_python nested_store 1 id_table []))
      = Some "/pets/7/{7}"
   /\ find_placeholders "/pets/7/{7}" = ["7"])
  /\ (table_valid [] = true
      /\ option_map req_url
           (resolved_request (RESOLVE_DEPENDENCIES pet_python echo_store 1 [] []))
         = Some "/pets/{id}"
      /\ find_placeholders "/pets/{id}" = ["id"])
  /\ (resolved_request (RESOLVE_DEPENDENCIES pet_python pet_store 1 brace_table [])
      = Some pet_request
      /\ find_placeholders (req_url pet_request) = ["id"; "toy"]
      /\ assoc "X-Token" (req_headers pet_request) = Some (VStr "{token}")
      /\ is_placeholder (VStr "{token}") = true).
Proof. vm_compute. repeat split. Qed.

Lemma RESOLVE_DEPENDENCIES_pet_frame :
  (forall l, l ∈ dom pet_store ->
     resolved_store (RESOLVE_DEPENDENCIES pet_python pet_store 1 toy_table [1%N]) !! l
     = pet_store !! l)
  /\ (forall req, snapshot pet_store 1 = Some req ->
        snapshot (resolved_store (RESOLVE_DEPENDENCIES pet_python pet_store 1 toy_table [1%N])) 1
        = Some req)
  /\ (resolved_location (RESOLVE_DEPENDENCIES pet_python pet_store 1 toy_table [1%N])
      ∉ dom pet_store)
  /\ exists method url url' headers new_headers body parameters items',
       pet_store !! 1%positive = Some (ORequest method url headers body parameters)
       /\ resolved_store (RESOLVE_DEPENDENCIES pet_python pet_store 1 toy_table [1%N])
          !! resolved_location (RESOLVE_DEPENDENCIES pet_python pet_store 1 toy_table [1%N])
          = Some (ORequest method url' new_headers body parameters)
       /\ resolved_store (RESOLVE_DEPENDENCIES pet_python pet_store 1 toy_table [1%N])
          !! new_headers = Some (OHeaders items')
       /\ (new_headers ∉ dom pet_store)
       /\ new_headers
          <> resolved_location (RESOLVE_DEPENDENCIES pet_python pet_store 1 toy_table [1%N])
       /\ dom (resolved_store (RESOLVE_DEPENDENCIES pet_python pet_store 1 toy_table [1%N]))
          = {[ resolved_location
                 (RESOLVE_DEPENDENCIES pet_python pet_store 1 toy_table [1%N]);
               new_headers ]} ∪ dom pet_store.
Proof.
  apply (RESOLVE_DEPENDENCIES_frame pet_python pet_store 1 toy_table [1%N]
           _ _ (resolved_rng (RESOLVE_DEPENDENCIES pet_python pet_store 1 toy_table [1%N]))).
  vm_compute. reflexivity.
Defined.

(** ** Resolution of dependencies: a result is returned *)

Lemma resolve_url_returns (py : python) (params : option (list value))
    (table : list (string * list string)) (placeholders : list string) :
  (forall ph g0, exists v g1, fallback_value py params ph g0 = Ok (v, g1)) ->
  forall url g, exists url' g',
    resolve_url py placeholders params table url g = Ok (url', g').
Proof.
  intros Hfb. induction placeholders as [| ph phs IH]; intros url g.
  - exists url, g. reflexivity.
  - cbn [resolve_url].
    destruct (discovered_value ph table g) as [[val g1] |].
    + cbn. apply IH.
    + destruct (Hfb ph g) as (val & g1 & ->). cbn. apply IH.
Qed.

Lemma resolve_header_returns (py : python) (table : list (string * list string))
    (val : value) (g : rng) :
  exists v g', resolve_header py table val g = Ok (v, g').
Proof.
  unfold resolve_header. destruct val; try (eexists _, _; reflexivity).
  destruct (PyStr.startswith s "{" && PyStr.endswith s "}");
    [| eexists _, _; reflexivity].
  destruct (discovered_value _ table g) as [[x g1] |]; [eexists _, _; reflexivity |].
  rewrite string_example. eexists _, _. reflexivity.
Qed.

Lemma resolve_headers_returns (py : python) (table : list (string * list string))
    (items : list (string * value)) (new_headers : positive) :
  forall (h : gmap positive object) (g : rng) (d : list (string * value)),
    h !! new_headers = Some (OHeaders d) ->
    exists h' g', resolve_headers py table items new_headers h g = Ok (h', g').
Proof.
  induction items as [| [key val] items IH]; intros h g d Hd.
  - exists h, g. reflexivity.
  - cbn [resolve_headers].
    destruct (resolve_header_returns py table val g) as (v & g1 & ->).
    cbn. rewrite Hd. apply (IH _ _ (headers_set key v d)). apply lookup_insert_eq.
Qed.

(** X30: on a request that the store holds whole, with its headers, body
    and parameters, [RESOLVE_DEPENDENCIES] returns a request: it raises only
    if the generation of an example for a placeholder does. *)
Lemma RESOLVE_DEPENDENCIES_returns
    (py : python) (h : gmap positive object) (loc : positive)
    (table : list (string * list string)) (g : rng) (req : request) :
  snapshot h loc = Some req ->
  (forall ph g0, exists v g1,
      fallback_value py (req_parameters req) ph g0 = Ok (v, g1)) ->
  exists h' resolved g',
    RESOLVE_DEPENDENCIES py h loc table g = Ok (h', resolved, g').
Proof.
  intros Hsnap Hfb. unfold snapshot in Hsnap.
  destruct (h !! loc) as [[method url headers body parameters | |] |] eqn:Hreq;
    try discriminate Hsnap.
  destruct (h !! headers) as [[| items |] |] eqn:Hheaders; try discriminate Hsnap.
  destruct (h !! body) as [[| | b] |] eqn:Hbody; try discriminate Hsnap.
  destruct (read_parameters h parameters) as [ps |] eqn:Hps; [| discriminate Hsnap].
  inversion Hsnap; subst req; clear Hsnap. cbn [req_parameters] in Hfb.
  unfold RESOLVE_DEPENDENCIES, alloc. rewrite Hreq.
  assert (Hfresh : fresh (dom h) ∉ dom h) by apply is_fresh.
  rewrite (read_parameters_alloc _ _ _ _ _ Hfresh Hps). cbn [mbind result_bind].
  destruct (resolve_url_returns py ps table (find_placeholders url) Hfb url g)
    as (url' & g1 & ->).
  cbn [mbind result_bind].
  assert (Hh : headers <> fresh (dom h)).
  { intros E. apply Hfresh. rewrite <- E. apply elem_of_dom. rewrite Hheaders. eauto. }
  rewrite !lookup_insert_ne by congruence. rewrite Hheaders.
  match goal with
  | |- context [resolve_headers py table items ?nh ?h3 g1] =>
      destruct (resolve_headers_returns py table items nh h3 g1 [])
        as (h4 & g2 & ->); [apply lookup_insert_eq |]
  end.
  cbn [mbind result_bind]. eexists _, _, _. reflexivity.
Qed.

(** ** The fuel of the example generator *)

Lemma depth_dict_get (k : string) (d : list (string * value)) (v : value) :
  Py.dict_get k d = Some v -> (depth v < depth (VDict d))%nat.
Proof.
  induction d as [| [k' x] d IH]; [discriminate |].
  cbn [Py.dict_get]. destruct (String.eqb k k').
  - intros H. inversion H; subst. cbn. lia.
  - intros H. specialize (IH H). cbn in IH |- *. lia.
Qed.

Lemma depth_property (k : string) (v : value) (props : list (string * value)) :
  In (k, v) props -> (depth v < depth (VDict props))%nat.
Proof.
  induction props as [| [k' x] props IH]; [intros [] |].
  intros [H | H].
  - inversion H; subst. cbn. lia.
  - specialize (IH H). cbn in IH |- *. lia.
Qed.

Lemma generate_properties_ext (gen1 gen2 : value -> rng -> result (value * rng))
    (props : list (string * value)) :
  (forall k v g, In (k, v) props -> gen1 v g = gen2 v g) ->
  forall g, generate_properties gen1 props g = generate_properties gen2 props g.
Proof.
  induction props as [| [k v] props IH]; intros Hext g; [reflexivity |].
  cbn [generate_properties]. rewrite (Hext k v g) by (left; reflexivity).
  destruct (gen2 v g) as [[x g1] |]; [| reflexivity]. cbn.
  rewrite IH; [reflexivity |]. intros k' v' g' Hin. apply (Hext k'). right. exact Hin.
Qed.

(** With enough fuel the result does not depend on the fuel. *)
Lemma generate_example_value_rec_fuel (n : nat) :
  forall m schema g,
    fuelled n schema -> fuelled m schema ->
    generate_example_value_rec n schema g = generate_example_value_rec m schema g.
Proof.
  induction n as [| n IH]; intros m schema g Hn Hm.
  { destruct Hn as [Hn | [_ Hn]]; lia. }
  destruct m as [| m]; [destruct Hm as [Hm | [_ Hm]]; lia |].
  cbn [generate_example_value_rec].
  destruct schema as [| | | | | | d]; try reflexivity.
  destruct d as [| p d']; [reflexivity |]. set (d := p :: d') in *.
  assert (Hdn : (1 <= depth (VDict d) < S n)%nat).
  { destruct Hn as [Hn | [Hn _]]; [cbn in *; lia | discriminate Hn]. }
  assert (Hdm : (1 <= depth (VDict d) < S m)%nat).
  { destruct Hm as [Hm | [Hm _]]; [cbn in *; lia | discriminate Hm]. }
  clearbody d. clear Hn Hm.
  destruct (Py.dict_get "example" d); [reflexivity |].
  destruct (is_str (Py.dict_get "type" d) "string"); [reflexivity |].
  destruct (is_str (Py.dict_get "type" d) "integer"); [reflexivity |].
  destruct (is_str (Py.dict_get "type" d) "number"); [reflexivity |].
  destruct (is_str (Py.dict_get "type" d) "boolean"); [reflexivity |].
  assert (Hsub : forall k,
             fuelled n (default (VDict []) (Py.dict_get k d))
             /\ fuelled m (default (VDict []) (Py.dict_get k d))).
  { intros k. destruct (Py.dict_get k d) as [v |] eqn:Hk; cbn [from_option id].
    - pose proof (depth_dict_get _ _ _ Hk) as Hd. split; left; lia.
    - split; right; (split; [reflexivity | lia]). }
  destruct (is_str (Py.dict_get "type" d) "array").
  { destruct (Hsub "items") as [H1 H2]. rewrite (IH m _ g H1 H2). reflexivity. }
  destruct (is_str (Py.dict_get "type" d) "object"); [| reflexivity].
  destruct (Hsub "properties") as [H1 H2].
  destruct (default (VDict []) (Py.dict_get "properties" d)) as [| | | | | | props];
    try reflexivity.
  rewrite (generate_properties_ext (generate_example_value_rec n)
             (generate_example_value_rec m) props); [reflexivity |].
  intros k v g0 Hin. pose proof (depth_property _ _ _ Hin) as Hd.
  destruct H1 as [H1 | [H1 _]]; [| inversion H1; subst; destruct Hin].
  destruct H2 as [H2 | [H2 _]]; [| inversion H2; subst; destruct Hin].
  apply IH; left; lia.
Qed.

(** [generate_example_value] gives what any larger fuel gives: its fuel
    is never used up. *)
Lemma generate_example_value_fuel (fuel : nat) (schema : value) (g : rng) :
  (depth schema < fuel)%nat ->
  generate_example_value_rec fuel schema g = generate_example_value schema g.
Proof.
  intros H. unfold generate_example_value.
  apply generate_example_value_rec_fuel; left; lia.
Qed.
(* ================================================================== *)
(** * Paths and signatures *)
(* ================================================================== *)

(** ** Stripping, splitting and joining *)

Lemma chars_of_chars (l : list ascii) : PyStr.chars (PyStr.of_chars l) = l.
Proof. apply list_ascii_of_string_of_list_ascii. Qed.

Lemma of_chars_chars (s : string) : PyStr.of_chars (PyStr.chars s) = s.
Proof. apply string_of_list_ascii_of_string. Qed.

Lemma of_chars_app (a b : list ascii) :
  PyStr.of_chars (a ++ b) = (PyStr.of_chars a ++ PyStr.of_chars b)%string.
Proof.
  induction a as [| c a IH]; [reflexivity |].
  change (PyStr.of_chars ((c :: a) ++ b)) with (String c (PyStr.of_chars (a ++ b))).
  rewrite IH. symmetry. apply app_cons.
Qed.

Lemma rev_rev (s : string) : PyStr.rev (PyStr.rev s) = s.
Proof.
  unfold PyStr.rev. rewrite chars_of_chars, List.rev_involutive. apply of_chars_chars.
Qed.

Lemma rev_app (a b : string) :
  PyStr.rev (a ++ b) = (PyStr.rev b ++ PyStr.rev a)%string.
Proof.
  unfold PyStr.rev. rewrite chars_app, List.rev_app_distr. apply of_chars_app.
Qed.

Lemma rev_empty (s : string) : PyStr.rev s = "" -> s = "".
Proof. intros H. rewrite <- (rev_rev s), H. reflexivity. Qed.

Lemma append_empty_r (s : string) : (s ++ "")%string = s.
Proof. induction s as [| c s IH]; [reflexivity |]. rewrite app_cons, IH. reflexivity. Qed.

Lemma starts_app (a b : string) :
  a <> "" -> starts_with_slash (a ++ b) = starts_with_slash a.
Proof. destruct a as [| c a]; [congruence |]. intros _. rewrite app_cons. reflexivity. Qed.

Lemma lstrip_id (s : string) : starts_with_slash s = false -> PyStr.lstrip "/" s = s.
Proof.
  destruct s as [| c s]; [reflexivity |]. cbn. intros ->. reflexivity.
Qed.

Lemma lstrip_starts (s : string) : starts_with_slash (PyStr.lstrip "/" s) = false.
Proof.
  induction s as [| c s IH]; [reflexivity |]. cbn.
  destruct (Ascii.eqb c "/") eqn:E; cbn; [exact IH | exact E].
Qed.

Lemma lstrip_suffix (s : string) : exists z, s = (z ++ PyStr.lstrip "/" s)%string.
Proof.
  induction s as [| c s [z IH]]; [exists ""; reflexivity |]. cbn.
  destruct (Ascii.eqb c "/"); cbn.
  - exists (String c z). rewrite app_cons. congruence.
  - exists "". reflexivity.
Qed.

Lemma strip_id (s : string) :
  starts_with_slash s = false -> ends_with_slash s = false -> PyStr.strip "/" s = s.
Proof.
  intros H1 H2. unfold PyStr.strip. rewrite (lstrip_id s H1).
  rewrite (lstrip_id (PyStr.rev s) H2). apply rev_rev.
Qed.

Lemma strip_starts (s : string) : starts_with_slash (PyStr.strip "/" s) = false.
Proof.
  unfold PyStr.strip.
  pose proof (lstrip_starts s) as Ht. set (t := PyStr.lstrip "/" s) in *.
  destruct (lstrip_suffix (PyStr.rev t)) as [z Hz].
  set (u := PyStr.lstrip "/" (PyStr.rev t)) in *.
  assert (Hrev : t = (PyStr.rev u ++ PyStr.rev z)%string).
  { rewrite <- rev_app, <- Hz. symmetry. apply rev_rev. }
  destruct (PyStr.rev u) as [| c r] eqn:E; [reflexivity |].
  rewrite Hrev in Ht. rewrite starts_app in Ht by discriminate. exact Ht.
Qed.

Lemma strip_ends (s : string) : ends_with_slash (PyStr.strip "/" s) = false.
Proof.
  unfold ends_with_slash, PyStr.strip. rewrite rev_rev. apply lstrip_starts.
Qed.

Lemma split_nonempty (s : string) : PyStr.split "/" s <> [].
Proof.
  destruct s as [| c s]; [discriminate |]. cbn.
  destruct (Ascii.eqb c "/"); [discriminate |].
  destruct (PyStr.split "/" s); discriminate.
Qed.

Lemma no_slash_cons (c : ascii) (s : string) :
  no_slash (String c s) = negb (Ascii.eqb c "/") && no_slash s.
Proof. reflexivity. Qed.

Lemma no_slash_app (a b : string) : no_slash (a ++ b) = no_slash a && no_slash b.
Proof. unfold no_slash. rewrite chars_app. apply forallb_app. Qed.

Lemma split_no_slash (s : string) :
  Forall (fun p => no_slash p = true) (PyStr.split "/" s).
Proof.
  induction s as [| c s IH]; [repeat constructor |]. cbn.
  destruct (Ascii.eqb c "/") eqn:E; [constructor; [reflexivity | exact IH] |].
  destruct (PyStr.split "/" s) as [| h t]; [repeat constructor; cbn; rewrite E; reflexivity |].
  inversion IH as [| ? ? Hh Ht]; subst. constructor; [| exact Ht].
  rewrite no_slash_cons, E, Hh. reflexivity.
Qed.

(** A string without the separator is its own single part. *)
Lemma split_single (s : string) : no_slash s = true -> PyStr.split "/" s = [s].
Proof.
  induction s as [| c s IH]; [reflexivity |].
  rewrite no_slash_cons. intros H. apply andb_true_iff in H as [Hc Hs].
  cbn. apply negb_true_iff in Hc. rewrite Hc, (IH Hs). reflexivity.
Qed.

Lemma split_app (a b : string) :
  PyStr.split "/" (a ++ "/" ++ b) = PyStr.split "/" a ++ PyStr.split "/" b.
Proof.
  induction a as [| c a IH]; [reflexivity |].
  rewrite app_cons. cbn. rewrite IH.
  destruct (Ascii.eqb c "/"); [reflexivity |].
  pose proof (split_nonempty a) as Hne.
  destruct (PyStr.split "/" a) as [| h t]; [congruence | reflexivity].
Qed.

Lemma join_cons (x y : string) (l : list string) :
  PyStr.join "/" (x :: y :: l) = (x ++ "/" ++ PyStr.join "/" (y :: l))%string.
Proof. reflexivity. Qed.

Lemma join_split (s : string) : PyStr.join "/" (PyStr.split "/" s) = s.
Proof.
  induction s as [| c s IH]; [reflexivity |]. cbn.
  pose proof (split_nonempty s) as Hne.
  destruct (PyStr.split "/" s) as [| h t]; [congruence |].
  destruct (Ascii.eqb c "/") eqn:E.
  - apply Ascii.eqb_eq in E. subst c. rewrite join_cons, IH. reflexivity.
  - destruct t as [| h' t].
    + cbn in IH. cbn. congruence.
    + rewrite join_cons in *. rewrite app_cons, IH. reflexivity.
Qed.

Lemma split_join (l : list string) :
  l <> [] -> Forall (fun p => no_slash p = true) l ->
  PyStr.split "/" (PyStr.join "/" l) = l.
Proof.
  induction l as [| x l IH]; [congruence |]. intros _ Hall.
  inversion Hall as [| ? ? Hx Hl]; subst.
  destruct l as [| y l]; [apply split_single; exact Hx |].
  rewrite join_cons, split_app, (split_single x Hx), IH by (congruence || exact Hl).
  reflexivity.
Qed.

Lemma join_snoc (l : list string) (z : string) :
  l <> [] -> PyStr.join "/" (l ++ [z]) = (PyStr.join "/" l ++ "/" ++ z)%string.
Proof.
  induction l as [| x l IH]; [congruence |]. intros _.
  destruct l as [| y l]; [reflexivity |].
  change ((x :: y :: l) ++ [z]) with (x :: y :: (l ++ [z])).
  rewrite !join_cons.
  change (y :: l ++ [z]) with ((y :: l) ++ [z]).
  rewrite IH by congruence. rewrite !append_assoc. reflexivity.
Qed.

Lemma rev_join (l : list string) :
  PyStr.rev (PyStr.join "/" l) = PyStr.join "/" (map PyStr.rev (List.rev l)).
Proof.
  induction l as [| x l IH]; [reflexivity |].
  destruct l as [| y l]; [reflexivity |].
  rewrite join_cons, !rev_app, IH.
  change (List.rev (x :: y :: l)) with (List.rev (y :: l) ++ [x]).
  rewrite map_app. cbn [map].
  rewrite join_snoc.
  - rewrite append_assoc. reflexivity.
  - cbn. destruct (List.rev l); discriminate.
Qed.

Lemma no_slash_rev (s : string) : no_slash (PyStr.rev s) = no_slash s.
Proof.
  unfold no_slash, PyStr.rev. rewrite chars_of_chars.
  apply eq_true_iff_eq. rewrite !forallb_forall.
  split; intros H c Hc; apply H.
  - apply (proj1 (in_rev _ _)). exact Hc.
  - apply (proj2 (in_rev _ _)). exact Hc.
Qed.

(** A joined list whose first part is not empty does not start with the
    separator; one whose last part is not empty does not end with it. *)
Lemma join_starts (l : list string) :
  hd "" l <> "" -> Forall (fun p => no_slash p = true) l ->
  starts_with_slash (PyStr.join "/" l) = false.
Proof.
  destruct l as [| x l]; [reflexivity |]. cbn [hd]. intros Hx Hall.
  inversion Hall as [| ? ? Hn _]; subst.
  assert (Hs : starts_with_slash x = false).
  { destruct x as [| c x]; [congruence |].
    rewrite no_slash_cons in Hn. apply andb_true_iff in Hn as [Hc _].
    apply negb_true_iff in Hc. exact Hc. }
  destruct l as [| y l]; [exact Hs |].
  rewrite join_cons, starts_app by exact Hx. exact Hs.
Qed.

Lemma join_ends (l : list string) :
  List.last l "" <> "" -> Forall (fun p => no_slash p = true) l ->
  ends_with_slash (PyStr.join "/" l) = false.
Proof.
  intros Hlast Hall. unfold ends_with_slash. rewrite rev_join.
  apply join_starts.
  - destruct l as [| x l] using rev_ind; [cbn in Hlast; congruence |].
    rewrite List.last_last in Hlast. rewrite List.rev_app_distr. cbn.
    intros H. apply rev_empty in H. congruence.
  - apply Forall_forall. intros p Hp. apply list_elem_of_In in Hp.
    apply in_map_iff in Hp as [q [<- Hq]]. rewrite no_slash_rev.
    apply in_rev in Hq. rewrite Forall_forall in Hall. apply Hall.
    apply list_elem_of_In. exact Hq.
Qed.

Lemma split_hd (s : string) :
  s <> "" -> starts_with_slash s = false -> hd "" (PyStr.split "/" s) <> "".
Proof.
  destruct s as [| c s]; [congruence |]. intros _. cbn. intros ->.
  destruct (PyStr.split "/" s); discriminate.
Qed.

Lemma split_rev (s : string) :
  PyStr.split "/" (PyStr.rev s) = map PyStr.rev (List.rev (PyStr.split "/" s)).
Proof.
  rewrite <- (join_split s) at 1. rewrite rev_join. apply split_join.
  - pose proof (split_nonempty s) as Hne.
    destruct (PyStr.split "/" s) as [| h t] using rev_ind; [congruence |].
    rewrite List.rev_app_distr. discriminate.
  - apply Forall_forall. intros p Hp. apply list_elem_of_In in Hp.
    apply in_map_iff in Hp as [q [<- Hq]]. rewrite no_slash_rev.
    apply in_rev in Hq. pose proof (split_no_slash s) as Hall.
    rewrite Forall_forall in Hall. apply Hall. apply list_elem_of_In. exact Hq.
Qed.

Lemma split_last (s : string) :
  s <> "" -> ends_with_slash s = false -> List.last (PyStr.split "/" s) "" <> "".
Proof.
  intros Hs He.
  assert (Hr : PyStr.rev s <> "") by (intros H; apply rev_empty in H; congruence).
  pose proof (split_hd (PyStr.rev s) Hr He) as Hhd.
  rewrite split_rev in Hhd.
  pose proof (split_nonempty s) as Hne.
  destruct (PyStr.split "/" s) as [| h t] using rev_ind; [congruence |].
  rewrite List.last_last. rewrite List.rev_app_distr in Hhd. cbn in Hhd.
  intros ->. apply Hhd. reflexivity.
Qed.

(** ** The normal form of a path *)

Lemma normalize_path_segments (p : string) :
  normalize_path p
  = PyStr.join "/" (map normalize_segment (PyStr.split "/" (PyStr.strip "/" p))).
Proof. reflexivity. Qed.

Lemma normalize_segment_idem (x : string) :
  normalize_segment (normalize_segment x) = normalize_segment x.
Proof.
  unfold normalize_segment at 2 3.
  destruct (PyStr.isdigit x || PyStr.isalnum x && negb (PyStr.islower x)) eqn:E.
  - reflexivity.
  - unfold normalize_segment. rewrite E. reflexivity.
Qed.

Lemma normalize_segment_no_slash (x : string) :
  no_slash x = true -> no_slash (normalize_segment x) = true.
Proof.
  intros H. unfold normalize_segment.
  destruct (PyStr.isdigit x || PyStr.isalnum x && negb (PyStr.islower x));
    [reflexivity | exact H].
Qed.

Lemma normalize_segment_nonempty (x : string) :
  x <> "" -> normalize_segment x <> "".
Proof.
  intros H. unfold normalize_segment.
  destruct (PyStr.isdigit x || PyStr.isalnum x && negb (PyStr.islower x));
    [discriminate | exact H].
Qed.

Lemma map_normalize_no_slash (l : list string) :
  Forall (fun p => no_slash p = true) l ->
  Forall (fun p => no_slash p = true) (map normalize_segment l).
Proof.
  induction 1 as [| x l Hx Hl IH]; cbn; constructor;
    [apply normalize_segment_no_slash; exact Hx | exact IH].
Qed.

(** X1: the normal form of a path is stable: normalising it again changes
    nothing, so a signature is a canonical representative. *)
Theorem normalize_path_idempotent (p : string) :
  normalize_path (normalize_path p) = normalize_path p.
Proof.
  rewrite (normalize_path_segments p).
  set (s := PyStr.strip "/" p).
  pose proof (strip_starts p) as Hs1. pose proof (strip_ends p) as Hs2.
  fold s in Hs1, Hs2.
  pose proof (split_no_slash s) as Hall.
  pose proof (split_nonempty s) as Hne.
  set (q := PyStr.join "/" (map normalize_segment (PyStr.split "/" s))).
  assert (Hq : PyStr.strip "/" q = q).
  { destruct (String.eqb_spec s "") as [-> | Hs]; [reflexivity |].
    apply strip_id.
    - apply join_starts; [| apply map_normalize_no_slash; exact Hall].
      pose proof (split_hd s Hs Hs1) as Hhd.
      destruct (PyStr.split "/" s) as [| h t]; [congruence |].
      cbn in *. apply normalize_segment_nonempty. exact Hhd.
    - apply join_ends; [| apply map_normalize_no_slash; exact Hall].
      pose proof (split_last s Hs Hs2) as Hl.
      destruct (PyStr.split "/" s) as [| h t] using rev_ind; [congruence |].
      rewrite map_app. cbn [map]. rewrite List.last_last in *.
      apply normalize_segment_nonempty. exact Hl. }
  rewrite normalize_path_segments, Hq. unfold q at 1.
  rewrite split_join.
  - rewrite map_map. unfold q. f_equal. apply map_ext. intros x.
    apply normalize_segment_idem.
  - destruct (PyStr.split "/" s); [congruence | discriminate].
  - apply map_normalize_no_slash. exact Hall.
Qed.

Lemma lstrip_app (a b : string) :
  PyStr.lstrip "/" (a ++ b)
  = if String.eqb (PyStr.lstrip "/" a) "" then PyStr.lstrip "/" b
    else (PyStr.lstrip "/" a ++ b)%string.
Proof.
  induction a as [| c a IH]; [reflexivity |].
  rewrite app_cons. cbn. destruct (Ascii.eqb c "/"); cbn; [exact IH |].
  rewrite app_cons. reflexivity.
Qed.

Lemma ends_app (a d : string) :
  d <> "" -> ends_with_slash (a ++ d) = ends_with_slash d.
Proof.
  intros Hd. unfold ends_with_slash. rewrite rev_app. apply starts_app.
  intros H. apply rev_empty in H. congruence.
Qed.

Lemma decimal_not_slash (c : ascii) :
  PyStr.char_isdecimal c = true -> Ascii.eqb c "/" = false.
Proof.
  intros H. destruct (Ascii.eqb_spec c "/") as [-> |]; [discriminate H | reflexivity].
Qed.

Lemma decimal_id_no_slash (d : string) : decimal_id d = true -> no_slash d = true.
Proof.
  unfold decimal_id, no_slash. intros H. apply andb_true_iff in H as [_ H].
  rewrite forallb_forall in *. intros c Hc.
  rewrite (decimal_not_slash c (H c Hc)). reflexivity.
Qed.

Lemma decimal_id_nonempty (d : string) : decimal_id d = true -> d <> "".
Proof.
  unfold decimal_id. intros H. apply andb_true_iff in H as [H _].
  apply negb_true_iff in H. intros ->. discriminate H.
Qed.

Lemma decimal_id_segment (d : string) :
  decimal_id d = true -> normalize_segment d = "{param}".
Proof.
  unfold decimal_id, normalize_segment, PyStr.isdigit. intros H.
  apply andb_true_iff in H as [-> H]. cbn [andb].
  replace (forallb PyStr.char_isdigit (PyStr.chars d)) with true; [reflexivity |].
  symmetry. rewrite forallb_forall in *. intros c Hc.
  unfold PyStr.char_isdigit. rewrite (H c Hc). reflexivity.
Qed.

Lemma decimal_id_ends (d : string) :
  decimal_id d = true -> starts_with_slash d = false /\ ends_with_slash d = false.
Proof.
  intros H. pose proof (decimal_id_no_slash d H) as Hn.
  pose proof (decimal_id_nonempty d H) as Hne.
  split.
  - apply (join_starts [d]); [exact Hne | repeat constructor; exact Hn].
  - apply (join_ends [d]); [exact Hne | repeat constructor; exact Hn].
Qed.

(** The normal form of a path that ends in a numeric identifier does not
    depend on the identifier. *)
Lemma normalize_path_numeric (prefix d : string) :
  decimal_id d = true ->
  normalize_path (prefix ++ "/" ++ d)
  = if String.eqb (PyStr.lstrip "/" prefix) "" then "{param}"
    else PyStr.join "/" (map normalize_segment (PyStr.split "/" (PyStr.lstrip "/" prefix))
                         ++ ["{param}"]).
Proof.
  intros Hd.
  destruct (decimal_id_ends d Hd) as [Hs He].
  pose proof (decimal_id_nonempty d Hd) as Hne.
  pose proof (decimal_id_no_slash d Hd) as Hn.
  assert (Hl : PyStr.lstrip "/" (prefix ++ "/" ++ d)
               = if String.eqb (PyStr.lstrip "/" prefix) "" then d
                 else (PyStr.lstrip "/" prefix ++ "/" ++ d)%string).
  { rewrite lstrip_app. destruct (String.eqb (PyStr.lstrip "/" prefix) ""); [| reflexivity].
    rewrite app_cons, app_empty. cbn. apply lstrip_id. exact Hs. }
  assert (Hstrip : PyStr.strip "/" (prefix ++ "/" ++ d)
                   = if String.eqb (PyStr.lstrip "/" prefix) "" then d
                     else (PyStr.lstrip "/" prefix ++ "/" ++ d)%string).
  { unfold PyStr.strip. rewrite Hl.
    destruct (String.eqb (PyStr.lstrip "/" prefix) "").
    - rewrite (lstrip_id _ He). apply rev_rev.
    - rewrite lstrip_id; [apply rev_rev |].
      change (ends_with_slash (PyStr.lstrip "/" prefix ++ "/" ++ d) = false).
      rewrite <- append_assoc, ends_app by exact Hne. exact He. }
  rewrite normalize_path_segments, Hstrip.
  destruct (String.eqb (PyStr.lstrip "/" prefix) "").
  - rewrite (split_single d Hn). cbn. apply decimal_id_segment. exact Hd.
  - rewrite split_app, (split_single d Hn), map_app. cbn [map].
    rewrite (decimal_id_segment d Hd). reflexivity.
Qed.

(** X2: two paths that differ only in a final numeric identifier have the
    same normal form, hence requests to them the same signature. *)
Theorem normalize_path_numeric_ids (prefix d1 d2 : string) :
  decimal_id d1 = true -> decimal_id d2 = true ->
  normalize_path (prefix ++ "/" ++ d1) = normalize_path (prefix ++ "/" ++ d2).
Proof.
  intros H1 H2. rewrite !normalize_path_numeric by assumption. reflexivity.
Qed.

Lemma normalize_path_pets_ids :
  normalize_path ("/pets" ++ "/" ++ "1") = normalize_path ("/pets" ++ "/" ++ "27").
Proof. apply normalize_path_numeric_ids; reflexivity. Defined.

(** ** Matching a path against a template *)

Lemma match_parts_template (cps sps : list string) :
  match_parts cps sps = match_template_parts sps cps.
Proof.
  revert sps. induction cps as [| cp cps IH]; intros [| sp sps]; try reflexivity.
  cbn. rewrite IH, (String.eqb_sym cp sp). reflexivity.
Qed.

(** The matcher of the coverage feedback and the matcher of the
    endpoint lookup are the same relation, with the arguments exchanged. *)
Theorem match_path_agrees (concrete spec : string) :
  match_path concrete spec = match_path_with_placeholders spec concrete.
Proof.
  unfold match_path, match_path_with_placeholders.
  rewrite match_parts_template, Nat.eqb_sym. reflexivity.
Qed.

Lemma match_template_parts_refl (l : list string) : match_template_parts l l = true.
Proof.
  induction l as [| x l IH]; [reflexivity |]. cbn.
  rewrite String.eqb_refl, IH. destruct (_ && _); reflexivity.
Qed.

Lemma match_path_with_placeholders_refl (p : string) :
  match_path_with_placeholders p p = true.
Proof.
  unfold match_path_with_placeholders. rewrite Nat.eqb_refl. cbn [negb].
  apply match_template_parts_refl.
Qed.

(** X3: a request that carries the method and the path of a listed
    endpoint, as [build_request] makes it, is attributed to an endpoint of
    the list with that method whose template matches the path: the
    lookup does not come back empty. *)
Theorem find_endpoint_by_request_template
    (req : request) (all_endpoints : list Endpoint) (ep : Endpoint) :
  In ep all_endpoints ->
  req_method req = method ep ->
  req_url req = path ep ->
  exists ep', find_endpoint_by_request req all_endpoints = Some ep'
              /\ In ep' all_endpoints
              /\ method ep' = method ep
              /\ match_path_with_placeholders (path ep') (path ep) = true.
Proof.
  intros Hin Hm Hu. unfold find_endpoint_by_request.
  destruct (List.find _ all_endpoints) as [ep' |] eqn:Hfind.
  - apply List.find_some in Hfind as [Hin' Htest].
    apply andb_true_iff in Htest as [H1 H2]. apply String.eqb_eq in H1.
    exists ep'. rewrite <- Hm, <- Hu. auto.
  - exfalso. pose proof (List.find_none _ _ Hfind ep Hin) as Hnone.
    cbn in Hnone. rewrite Hm, Hu, String.eqb_refl, match_path_with_placeholders_refl in Hnone.
    discriminate.
Qed.

Lemma find_endpoint_by_request_pets_post :
  exists ep', find_endpoint_by_request pets_post_request [pets_post] = Some ep'
              /\ In ep' [pets_post]
              /\ method ep' = method pets_post
              /\ match_path_with_placeholders (path ep') (path pets_post) = true.
Proof.
  apply find_endpoint_by_request_template; [left; reflexivity | reflexivity | reflexivity].
Defined.

(* ================================================================== *)
(** * Coverage and diversity *)
(* ================================================================== *)

Lemma match_paths_intro (concrete_paths spec_paths : gset string) (c p : string) :
  c ∈ concrete_paths -> p ∈ spec_paths -> match_path c p = true ->
  p ∈ match_paths_with_dependencies concrete_paths spec_paths.
Proof.
  intros Hc Hp Hm. unfold match_paths_with_dependencies.
  apply elem_of_list_to_set. apply list_elem_of_In.
  apply in_flat_map. exists c. split.
  - apply list_elem_of_In. apply elem_of_elements. exact Hc.
  - apply List.filter_In. split; [| exact Hm].
    apply list_elem_of_In. apply elem_of_elements. exact Hp.
Qed.

Lemma match_operations_intro (actual_ops spec_ops : gset (string * string))
    (m c p : string) :
  (m, c) ∈ actual_ops -> (m, p) ∈ spec_ops -> match_path c p = true ->
  (m, p) ∈ match_operations_with_dependencies actual_ops spec_ops.
Proof.
  intros Hc Hp Hm. unfold match_operations_with_dependencies.
  apply elem_of_list_to_set. apply list_elem_of_In.
  apply in_flat_map. exists (m, c). split.
  - apply list_elem_of_In. apply elem_of_elements. exact Hc.
  - apply List.filter_In. split.
    + apply list_elem_of_In. apply elem_of_elements. exact Hp.
    + rewrite String.eqb_refl, Hm. reflexivity.
Qed.

Lemma match_paths_mono (c1 c2 spec_paths : gset string) :
  c1 ⊆ c2 ->
  match_paths_with_dependencies c1 spec_paths ⊆ match_paths_with_dependencies c2 spec_paths.
Proof.
  intros Hsub p Hp.
  pose proof (match_paths_subset _ _ p Hp) as Hspec.
  apply match_paths_elem in Hp as (c & Hc & Hm).
  apply (match_paths_intro _ _ c); [apply Hsub; exact Hc | exact Hspec | exact Hm].
Qed.

Lemma match_operations_mono (o1 o2 spec_ops : gset (string * string)) :
  o1 ⊆ o2 ->
  match_operations_with_dependencies o1 spec_ops
  ⊆ match_operations_with_dependencies o2 spec_ops.
Proof.
  intros Hsub [m p] Hp.
  pose proof (match_operations_subset _ _ _ Hp) as Hspec.
  apply match_operations_elem in Hp as (c & Hc & Hm).
  apply (match_operations_intro _ _ m c); [apply Hsub; exact Hc | exact Hspec | exact Hm].
Qed.

Lemma partial_score_mono `{Countable A} (m1 m2 total : gset A) :
  m1 ⊆ m2 -> (partial_score m1 total <= partial_score m2 total)%Q.
Proof.
  intros Hsub. unfold partial_score.
  destruct (decide (total = ∅)); [apply Qle_refl |].
  unfold ratio, Qdiv. apply Qmult_le_compat_r.
  - rewrite <- Zle_Qle. apply inj_le. apply subseteq_size. exact Hsub.
  - apply Qinv_le_0_compat. change 0%Q with (inject_Z 0). rewrite <- Zle_Qle. lia.
Qed.

(** X4: the TCL score is monotone in the coverage: covering more, in
    every dimension, never lowers the score against the same
    specification. *)
Theorem calculate_tcl_score_monotone (c1 c2 spec_info : coverage) :
  coverage_subseteq c1 c2 ->
  (calculate_tcl_score c1 spec_info <= calculate_tcl_score c2 spec_info)%Q.
Proof.
  intros (Hp & Ho & Hq & Hs & Hf & Hi). unfold calculate_tcl_score.
  repeat apply Qplus_le_compat; try apply Qle_refl; apply partial_score_mono.
  - apply match_paths_mono. exact Hp.
  - apply match_operations_mono. exact Ho.
  - intros x Hx. apply elem_of_intersection in Hx as [H1 H2].
    apply elem_of_intersection. split; [apply Hq; exact H1 | exact H2].
  - intros x Hx. apply elem_of_intersection in Hx as [H1 H2].
    apply elem_of_intersection. split; [apply Hs; exact H1 | exact H2].
  - intros x Hx. apply elem_of_intersection in Hx as [H1 H2].
    apply elem_of_intersection. split; [apply Hf; exact H1 | exact H2].
  - intros x Hx. apply elem_of_intersection in Hx as [H1 H2].
    apply elem_of_intersection. split; [apply Hi; exact H1 | exact H2].
Qed.

Lemma coverage_subseteq_empty (c : coverage) : coverage_subseteq empty_coverage c.
Proof. repeat split; apply empty_subseteq. Qed.

Lemma calculate_tcl_score_monotone_pets :
  (calculate_tcl_score empty_coverage pets_spec_info
   <= calculate_tcl_score
        (extract_seq_coverage pet_python [pets_get_request] [pet_response])
        pets_spec_info)%Q.
Proof. apply calculate_tcl_score_monotone. apply coverage_subseteq_empty. Defined.

(** ** The coverage of a sequence *)

Lemma coverage_eq (c1 c2 : coverage) :
  paths c1 = paths c2 -> operations c1 = operations c2 ->
  cov_parameters c1 = cov_parameters c2 -> status_codes c1 = status_codes c2 ->
  response_fields c1 = response_fields c2 ->
  input_content_types c1 = input_content_types c2 ->
  c1 = c2.
Proof. destruct c1, c2. cbn. intros -> -> -> -> -> ->. reflexivity. Qed.

Lemma coverage_update_empty_r (c : coverage) : coverage_update c empty_coverage = c.
Proof. apply coverage_eq; cbn; apply (right_id_L ∅ (∪)). Qed.

Lemma coverage_update_empty_l (c : coverage) : coverage_update empty_coverage c = c.
Proof. apply coverage_eq; cbn; apply (left_id_L ∅ (∪)). Qed.

Lemma coverage_update_assoc (a b c : coverage) :
  coverage_update a (coverage_update b c) = coverage_update (coverage_update a b) c.
Proof. apply coverage_eq; cbn; apply (assoc_L (∪)). Qed.

Lemma coverage_update_comm (a b : coverage) : coverage_update a b = coverage_update b a.
Proof. apply coverage_eq; cbn; apply (comm_L (∪)). Qed.

(** What one request and one response add does not depend on what is
    covered already. *)
Lemma cover_request_update (c : coverage) (req : request) :
  cover_request c req = coverage_update c (cover_request empty_coverage req).
Proof.
  apply coverage_eq; cbn.
  - rewrite (left_id_L ∅ (∪)). reflexivity.
  - rewrite (left_id_L ∅ (∪)). reflexivity.
  - destruct (req_headers req) as [| hd tl]; destruct (req_body req) as [| | | | | | [| kv d]];
      rewrite ?(left_id_L ∅ (∪)), ?(right_id_L ∅ (∪)), ?(assoc_L (∪)); reflexivity.
  - rewrite (right_id_L ∅ (∪)). reflexivity.
  - rewrite (right_id_L ∅ (∪)). reflexivity.
  - destruct (Py.truthy (req_body req)); [| rewrite (right_id_L ∅ (∪)); reflexivity].
    destruct (assoc "Content-Type" (req_headers req)) as [[| | | | ctype | |] |];
      try (rewrite (right_id_L ∅ (∪)); reflexivity).
    destruct (String.eqb ctype "");
      rewrite ?(left_id_L ∅ (∪)), ?(right_id_L ∅ (∪)); reflexivity.
Qed.

Lemma cover_response_update (py : python) (c : coverage) (resp : response) :
  cover_response py c resp = coverage_update c (cover_response py empty_coverage resp).
Proof.
  apply coverage_eq; cbn; rewrite ?(right_id_L ∅ (∪)), ?(left_id_L ∅ (∪)); try reflexivity.
  destruct (json_loads py (body resp)) as [[| | | | | | d] |];
    rewrite ?(right_id_L ∅ (∪)), ?(left_id_L ∅ (∪)); reflexivity.
Qed.

Lemma fold_cover_request (requests : list request) (c : coverage) :
  fold_left cover_request requests c
  = coverage_update c (fold_left cover_request requests empty_coverage).
Proof.
  revert c. induction requests as [| req requests IH]; intros c; cbn [fold_left].
  - symmetry. apply coverage_update_empty_r.
  - rewrite IH, (IH (cover_request empty_coverage req)), cover_request_update.
    symmetry. apply coverage_update_assoc.
Qed.

Lemma fold_cover_response (py : python) (responses : list response) (c : coverage) :
  fold_left (cover_response py) responses c
  = coverage_update c (fold_left (cover_response py) responses empty_coverage).
Proof.
  revert c. induction responses as [| resp responses IH]; intros c; cbn [fold_left].
  - symmetry. apply coverage_update_empty_r.
  - rewrite IH, (IH (cover_response py empty_coverage resp)), cover_response_update.
    symmetry. apply coverage_update_assoc.
Qed.

(** X5: the coverage of a sequence and its responses is the union of the
    coverages of its parts: extending a sequence only adds coverage, and what
    the earlier requests covered is not looked at again. *)
Theorem extract_seq_coverage_app (py : python)
    (requests1 requests2 : list request) (responses1 responses2 : list response) :
  extract_seq_coverage py (requests1 ++ requests2) (responses1 ++ responses2)
  = coverage_update (extract_seq_coverage py requests1 responses1)
                    (extract_seq_coverage py requests2 responses2).
Proof.
  unfold extract_seq_coverage. rewrite !fold_left_app.
  set (R1 := fold_left cover_request requests1 empty_coverage).
  set (R2 := fold_left cover_request requests2 empty_coverage).
  set (P1 := fold_left (cover_response py) responses1 empty_coverage).
  set (P2 := fold_left (cover_response py) responses2 empty_coverage).
  rewrite (fold_cover_request requests2 R1). fold R2.
  rewrite (fold_cover_response py responses2). fold P2.
  rewrite (fold_cover_response py responses1). fold P1.
  rewrite (fold_cover_response py responses1 R1). fold P1.
  rewrite (fold_cover_response py responses2 R2). fold P2.
  rewrite <- !coverage_update_assoc. f_equal.
  rewrite !coverage_update_assoc. f_equal. apply coverage_update_comm.
Qed.

(** ** Diversity *)

(** X6: once the fields of a response have joined the fields seen, as
    the main loop does after every call, the same response brings no
    diversity any more. *)
Theorem CALCULATE_DIVERSITY_seen_again
    (py : python) (resp : response) (seen_fields : gset string) :
  fst (CALCULATE_DIVERSITY py resp
         (seen_fields ∪ snd (CALCULATE_DIVERSITY py resp seen_fields)))
  = 0%Q.
Proof.
  unfold CALCULATE_DIVERSITY.
  destruct (blank (body resp) || negb (PyStr.contains "application/json" _));
    [reflexivity |].
  destruct (json_loads py (body resp)) as [json_body |]; [| reflexivity].
  cbn [fst snd].
  replace (list_to_set (Py.dict_keys (flatten_json json_body ""))
           ∖ (seen_fields ∪ list_to_set (Py.dict_keys (flatten_json json_body ""))))
    with (∅ : gset string).
  - reflexivity.
  - symmetry. apply leibniz_equiv. intros x. split; [| intros H; apply elem_of_empty in H; tauto].
    intros H. apply elem_of_difference in H as [H1 H2]. exfalso. apply H2.
    apply elem_of_union. right. exact H1.
Qed.

(** ** Flattening *)

Lemma dict_set_values (P : value -> Prop) (k : string) (v : value)
    (d : list (string * value)) :
  P v -> Forall (fun kv => P (snd kv)) d ->
  Forall (fun kv => P (snd kv)) (Py.dict_set k v d).
Proof.
  intros Hv. induction 1 as [| [k' v'] d Hkv Hd IH]; cbn.
  - repeat constructor. exact Hv.
  - destruct (String.eqb k k'); constructor; auto.
Qed.

Lemma dict_of_items_values (P : value -> Prop) (items : list (string * value)) :
  Forall (fun kv => P (snd kv)) items ->
  Forall (fun kv => P (snd kv)) (Py.dict_of_items items).
Proof.
  unfold Py.dict_of_items.
  assert (H : forall acc, Forall (fun kv => P (snd kv)) acc ->
                          Forall (fun kv => P (snd kv)) items ->
                          Forall (fun kv => P (snd kv))
                                 (fold_left (fun d kv => Py.dict_set (fst kv) (snd kv) d)
                                            items acc)).
  { induction items as [| [k v] items IH]; intros acc Hacc Hitems; cbn; [exact Hacc |].
    inversion Hitems as [| ? ? Hkv Hrest]; subst.
    apply IH; [apply dict_set_values; assumption | exact Hrest]. }
  intros Hitems. apply H; [constructor | exact Hitems].
Qed.

(** X7: the result of [flatten_json] is flat: the value under every key
    is a leaf of the document, never a dict or a list, whatever the
    nesting. *)
Theorem flatten_json_leaves (data : value) (parent_key : string) :
  Forall (fun kv => is_leaf (snd kv) = true) (flatten_json data parent_key).
Proof.
  revert parent_key. induction data as [| b | z | f | s | l IH | d IH] using value_nested_ind;
    intros parent_key; try (repeat constructor).
  - cbn [flatten_json]. apply (dict_of_items_values (fun v => is_leaf v = true)).
    generalize 0%nat. induction IH as [| x l Hx Hl IHl]; intros index; [constructor |].
    apply Forall_app. split; [apply Hx | apply IHl].
  - cbn [flatten_json]. apply (dict_of_items_values (fun v => is_leaf v = true)).
    induction IH as [| [k x] d Hx Hd IHd]; [constructor |].
    apply Forall_app. split; [apply Hx | apply IHd].
Qed.

(* ================================================================== *)
(** * Identifiers and the table of identifiers *)
(* ================================================================== *)

Lemma add_events_keys_In (events : list (string * string))
    (found : list (string * list string)) (t : string) :
  In t (map fst (add_events events found)) ->
  In t (map fst found) \/ exists v, In (t, v) events.
Proof.
  revert found. induction events as [| [t' v'] events IH]; intros found; [tauto |].
  cbn [add_events fold_left fst snd].
  change (fold_left _ events ?f) with (add_events events f).
  intros H. apply IH in H as [H | [v H]].
  - rewrite found_add_keys in H. destruct (existsb _ _); [left; exact H |].
    apply in_app_iff in H as [H | [<- | []]]; [left; exact H |].
    right. exists v'. left. reflexivity.
  - right. exists v. right. exact H.
Qed.

Lemma scalar_events_token (py : python) (tokens : list string) (k : string) (v : value)
    (t val : string) :
  In (t, val) (scalar_events py tokens k v) -> In t tokens.
Proof.
  unfold scalar_events. destruct (is_valid_id (Py.str py v)); [| intros []].
  unfold matching_token.
  destruct (List.find _ tokens) as [token |] eqn:Hfind; [| intros []].
  intros [Heq | []]. inversion Heq; subst.
  apply List.find_some in Hfind as [Hin _]. exact Hin.
Qed.

Lemma walk_events_token (py : python) (tokens : list string) (obj : value) (t val : string) :
  In (t, val) (walk_events py tokens obj) -> In t tokens.
Proof.
  induction obj as [| b | z | f | s | l IHl | d IHd] using value_nested_ind;
    try (intros []).
  - cbn [walk_events]. induction IHl as [| x l Hx _ IH]; [intros [] |].
    rewrite in_app_iff. intros [H | H]; [apply Hx; exact H | apply IH; exact H].
  - cbn [walk_events]. induction IHd as [| [k x] d Hx _ IH]; [intros [] |].
    rewrite in_app_iff. intros [H | H]; [| apply IH; exact H].
    cbn [snd] in Hx.
    destruct x; try (destruct H); try (apply Hx; exact H);
      apply (scalar_events_token _ _ _ _ _ _ H).
Qed.

Lemma set_iter_In (py : python) (l : list string) (x : string) :
  set_iter_ok py -> NoDup l -> In x (set_iter py l) <-> In x l.
Proof.
  intros Hok Hnd. pose proof (Hok l Hnd) as Hperm. split; intros H.
  - apply (Permutation_in _ Hperm H).
  - apply (Permutation_in _ (Permutation_sym Hperm) H).
Qed.

Lemma set_of_list_NoDup (l : list string) : NoDup (Py.set_of_list l).
Proof. apply NoDup_ListNoDup. apply fold_set_add_NoDup. constructor. Qed.

Lemma set_of_list_In (l : list string) (x : string) :
  In x (Py.set_of_list l) <-> In x l.
Proof. unfold Py.set_of_list. rewrite fold_set_add_In. cbn. tauto. Qed.

(** The tokens that [EXTRACT_IDS] looks for are the base tokens and the
    parameter names, in lower case. *)
Lemma match_tokens_of_In (py : python) (param_names : list string) (t : string) :
  set_iter_ok py -> NoDup param_names ->
  In t (match_tokens_of py param_names)
  <-> exists name, In name (base_tokens ++ param_names) /\ t = PyStr.lower name.
Proof.
  intros Hok Hnd. unfold match_tokens_of.
  rewrite (set_iter_In py _ t Hok (set_of_list_NoDup _)), set_of_list_In, in_map_iff.
  assert (Hbase : NoDup base_tokens).
  { apply NoDup_ListNoDup. repeat constructor; cbn; intuition discriminate. }
  assert (Hu : forall n, In n (set_iter py (Py.set_union py base_tokens param_names))
                         <-> In n (base_tokens ++ param_names)).
  { intros n. unfold Py.set_union.
    rewrite (set_iter_In py _ n Hok (set_of_list_NoDup _)), set_of_list_In, !in_app_iff.
    rewrite (set_iter_In py _ n Hok Hbase), (set_iter_In py _ n Hok Hnd). reflexivity. }
  split.
  - intros (n & <- & Hn). exists n. split; [apply Hu; exact Hn | reflexivity].
  - intros (n & Hn & ->). exists n. split; [reflexivity | apply Hu; exact Hn].
Qed.

Lemma EXTRACT_IDS_keys_found (py : python) (json_body : string) (param_names : list string) :
  map fst (EXTRACT_IDS py json_body param_names)
  = match json_loads py json_body with
    | Some parsed =>
        map fst (add_events (walk_events py (match_tokens_of py param_names) parsed) [])
    | None => []
    end.
Proof.
  unfold EXTRACT_IDS. destruct (json_loads py json_body) as [parsed |]; [| reflexivity].
  rewrite recursive_extract_events, map_map. apply map_ext. intros [k v]. reflexivity.
Qed.

(** X8: the result of [EXTRACT_IDS] is keyed by tokens only: its keys
    are distinct, each one is a base token or a parameter name in lower
    case, and no bucket is empty. *)
Theorem EXTRACT_IDS_keys_are_tokens
    (py : python) (json_body : string) (param_names : list string) :
  set_iter_ok py -> NoDup param_names ->
  NoDup (map fst (EXTRACT_IDS py json_body param_names))
  /\ forall t vs,
       In (t, vs) (EXTRACT_IDS py json_body param_names) ->
       vs <> []
       /\ exists name, In name (base_tokens ++ param_names) /\ t = PyStr.lower name.
Proof.
  intros Hok Hnd. split.
  - rewrite EXTRACT_IDS_keys_found. destruct (json_loads py json_body); [| constructor].
    apply NoDup_ListNoDup. apply add_events_keys_NoDup. constructor.
  - intros t vs Hin.
    assert (Hkey : In t (map fst (EXTRACT_IDS py json_body param_names))).
    { apply in_map_iff. exists (t, vs). split; [reflexivity | exact Hin]. }
    apply EXTRACT_IDS_bucket in Hin as (parsed & Hparsed & ->).
    rewrite EXTRACT_IDS_keys_found, Hparsed in Hkey.
    apply add_events_keys_In in Hkey as [[] | [v Hv]].
    split.
    + apply first_encounters_In in Hv.
      assert (Hnd' : NoDup (first_encounters t
                              (walk_events py (match_tokens_of py param_names) parsed)))
        by (apply NoDup_ListNoDup, first_encounters_NoDup).
      apply (set_iter_In py _ v Hok Hnd') in Hv.
      intros E. rewrite E in Hv. destruct Hv.
    + apply walk_events_token in Hv. apply (match_tokens_of_In py param_names t Hok Hnd).
      exact Hv.
Qed.

Lemma EXTRACT_IDS_two_ids_keys :
  NoDup (map fst (EXTRACT_IDS reversing_python two_ids_text []))
  /\ forall t vs,
       In (t, vs) (EXTRACT_IDS reversing_python two_ids_text []) ->
       vs <> []
       /\ exists name, In name (base_tokens ++ []) /\ t = PyStr.lower name.
Proof.
  apply EXTRACT_IDS_keys_are_tokens; [apply reversing_python_ok | constructor].
Defined.

(** ** The update of the table *)

Lemma assoc_table_setdefault (k k0 : string) (table : list (string * list string)) :
  assoc k (table_setdefault k0 table)
  = match assoc k table with
    | Some vs => Some vs
    | None => if String.eqb k k0 then Some [] else None
    end.
Proof.
  induction table as [| [k' vs] table IH]; cbn.
  - destruct (String.eqb k k0); reflexivity.
  - destruct (String.eqb k0 k') eqn:E0.
    + apply String.eqb_eq in E0. subst k'. cbn.
      destruct (String.eqb k k0); [reflexivity |]. destruct (assoc k table); reflexivity.
    + cbn. destruct (String.eqb k k'); [reflexivity | exact IH].
Qed.

Lemma assoc_table_append (k k0 val : string) (table : list (string * list string)) :
  assoc k (table_append k0 val table)
  = if String.eqb k k0
    then Some (if existsb (String.eqb val) (bucket k table) then bucket k table
               else bucket k table ++ [val])
    else assoc k table.
Proof.
  unfold bucket. induction table as [| [k' vs] table IH]; cbn.
  - destruct (String.eqb k k0); reflexivity.
  - destruct (String.eqb k0 k') eqn:E0.
    + apply String.eqb_eq in E0. subst k'. cbn.
      destruct (String.eqb k k0); reflexivity.
    + cbn. destruct (String.eqb k k') eqn:E.
      * apply String.eqb_eq in E. subst k'. rewrite String.eqb_sym, E0. reflexivity.
      * exact IH.
Qed.

Lemma holds_setdefault (table : list (string * list string)) (k0 k val : string) :
  holds table k val -> holds (table_setdefault k0 table) k val.
Proof.
  intros (vs & H & Hin). exists vs. rewrite assoc_table_setdefault, H. auto.
Qed.

Lemma holds_append (table : list (string * list string)) (k0 v0 k val : string) :
  holds table k val -> holds (table_append k0 v0 table) k val.
Proof.
  intros (vs & H & Hin). unfold holds. rewrite assoc_table_append. unfold bucket. rewrite H.
  destruct (String.eqb k k0); [| eauto].
  destruct (existsb _ vs); eexists; split; try reflexivity; [exact Hin |].
  apply in_app_iff. left. exact Hin.
Qed.

Lemma holds_append_same (table : list (string * list string)) (k val : string) :
  holds (table_append k val table) k val.
Proof.
  unfold holds. rewrite assoc_table_append, String.eqb_refl.
  destruct (existsb _ _) eqn:E; eexists; split; try reflexivity.
  - apply existsb_exists in E as (x & Hx & Heq). apply String.eqb_eq in Heq. subst x. exact Hx.
  - apply in_app_iff. right. left. reflexivity.
Qed.

Lemma has_key_setdefault_same (table : list (string * list string)) (k : string) :
  has_key (table_setdefault k table) k.
Proof.
  unfold has_key. rewrite assoc_table_setdefault, String.eqb_refl.
  destruct (assoc k table); eauto.
Qed.

Lemma has_key_setdefault (table : list (string * list string)) (k0 k : string) :
  has_key table k -> has_key (table_setdefault k0 table) k.
Proof. intros (vs & H). exists vs. rewrite assoc_table_setdefault, H. reflexivity. Qed.

Lemma has_key_append (table : list (string * list string)) (k0 v0 k : string) :
  has_key table k -> has_key (table_append k0 v0 table) k.
Proof.
  intros (vs & H). unfold has_key. rewrite assoc_table_append.
  destruct (String.eqb k k0); eauto.
Qed.

(** The loop over the values of one key. *)
Lemma append_all_holds (k : string) (vals : list string)
    (table : list (string * list string)) :
  (forall k' val, holds table k' val ->
                  holds (fold_left (fun table val => table_append k val table) vals table)
                        k' val)
  /\ (forall k', has_key table k' ->
                 has_key (fold_left (fun table val => table_append k val table) vals table) k')
  /\ (forall val, In val vals ->
                  holds (fold_left (fun table val => table_append k val table) vals table)
                        k val).
Proof.
  revert table. induction vals as [| v vals IH]; intros table; cbn [fold_left].
  - split; [auto |]. split; [auto |]. intros val [].
  - destruct (IH (table_append k v table)) as (H1 & H2 & H3).
    split; [| split].
    + intros k' val H. apply H1. apply holds_append. exact H.
    + intros k' H. apply H2. apply has_key_append. exact H.
    + intros val [<- | Hin]; [| apply H3; exact Hin].
      apply H1. apply holds_append_same.
Qed.

Lemma update_id_table_cons (table : list (string * list string)) (k : string)
    (v : list string) (new_ids : list (string * list string)) :
  update_id_table table ((k, v) :: new_ids)
  = update_id_table
      (fold_left (fun table val => table_append k val table) v (table_setdefault k table))
      new_ids.
Proof. reflexivity. Qed.

Lemma update_id_table_holds (new_ids table : list (string * list string)) :
  (forall k val, holds table k val -> holds (update_id_table table new_ids) k val)
  /\ (forall k, has_key table k -> has_key (update_id_table table new_ids) k)
  /\ (forall k v, In (k, v) new_ids ->
                  has_key (update_id_table table new_ids) k
                  /\ forall val, In val v -> holds (update_id_table table new_ids) k val).
Proof.
  revert table. induction new_ids as [| [k0 v0] new_ids IH]; intros table.
  - split; [auto |]. split; [auto |]. intros k v [].
  - rewrite update_id_table_cons.
    destruct (append_all_holds k0 v0 (table_setdefault k0 table)) as (A1 & A2 & A3).
    destruct (IH (fold_left (fun table val => table_append k0 val table) v0
                            (table_setdefault k0 table))) as (H1 & H2 & H3).
    split; [| split].
    + intros k val H. apply H1, A1, holds_setdefault. exact H.
    + intros k H. apply H2, A2, has_key_setdefault. exact H.
    + intros k v [Heq | Hin]; [| apply H3; exact Hin].
      inversion Heq; subst. split.
      * apply H2, A2, has_key_setdefault_same.
      * intros val Hval. apply H1, A3. exact Hval.
Qed.

Lemma update_id_table_prefix (new_ids table : list (string * list string))
    (k : string) (vs : list string) :
  assoc k table = Some vs ->
  exists added, assoc k (update_id_table table new_ids) = Some (vs ++ added).
Proof.
  revert table vs. induction new_ids as [| [k0 v0] new_ids IH]; intros table vs H.
  { exists []. rewrite app_nil_r. exact H. }
  rewrite update_id_table_cons.
  assert (Hv : forall tbl ws, assoc k tbl = Some ws ->
                 exists added,
                   assoc k (fold_left (fun table val => table_append k0 val table) v0 tbl)
                   = Some (ws ++ added)).
  { clear. induction v0 as [| val v0 IHv]; intros tbl ws H; cbn [fold_left].
    - exists []. rewrite app_nil_r. exact H.
    - destruct (IHv (table_append k0 val tbl)
                    (if String.eqb k k0
                     then if existsb (String.eqb val) ws then ws else ws ++ [val]
                     else ws)) as [added Ha].
      { rewrite assoc_table_append. unfold bucket. rewrite H.
        destruct (String.eqb k k0); reflexivity. }
      rewrite Ha. destruct (String.eqb k k0); [| eauto].
      destruct (existsb _ ws); [eauto |]. rewrite <- app_assoc. eauto. }
  destruct (Hv (table_setdefault k0 table) vs) as [a1 Ha1].
  { rewrite assoc_table_setdefault, H. reflexivity. }
  destruct (IH _ _ Ha1) as [a2 Ha2]. rewrite Ha2, <- app_assoc. eauto.
Qed.

(** X9: the update of the table by the main loop only adds: a value
    stays under its key, at its place, and afterwards every value of the new
    mapping is under its key as well. *)
Theorem update_id_table_keeps_and_adds (table new_ids : list (string * list string)) :
  (forall k vs, assoc k table = Some vs ->
                exists added, assoc k (update_id_table table new_ids) = Some (vs ++ added))
  /\ (forall k v val, In (k, v) new_ids -> In val v ->
                      exists vs, assoc k (update_id_table table new_ids) = Some vs
                                 /\ In val vs).
Proof.
  split.
  - intros k vs H. apply update_id_table_prefix. exact H.
  - intros k v val Hin Hval.
    destruct (update_id_table_holds new_ids table) as (_ & _ & H).
    apply (proj2 (H k v Hin) val Hval).
Qed.

Lemma table_setdefault_keys (k : string) (table : list (string * list string)) :
  map fst (table_setdefault k table) = Py.set_add k (map fst table).
Proof.
  unfold Py.set_add. induction table as [| [k' vs] table IH]; [reflexivity |].
  cbn [table_setdefault map fst existsb]. destruct (String.eqb k k'); [reflexivity |].
  cbn [map fst orb]. rewrite IH. destruct (existsb _ _); reflexivity.
Qed.

Lemma table_append_keys (k val : string) (table : list (string * list string)) :
  map fst (table_append k val table) = Py.set_add k (map fst table).
Proof.
  unfold Py.set_add. induction table as [| [k' vs] table IH]; [reflexivity |].
  cbn [table_append map fst existsb]. destruct (String.eqb k k'); [reflexivity |].
  cbn [map fst orb]. rewrite IH. destruct (existsb _ _); reflexivity.
Qed.

Lemma table_setdefault_buckets (k : string) (table : list (string * list string)) :
  Forall (fun kv => NoDup (snd kv)) table ->
  Forall (fun kv => NoDup (snd kv)) (table_setdefault k table).
Proof.
  induction 1 as [| [k' vs] table Hkv Ht IH]; cbn.
  - constructor; [apply NoDup_nil_2 | constructor].
  - destruct (String.eqb k k'); constructor; assumption.
Qed.

Lemma table_append_buckets (k val : string) (table : list (string * list string)) :
  Forall (fun kv => NoDup (snd kv)) table ->
  Forall (fun kv => NoDup (snd kv)) (table_append k val table).
Proof.
  induction 1 as [| [k' vs] table Hkv Ht IH]; cbn.
  - constructor; [apply NoDup_singleton | constructor].
  - destruct (String.eqb k k'); constructor; try assumption.
    cbn [snd] in *. apply NoDup_ListNoDup. apply (set_add_NoDup val).
    apply NoDup_ListNoDup. exact Hkv.
Qed.

(** X10: the update keeps the table a dict of duplicate-free lists: the
    keys stay distinct, and a value already under a key is not added to
    it again. *)
Theorem update_id_table_no_duplicates (table new_ids : list (string * list string)) :
  NoDup (map fst table) ->
  Forall (fun kv => NoDup (snd kv)) table ->
  NoDup (map fst (update_id_table table new_ids))
  /\ Forall (fun kv => NoDup (snd kv)) (update_id_table table new_ids).
Proof.
  revert table. induction new_ids as [| [k v] new_ids IH]; intros table Hk Hv; [auto |].
  rewrite update_id_table_cons. apply IH.
  - assert (H0 : NoDup (map fst (table_setdefault k table))).
    { rewrite table_setdefault_keys. apply NoDup_ListNoDup. apply set_add_NoDup.
      apply NoDup_ListNoDup. exact Hk. }
    revert H0. generalize (table_setdefault k table). clear.
    induction v as [| val v IHv]; intros tbl H; [exact H |].
    cbn [fold_left]. apply IHv. rewrite table_append_keys.
    apply NoDup_ListNoDup. apply set_add_NoDup. apply NoDup_ListNoDup. exact H.
  - pose proof (table_setdefault_buckets k table Hv) as H0.
    revert H0. generalize (table_setdefault k table). clear.
    induction v as [| val v IHv]; intros tbl H; [exact H |].
    cbn [fold_left]. apply IHv. apply table_append_buckets. exact H.
Qed.

Lemma update_id_table_toys_no_duplicates :
  NoDup (map fst (update_id_table toy_table [("toy", ["bone"; "rope"]); ("id", ["7"])]))
  /\ Forall (fun kv => NoDup (snd kv))
            (update_id_table toy_table [("toy", ["bone"; "rope"]); ("id", ["7"])]).
Proof.
  apply update_id_table_no_duplicates.
  - apply NoDup_singleton.
  - constructor; [| constructor]. cbn.
    apply NoDup_cons_2; [| apply NoDup_singleton].
    apply not_elem_of_cons. split; [discriminate | apply not_elem_of_nil].
Defined.

Lemma table_setdefault_id (k : string) (table : list (string * list string)) :
  has_key table k -> table_setdefault k table = table.
Proof.
  intros (vs & H). induction table as [| [k' vs'] table IH]; [discriminate H |].
  cbn in *. destruct (String.eqb k k'); [reflexivity |]. rewrite (IH H). reflexivity.
Qed.

Lemma table_append_id (k val : string) (table : list (string * list string)) :
  holds table k val -> table_append k val table = table.
Proof.
  intros (vs & H & Hin). induction table as [| [k' vs'] table IH]; [discriminate H |].
  cbn in *. destruct (String.eqb k k').
  - inversion H; subst.
    replace (existsb (String.eqb val) vs) with true; [reflexivity |].
    symmetry. apply existsb_exists. exists val. split; [exact Hin | apply String.eqb_refl].
  - rewrite (IH H). reflexivity.
Qed.

Lemma update_id_table_id (new_ids table : list (string * list string)) :
  (forall k v, In (k, v) new_ids ->
               has_key table k /\ forall val, In val v -> holds table k val) ->
  update_id_table table new_ids = table.
Proof.
  induction new_ids as [| [k v] new_ids IH]; intros H; [reflexivity |].
  rewrite update_id_table_cons.
  destruct (H k v (or_introl eq_refl)) as [Hk Hv].
  rewrite (table_setdefault_id k table Hk).
  assert (Hfold : fold_left (fun table val => table_append k val table) v table = table).
  { clear - Hv. induction v as [| val v IHv]; [reflexivity |].
    cbn [fold_left]. rewrite table_append_id by (apply Hv; left; reflexivity).
    apply IHv. intros x Hx. apply Hv. right. exact Hx. }
  rewrite Hfold. apply IH. intros k' v' Hin. apply H. right. exact Hin.
Qed.

(** X11: the update is idempotent: harvesting the same identifiers a
    second time leaves the table as it is. *)
Theorem update_id_table_idempotent (table new_ids : list (string * list string)) :
  update_id_table (update_id_table table new_ids) new_ids
  = update_id_table table new_ids.
Proof.
  apply update_id_table_id.
  destruct (update_id_table_holds new_ids table) as (_ & _ & H). exact H.
Qed.

(* ================================================================== *)
(** * Matching keys and example values *)
(* ================================================================== *)

(** X12: the test made when an endpoint is chosen and the lookup made
    when a request is resolved agree: [has_matching_id] holds exactly when
    [get_matching_key] finds a key, and the key found is a key of the
    table that matches the name. *)
Theorem has_matching_id_get_matching_key
    (param_name : string) (dynamic_id_table : list (string * list string)) :
  (has_matching_id param_name dynamic_id_table = true
   <-> exists key, get_matching_key param_name dynamic_id_table = Some key)
  /\ forall key,
       get_matching_key param_name dynamic_id_table = Some key ->
       In key (map fst dynamic_id_table)
       /\ key_matches (PyStr.lower param_name) (PyStr.lower key) = true.
Proof.
  unfold has_matching_id, get_matching_key. split; [split |].
  - intros H. apply existsb_exists in H as ([k vs] & Hin & Hm).
    destruct (List.find _ dynamic_id_table) as [[k' vs'] |] eqn:Hfind; [eauto |].
    pose proof (List.find_none _ _ Hfind _ Hin) as Hnone. cbn in Hnone. congruence.
  - intros [key H].
    destruct (List.find _ dynamic_id_table) as [[k' vs'] |] eqn:Hfind; [| discriminate H].
    apply List.find_some in Hfind as [Hin Hm].
    apply existsb_exists. exists (k', vs'). auto.
  - intros key H.
    destruct (List.find _ dynamic_id_table) as [[k' vs'] |] eqn:Hfind; [| discriminate H].
    inversion H; subst. apply List.find_some in Hfind as [Hin Hm]. split; [| exact Hm].
    apply in_map_iff. exists (key, vs'). auto.
Qed.

(** ** Strings that match a pattern *)

Lemma digits_spec (n : nat) (g : rng) :
  String.length (fst (Random.digits n g)) = n
  /\ forallb PyStr.char_isdecimal (PyStr.chars (fst (Random.digits n g))) = true.
Proof.
  revert g. induction n as [| n IH]; intros g; [split; reflexivity |].
  cbn [Random.digits].
  pose proof (choice_In "0"%char (PyStr.chars "0123456789") g) as Hc.
  destruct (Random.choice "0"%char (PyStr.chars "0123456789") g) as [c g1].
  specialize (IH g1). destruct (Random.digits n g1) as [s g2]. cbn [fst] in *.
  destruct IH as [Hlen Hall]. split; [cbn; congruence |].
  change (PyStr.chars (String c s)) with (c :: PyStr.chars s). cbn [forallb].
  rewrite Hall, andb_true_r.
  assert (Hin : In c (PyStr.chars "0123456789")) by (apply Hc; discriminate).
  cbn in Hin.
  repeat (destruct Hin as [<- | Hin]; [reflexivity |]). destruct Hin.
Qed.

Lemma int_of_digits_nonneg (ds : string) : (0 <= int_of_digits ds)%Z.
Proof.
  unfold int_of_digits.
  assert (H : forall l acc, (0 <= acc)%Z ->
                (0 <= fold_left (fun acc c => 10 * acc + Z.of_N (PyStr.code c - 48)) l acc)%Z).
  { induction l as [| c l IH]; intros acc Hacc; [exact Hacc |]. cbn. apply IH. lia. }
  apply H. lia.
Qed.

Lemma strip_prefix_first (p s r : string) (c : ascii) :
  strip_prefix (String c p) s = Some r -> exists s', s = String c s'.
Proof.
  unfold strip_prefix. destruct s as [| b s]; [discriminate |]. cbn.
  destruct (ascii_dec c b) as [-> |]; [eauto | discriminate].
Qed.

(** A pattern that the second regular expression matches is not one
    that the first matches. *)
Lemma match_digit_count_not_range (pattern : string) (gs : string * string) :
  match_digit_count pattern = Some gs -> fullmatch_digit_range pattern = false.
Proof.
  unfold match_digit_count.
  destruct (strip_prefix "^\d{" pattern) as [r0 |] eqn:E; [| discriminate].
  intros _. apply strip_prefix_first in E as [s' ->]. reflexivity.
Qed.

(** X13: for a pattern such as [^\d{2,5}$] the generated string is made
    of decimal digits and its length lies between the two counts; when
    the first count exceeds the second, [random.randint] raises. *)
Theorem generate_matching_string_digit_count
    (pattern count1 count2 : string) (g : rng) :
  match_digit_count pattern = Some (count1, count2) ->
  if (int_of_digits (if String.eqb count2 "" then count1 else count2)
      <? int_of_digits count1)%Z
  then generate_matching_string pattern g = Raise ValueError
  else exists s g',
      generate_matching_string pattern g = Ok (s, g')
      /\ (int_of_digits count1 <= Z.of_nat (String.length s)
          <= int_of_digits (if String.eqb count2 "" then count1 else count2))%Z
      /\ forallb PyStr.char_isdecimal (PyStr.chars s) = true.
Proof.
  intros Hm. unfold generate_matching_string.
  rewrite (match_digit_count_not_range _ _ Hm), Hm.
  set (lo := int_of_digits count1).
  set (hi := int_of_digits (if String.eqb count2 "" then count1 else count2)).
  pose proof (int_of_digits_nonneg count1) as Hlo. fold lo in Hlo.
  unfold Random.randint. destruct (Z.ltb_spec hi lo) as [Hlt | Hle]; [reflexivity |].
  unfold Random.randbelow. destruct (Random.draw g) as [x g1]. cbn [mbind result_bind].
  set (i := (N.to_nat x mod Z.to_nat (hi - lo + 1))%nat).
  assert (Hi : (i < Z.to_nat (hi - lo + 1))%nat) by (apply Nat.mod_upper_bound; lia).
  destruct (digits_spec (Z.to_nat (lo + Z.of_nat i)) g1) as [Hlen Hall].
  destruct (Random.digits (Z.to_nat (lo + Z.of_nat i)) g1) as [s g2]. cbn [fst] in *.
  exists s, g2. split; [reflexivity |]. split; [| exact Hall].
  rewrite Hlen. lia.
Qed.

Lemma generate_matching_string_two_to_five :
  if (int_of_digits (if String.eqb "5" "" then "2" else "5") <? int_of_digits "2")%Z
  then generate_matching_string "^\d{2,5}$" [7%N; 3%N] = Raise ValueError
  else exists s g',
      generate_matching_string "^\d{2,5}$" [7%N; 3%N] = Ok (s, g')
      /\ (int_of_digits "2" <= Z.of_nat (String.length s)
          <= int_of_digits (if String.eqb "5" "" then "2" else "5"))%Z
      /\ forallb PyStr.char_isdecimal (PyStr.chars s) = true.
Proof. apply generate_matching_string_digit_count. reflexivity. Defined.

Lemma substring_all (s : string) : String.substring 0 (String.length s) s = s.
Proof. induction s as [| c s IH]; [reflexivity |]. cbn. rewrite IH. reflexivity. Qed.

Lemma strip_prefix_app (p s r : string) :
  strip_prefix p s = Some r -> s = (p ++ r)%string.
Proof.
  unfold strip_prefix. revert s r. induction p as [| a p IH]; intros s r.
  - change (String.length "") with 0%nat. rewrite Nat.sub_0_r, substring_all.
    destruct s; cbn [String.prefix]; intros H; inversion H; reflexivity.
  - destruct s as [| b s]; [discriminate |]. cbn [String.prefix].
    destruct (ascii_dec a b) as [<- |]; [| discriminate].
    specialize (IH s r). destruct (String.prefix p s); [| discriminate].
    cbn [String.length String.substring Nat.sub]. intros H.
    rewrite app_cons, <- (IH H). reflexivity.
Qed.

(** The run of digits at the head of [s] joins the run under way. *)
Lemma findall_digits_span (s : string) (cur : list ascii) :
  findall_digits_go cur s
  = findall_digits_go (List.rev (PyStr.chars (fst (span_digits s))) ++ cur)
                      (snd (span_digits s)).
Proof.
  revert cur. induction s as [| c s IH]; intros cur; [reflexivity |].
  cbn [span_digits findall_digits_go].
  destruct (PyStr.char_isdecimal c) eqn:E.
  - rewrite IH. destruct (span_digits s) as [ds rest]. cbn [fst snd].
    change (PyStr.chars (String c ds)) with (c :: PyStr.chars ds).
    cbn [List.rev]. rewrite <- app_assoc. reflexivity.
  - cbn [fst snd findall_digits_go]. rewrite E. reflexivity.
Qed.

Lemma rev_chars_nonempty (ds : string) (cur : list ascii) :
  ds <> "" -> List.rev (PyStr.chars ds) ++ cur <> [].
Proof.
  destruct ds as [| c ds]; [congruence |]. intros _ H.
  change (PyStr.chars (String c ds)) with (c :: PyStr.chars ds) in H.
  cbn [List.rev] in H. destruct (List.rev (PyStr.chars ds)); discriminate.
Qed.

(** X14: a pattern that the first regular expression of
    [generate_matching_string] matches in full (a digit, then two counts in
    braces) holds three runs of digits: [re.findall] returns three strings
    where the assignment has two names, so this branch always raises. *)
Theorem fullmatch_digit_range_three_runs (pattern : string) :
  fullmatch_digit_range pattern = true -> length (findall_digits pattern) = 3%nat.
Proof.
  unfold fullmatch_digit_range. destruct pattern as [| c rest]; [discriminate |].
  intros H. apply andb_true_iff in H as [Hc H].
  destruct (strip_prefix "{" rest) as [r0 |] eqn:E0; [| discriminate].
  apply strip_prefix_app in E0. subst rest.
  pose proof (findall_digits_span r0 []) as S1.
  destruct (span_digits r0) as [ds1 r1]. cbn [fst snd] in S1.
  apply andb_true_iff in H as [Hd1 H]. apply negb_true_iff in Hd1.
  apply String.eqb_neq in Hd1.
  destruct (strip_prefix "," r1) as [r2 |] eqn:E1; [| discriminate].
  apply strip_prefix_app in E1. subst r1.
  pose proof (findall_digits_span r2 []) as S2.
  destruct (span_digits r2) as [ds2 r3]. cbn [fst snd] in S2.
  apply andb_true_iff in H as [Hd2 H]. apply negb_true_iff in Hd2.
  apply String.eqb_neq in Hd2. apply String.eqb_eq in H. subst r3.
  unfold findall_digits. cbn [findall_digits_go]. rewrite Hc.
  rewrite app_cons, app_empty. cbn [findall_digits_go].
  change (PyStr.char_isdecimal "{") with false. cbn iota.
  rewrite S1, app_cons, app_empty. cbn [findall_digits_go].
  change (PyStr.char_isdecimal ",") with false. cbn iota.
  pose proof (rev_chars_nonempty ds1 [] Hd1) as N1.
  destruct (List.rev (PyStr.chars ds1) ++ []) as [| a1 l1]; [congruence |].
  rewrite S2. cbn [findall_digits_go].
  change (PyStr.char_isdecimal "}") with false. cbn iota.
  pose proof (rev_chars_nonempty ds2 [] Hd2) as N2.
  destruct (List.rev (PyStr.chars ds2) ++ []) as [| a2 l2]; [congruence |].
  reflexivity.
Qed.

Lemma fullmatch_digit_range_five :
  length (findall_digits "5{3,10}") = 3%nat.
Proof. apply fullmatch_digit_range_three_runs. reflexivity. Defined.

(** ** Examples of integers *)

Lemma float_lt_int (a b : Z) :
  float_lt (FQ (inject_Z a)) (FQ (inject_Z b)) = (a <? b)%Z.
Proof.
  cbn. destruct (Qlt_le_dec (inject_Z a) (inject_Z b)) as [H | H].
  - rewrite <- Zlt_Qlt in H. symmetry. apply Z.ltb_lt. exact H.
  - rewrite <- Zle_Qle in H. symmetry. apply Z.ltb_ge. exact H.
Qed.

(** X15: for an integer schema without example whose bounds are
    integers in order, the example generated lies within the bounds, and
    it is 123 when the bounds allow it. *)
Theorem generate_example_value_integer_bounds
    (d : list (string * value)) (lo hi : Z) (g : rng) :
  Py.dict_get "example" d = None ->
  Py.dict_get "type" d = Some (VStr "integer") ->
  Py.dict_get "minimum" d = Some (VInt lo) ->
  Py.dict_get "maximum" d = Some (VInt hi) ->
  (lo <= hi)%Z ->
  exists r,
    generate_example_value (VDict d) g = Ok (VInt r, g)
    /\ (lo <= r <= hi)%Z
    /\ ((lo <= 123 <= hi)%Z -> r = 123%Z).
Proof.
  intros Hex Hty Hmin Hmax Hle. unfold generate_example_value.
  generalize (depth (VDict d)). intros n. cbn [generate_example_value_rec].
  rewrite Hex, Hty, Hmin, Hmax.
  change (is_str (Some (VStr "integer")) "string") with false.
  change (is_str (Some (VStr "integer")) "integer") with true.
  cbn [from_option default id].
  unfold py_max, py_min, py_lt. cbn [number_of mbind result_bind].
  rewrite float_lt_int. destruct (Z.ltb_spec 123 lo) as [H1 | H1].
  - cbn [number_of]. rewrite float_lt_int.
    destruct (Z.ltb_spec hi lo) as [H2 | H2]; [lia |].
    exists lo. split; [reflexivity |]. split; lia.
  - cbn [number_of]. rewrite float_lt_int.
    destruct (Z.ltb_spec hi 123) as [H2 | H2].
    + exists hi. split; [reflexivity |]. split; lia.
    + exists 123%Z. split; [reflexivity |]. split; lia.
Qed.

Lemma generate_example_value_integer_from_200 :
  exists r,
    generate_example_value
      (VDict [("type", VStr "integer"); ("minimum", VInt 200); ("maximum", VInt 300)]) []
    = Ok (VInt r, [])
    /\ (200 <= r <= 300)%Z
    /\ ((200 <= 123 <= 300)%Z -> r = 123%Z).
Proof.
  apply generate_example_value_integer_bounds; [reflexivity .. | lia].
Defined.

(* ================================================================== *)
(** * The choice of the next endpoint *)
(* ================================================================== *)

Lemma used_templates_fold (sequence : list request) (endpoints : list Endpoint)
    (acc : gset (string * string)) (t : string * string) :
  t ∈ acc ->
  t ∈ fold_left (fun used req =>
                   match find_endpoint_by_request req endpoints with
                   | Some ep => used ∪ {[ (method ep, path ep) ]}
                   | None => used
                   end) sequence acc.
Proof.
  revert acc. induction sequence as [| req sequence IH]; intros acc H; [exact H |].
  cbn [fold_left]. apply IH.
  destruct (find_endpoint_by_request req endpoints); [| exact H].
  apply elem_of_union. left. exact H.
Qed.

Lemma used_templates_In (sequence : list request) (endpoints : list Endpoint)
    (req : request) (ep : Endpoint) :
  In req sequence -> find_endpoint_by_request req endpoints = Some ep ->
  (method ep, path ep) ∈ used_templates sequence endpoints.
Proof.
  unfold used_templates. generalize (∅ : gset (string * string)).
  induction sequence as [| r sequence IH]; intros acc Hin Hfind; [destruct Hin |].
  cbn [fold_left]. destruct Hin as [-> | Hin].
  - rewrite Hfind. apply used_templates_fold. apply elem_of_union. right.
    apply elem_of_singleton. reflexivity.
  - apply IH; assumption.
Qed.

Lemma all_resolvable_true (required_params : list value)
    (table : list (string * list string)) :
  all_resolvable required_params table = Ok true ->
  forall p, In p required_params ->
    exists d name, p = VDict d /\ Py.dict_get "name" d = Some (VStr name)
                   /\ has_matching_id name table = true.
Proof.
  induction required_params as [| q ps IH]; intros H p Hin; [destruct Hin |].
  cbn [all_resolvable] in H. destruct q as [| | | | | | d]; try discriminate H.
  destruct (Py.dict_get "name" d) as [[| | | | name | |] |] eqn:Hname; try discriminate H.
  destruct (has_matching_id name table) eqn:Hm; [| discriminate H].
  destruct Hin as [<- | Hin]; [eauto | apply IH; assumption].
Qed.

Lemma compatible_endpoints_In (used : gset (string * string))
    (table : list (string * list string)) (endpoints compatible : list Endpoint) :
  compatible_endpoints used table endpoints = Ok compatible ->
  forall ep, In ep compatible ->
    In ep endpoints
    /\ ((method ep, path ep) ∉ used)
    /\ all_resolvable (List.filter is_required (path_params ep ++ header_params ep)) table
       = Ok true.
Proof.
  revert compatible. induction endpoints as [| e endpoints IH]; intros compatible H ep Hin.
  - inversion H; subst. destruct Hin.
  - cbn [compatible_endpoints] in H.
    destruct (bool_decide ((method e, path e) ∈ used)) eqn:Hused.
    + destruct (IH _ H ep Hin) as (H1 & H2 & H3). auto using in_cons.
    + destruct (all_resolvable _ table) as [ok |] eqn:Hres; [| discriminate H].
      cbn [mbind result_bind] in H.
      destruct (compatible_endpoints used table endpoints) as [rest |]; [| discriminate H].
      cbn [mbind result_bind] in H. inversion H; subst; clear H.
      assert (Hrest : In ep rest -> In ep (e :: endpoints)
                                    /\ ((method ep, path ep) ∉ used)
                                    /\ all_resolvable
                                         (List.filter is_required
                                                      (path_params ep ++ header_params ep))
                                         table = Ok true).
      { intros Hr. destruct (IH _ eq_refl ep Hr) as (H1 & H2 & H3). auto using in_cons. }
      destruct ok; [| auto]. destruct Hin as [<- | Hin]; [| auto].
      split; [left; reflexivity |]. split; [| exact Hres].
      apply bool_decide_eq_false in Hused. exact Hused.
Qed.

Lemma insert_sorted_nonempty {A} (key : A -> Z) (reverse : bool) (x : A) (l : list A) :
  insert_sorted key reverse x l <> [].
Proof. destruct l; cbn; [discriminate |]. destruct (if reverse then _ else _); discriminate. Qed.

(** The head of a list sorted in reverse is the first of its elements
    with the greatest key. *)
Lemma sorted_reverse_head {A} (key : A -> Z) (l : list A) (x : A) (rest : list A) :
  sorted key true l = x :: rest ->
  exists before after,
    l = before ++ x :: after
    /\ (forall y, In y before -> (key y < key x)%Z)
    /\ (forall y, In y after -> (key y <= key x)%Z).
Proof.
  revert x rest. induction l as [| a l IH]; intros x rest H; [discriminate H |].
  cbn [sorted fold_right] in H. fold (sorted key true l) in H.
  destruct (sorted key true l) as [| b r] eqn:Hs.
  - assert (l = []) as ->.
    { destruct l as [| a' l']; [reflexivity |]. cbn [sorted fold_right] in Hs.
      exfalso. apply (insert_sorted_nonempty _ _ _ _ Hs). }
    cbn in H. inversion H; subst. exists [], []. split; [reflexivity |].
    split; intros y [].
  - destruct (IH b r eq_refl) as (before & after & -> & Hb & Ha).
    cbn [insert_sorted] in H. destruct (Z.ltb_spec (key a) (key b)) as [Hlt | Hge].
    + inversion H; subst. exists (a :: before), after. split; [reflexivity |].
      split; [| exact Ha]. intros y [<- | Hy]; [exact Hlt | apply Hb; exact Hy].
    + inversion H; subst. exists [], (before ++ b :: after). split; [reflexivity |].
      split; [intros y [] |]. intros y Hy. apply in_app_iff in Hy as [Hy | [<- | Hy]].
      * specialize (Hb y Hy). lia.
      * exact Hge.
      * specialize (Ha y Hy). lia.
Qed.

(** What a successful call went through. *)
Lemma CHOOSE_COMPATIBLE_ENDPOINT_steps (base_test : test_entry)
    (endpoints : list Endpoint) (table : list (string * list string)) (ep : Endpoint) :
  CHOOSE_COMPATIBLE_ENDPOINT base_test endpoints table = Ok ep ->
  exists compatible front last_request base_endpoint rest,
    compatible_endpoints (used_templates (sequence base_test) endpoints) table endpoints
    = Ok compatible
    /\ sequence base_test = front ++ [last_request]
    /\ find_endpoint_by_request last_request endpoints = Some base_endpoint
    /\ sorted (score_candidate base_endpoint) true compatible = ep :: rest.
Proof.
  unfold CHOOSE_COMPATIBLE_ENDPOINT. intros H.
  destruct (compatible_endpoints _ table endpoints) as [compatible |]; [| discriminate H].
  cbn [mbind result_bind] in H. destruct compatible as [| c compatible]; [discriminate H |].
  destruct (List.rev (sequence base_test)) as [| last_request front] eqn:Hrev;
    [discriminate H |].
  destruct (find_endpoint_by_request last_request endpoints) as [base_endpoint |] eqn:Hfind;
    [| discriminate H].
  destruct (sorted _ true (c :: compatible)) as [| best rest] eqn:Hsorted; [discriminate H |].
  inversion H; subst. exists (c :: compatible), (List.rev front), last_request, base_endpoint, rest.
  split; [reflexivity |]. split; [| auto].
  rewrite <- (List.rev_involutive (sequence base_test)), Hrev. reflexivity.
Qed.

Lemma insert_sorted_In {A} (key : A -> Z) (reverse : bool) (a x : A) (s : list A) :
  In x (insert_sorted key reverse a s) <-> a = x \/ In x s.
Proof.
  induction s as [| y s IH]; cbn [insert_sorted]; [cbn; tauto |].
  destruct (if reverse then _ else _); cbn [In]; [rewrite IH |]; tauto.
Qed.

Lemma sorted_In {A} (key : A -> Z) (reverse : bool) (l : list A) (x : A) :
  In x (sorted key reverse l) <-> In x l.
Proof.
  induction l as [| a l IH]; [reflexivity |]. cbn [sorted fold_right].
  fold (sorted key reverse l). rewrite insert_sorted_In, IH. reflexivity.
Qed.

(** X16: the endpoint chosen to extend a test is an endpoint of the
    specification that no request of the test belongs to, and each of its
    required path and header parameters has a name with a matching key
    in the table of identifiers. *)
Theorem CHOOSE_COMPATIBLE_ENDPOINT_sound (base_test : test_entry)
    (endpoints : list Endpoint) (table : list (string * list string)) (ep : Endpoint) :
  CHOOSE_COMPATIBLE_ENDPOINT base_test endpoints table = Ok ep ->
  In ep endpoints
  /\ (forall req ep', In req (sequence base_test) ->
                      find_endpoint_by_request req endpoints = Some ep' ->
                      (method ep', path ep') <> (method ep, path ep))
  /\ (forall p, In p (path_params ep ++ header_params ep) -> is_required p = true ->
                exists d name, p = VDict d /\ Py.dict_get "name" d = Some (VStr name)
                               /\ has_matching_id name table = true).
Proof.
  intros H. apply CHOOSE_COMPATIBLE_ENDPOINT_steps in H
    as (compatible & front & last_request & base_endpoint & rest & Hc & _ & _ & Hs).
  assert (Hin : In ep compatible).
  { apply (sorted_In (score_candidate base_endpoint) true). rewrite Hs. left. reflexivity. }
  destruct (compatible_endpoints_In _ _ _ _ Hc ep Hin) as (H1 & H2 & H3).
  split; [exact H1 |]. split.
  - intros req ep' Hreq Hfind Heq. apply H2. rewrite <- Heq.
    apply (used_templates_In _ _ req); assumption.
  - intros p Hp Hr. apply (all_resolvable_true _ _ H3). apply List.filter_In. auto.
Qed.

Lemma CHOOSE_COMPATIBLE_ENDPOINT_after_pets_get :
  In pets_post [pets_get; pet_get; pets_post]
  /\ (forall req ep', In req (sequence pets_get_test) ->
                      find_endpoint_by_request req [pets_get; pet_get; pets_post] = Some ep' ->
                      (method ep', path ep') <> (method pets_post, path pets_post))
  /\ (forall p, In p (path_params pets_post ++ header_params pets_post) ->
                is_required p = true ->
                exists d name, p = VDict d /\ Py.dict_get "name" d = Some (VStr name)
                               /\ has_matching_id name [] = true).
Proof.
  apply (CHOOSE_COMPATIBLE_ENDPOINT_sound pets_get_test). vm_compute. reflexivity.
Defined.

(** X17: among the compatible endpoints, the one chosen has the greatest
    score against the endpoint of the last request of the test, and it is
    the first with that score in the order of the specification. *)
Theorem CHOOSE_COMPATIBLE_ENDPOINT_best (base_test : test_entry)
    (endpoints : list Endpoint) (table : list (string * list string)) (ep : Endpoint) :
  CHOOSE_COMPATIBLE_ENDPOINT base_test endpoints table = Ok ep ->
  exists front last_request base_endpoint before after,
    sequence base_test = front ++ [last_request]
    /\ find_endpoint_by_request last_request endpoints = Some base_endpoint
    /\ compatible_endpoints (used_templates (sequence base_test) endpoints) table endpoints
       = Ok (before ++ ep :: after)
    /\ (forall y, In y before ->
                  (score_candidate base_endpoint y < score_candidate base_endpoint ep)%Z)
    /\ (forall y, In y after ->
                  (score_candidate base_endpoint y <= score_candidate base_endpoint ep)%Z).
Proof.
  intros H. apply CHOOSE_COMPATIBLE_ENDPOINT_steps in H
    as (compatible & front & last_request & base_endpoint & rest & Hc & Hseq & Hfind & Hs).
  apply sorted_reverse_head in Hs as (before & after & -> & Hb & Ha).
  exists front, last_request, base_endpoint, before, after. auto.
Qed.

Lemma CHOOSE_COMPATIBLE_ENDPOINT_best_after_pets_get :
  exists front last_request base_endpoint before after,
    sequence pets_get_test = front ++ [last_request]
    /\ find_endpoint_by_request last_request [pets_get; pet_get; pets_post]
       = Some base_endpoint
    /\ compatible_endpoints
         (used_templates (sequence pets_get_test) [pets_get; pet_get; pets_post]) []
         [pets_get; pet_get; pets_post]
       = Ok (before ++ pets_post :: after)
    /\ (forall y, In y before ->
                  (score_candidate base_endpoint y < score_candidate base_endpoint pets_post)%Z)
    /\ (forall y, In y after ->
                  (score_candidate base_endpoint y <= score_candidate base_endpoint pets_post)%Z).
Proof.
  apply (CHOOSE_COMPATIBLE_ENDPOINT_best pets_get_test _ []). vm_compute. reflexivity.
Defined.

Lemma all_resolvable_not_RuntimeError (required_params : list value)
    (table : list (string * list string)) :
  all_resolvable required_params table <> Raise RuntimeError.
Proof.
  induction required_params as [| p ps IH]; [discriminate |].
  cbn [all_resolvable]. destruct p as [| | | | | | d]; try discriminate.
  destruct (Py.dict_get "name" d) as [[| | | | name | |] |]; try discriminate.
  destruct (has_matching_id name table); [exact IH | discriminate].
Qed.

Lemma compatible_endpoints_not_RuntimeError (used : gset (string * string))
    (table : list (string * list string)) (endpoints : list Endpoint) :
  compatible_endpoints used table endpoints <> Raise RuntimeError.
Proof.
  induction endpoints as [| e endpoints IH]; [discriminate |].
  cbn [compatible_endpoints]. destruct (bool_decide _); [exact IH |].
  pose proof (all_resolvable_not_RuntimeError
                (List.filter is_required (path_params e ++ header_params e)) table) as Hr.
  destruct (all_resolvable _ table) as [ok | err]; cbn [mbind result_bind].
  - destruct (compatible_endpoints used table endpoints) as [rest | err];
      cbn [mbind result_bind]; [discriminate | exact IH].
  - intros E. apply Hr. inversion E. reflexivity.
Qed.

(** The [RuntimeError] that the main loop catches is raised exactly
    when no endpoint is compatible; every other failure of the choice (a
    parameter without a name, a last request that belongs to no endpoint)
    is another exception. *)
Theorem CHOOSE_COMPATIBLE_ENDPOINT_RuntimeError (base_test : test_entry)
    (endpoints : list Endpoint) (table : list (string * list string)) :
  CHOOSE_COMPATIBLE_ENDPOINT base_test endpoints table = Raise RuntimeError
  <-> compatible_endpoints (used_templates (sequence base_test) endpoints) table endpoints
      = Ok [].
Proof.
  unfold CHOOSE_COMPATIBLE_ENDPOINT.
  pose proof (compatible_endpoints_not_RuntimeError
                (used_templates (sequence base_test) endpoints) table endpoints) as Hne.
  destruct (compatible_endpoints _ table endpoints) as [compatible | err];
    cbn [mbind result_bind].
  - destruct compatible as [| c compatible]; [tauto |].
    split; [| discriminate]. intros H. exfalso.
    destruct (List.rev (sequence base_test)) as [| last_request front]; [discriminate H |].
    destruct (find_endpoint_by_request last_request endpoints); [| discriminate H].
    destruct (sorted _ true (c :: compatible)); discriminate H.
  - split; [intros H; congruence | discriminate].
Qed.

(** ** The seeds *)

Lemma insert_sorted_Permutation {A} (key : A -> Z) (reverse : bool) (a : A) (s : list A) :
  Permutation (insert_sorted key reverse a s) (a :: s).
Proof.
  induction s as [| y s IH]; cbn [insert_sorted]; [reflexivity |].
  destruct (if reverse then _ else _); [| reflexivity].
  rewrite IH. apply perm_swap.
Qed.

Lemma sorted_Permutation {A} (key : A -> Z) (reverse : bool) (l : list A) :
  Permutation (sorted key reverse l) l.
Proof.
  induction l as [| a l IH]; [reflexivity |]. cbn [sorted fold_right].
  fold (sorted key reverse l). rewrite insert_sorted_Permutation, IH. reflexivity.
Qed.

Lemma insert_sorted_ordered {A} (key : A -> Z) (a : A) (s : list A) :
  ordered key s -> ordered key (insert_sorted key false a s).
Proof.
  induction s as [| y s IH]; cbn [insert_sorted ordered]; [auto |].
  intros [Hy Hs]. destruct (Z.ltb_spec (key y) (key a)) as [Hlt | Hge]; cbn [ordered].
  - split; [| apply IH; exact Hs].
    apply Forall_forall. intros z Hz. apply list_elem_of_In in Hz.
    apply insert_sorted_In in Hz as [<- | Hz]; [lia |].
    rewrite Forall_forall in Hy. apply Hy. apply list_elem_of_In. exact Hz.
  - split; [| split; assumption]. constructor; [exact Hge |].
    apply (Forall_impl _ _ _ Hy). intros z Hz. lia.
Qed.

Lemma sorted_ordered {A} (key : A -> Z) (l : list A) : ordered key (sorted key false l).
Proof.
  induction l as [| a l IH]; [exact I |]. cbn [sorted fold_right].
  apply insert_sorted_ordered. exact IH.
Qed.

Lemma ordered_app {A} (key : A -> Z) (l1 l2 : list A) :
  ordered key (l1 ++ l2) ->
  forall a b, In a l1 -> In b l2 -> (key a <= key b)%Z.
Proof.
  induction l1 as [| x l1 IH]; intros H a b Ha Hb; [destruct Ha |].
  cbn in H. destruct H as [Hx Hrest]. destruct Ha as [<- | Ha].
  - rewrite Forall_forall in Hx. apply Hx. apply list_elem_of_In.
    apply in_app_iff. right. exact Hb.
  - apply (IH Hrest a b Ha Hb).
Qed.

Lemma SELECT_FALLBACK_SEEDS_length (endpoints : list Endpoint) (k : nat) :
  length (SELECT_FALLBACK_SEEDS endpoints k) = Nat.min k (length endpoints).
Proof.
  unfold SELECT_FALLBACK_SEEDS.
  rewrite length_firstn, (Permutation_length (sorted_Permutation _ _ _)). reflexivity.
Qed.

(** X18: the fallback seeds are the [k] endpoints with the fewest
    required path parameters (all of them when there are fewer than [k]):
    no endpoint left out has fewer than one that is selected. *)
Theorem SELECT_FALLBACK_SEEDS_fewest (endpoints : list Endpoint) (k : nat) :
  length (SELECT_FALLBACK_SEEDS endpoints k) = Nat.min k (length endpoints)
  /\ exists rest,
       Permutation (SELECT_FALLBACK_SEEDS endpoints k ++ rest) endpoints
       /\ forall a b, In a (SELECT_FALLBACK_SEEDS endpoints k) -> In b rest ->
                      (required_path_params a <= required_path_params b)%Z.
Proof.
  unfold SELECT_FALLBACK_SEEDS.
  pose proof (sorted_Permutation required_path_params false endpoints) as Hperm.
  pose proof (sorted_ordered required_path_params endpoints) as Hord.
  set (ranked := sorted required_path_params false endpoints) in *.
  split.
  - rewrite length_firstn, (Permutation_length Hperm). reflexivity.
  - exists (skipn k ranked). rewrite firstn_skipn. split; [exact Hperm |].
    apply ordered_app. rewrite firstn_skipn. exact Hord.
Qed.

Lemma seed_candidates_In (endpoints seeds : list Endpoint) :
  seed_candidates endpoints = Ok seeds ->
  forall s, In s seeds -> In s endpoints /\ IS_SEED_ENDPOINT s = Ok true.
Proof.
  revert seeds. induction endpoints as [| ep endpoints IH]; intros seeds H s Hs.
  - inversion H; subst. destruct Hs.
  - cbn [seed_candidates] in H.
    destruct (IS_SEED_ENDPOINT ep) as [seed |] eqn:Hseed; [| discriminate H].
    cbn [mbind result_bind] in H.
    destruct (seed_candidates endpoints) as [rest |]; [| discriminate H].
    cbn [mbind result_bind] in H. inversion H; subst; clear H.
    assert (Hrest : In s rest -> In s (ep :: endpoints) /\ IS_SEED_ENDPOINT s = Ok true).
    { intros Hr. destruct (IH _ eq_refl s Hr). auto using in_cons. }
    destruct seed; [| auto]. destruct Hs as [<- | Hs]; [| auto].
    split; [left; reflexivity | exact Hseed].
Qed.

Lemma seed_candidates_complete (endpoints seeds : list Endpoint) :
  seed_candidates endpoints = Ok seeds ->
  forall ep, In ep endpoints ->
    (IS_SEED_ENDPOINT ep = Ok true /\ In ep seeds) \/ IS_SEED_ENDPOINT ep = Ok false.
Proof.
  revert seeds. induction endpoints as [| e endpoints IH]; intros seeds H ep Hep.
  - destruct Hep.
  - cbn [seed_candidates] in H.
    destruct (IS_SEED_ENDPOINT e) as [seed |] eqn:Hseed; [| discriminate H].
    cbn [mbind result_bind] in H.
    destruct (seed_candidates endpoints) as [rest |]; [| discriminate H].
    cbn [mbind result_bind] in H. inversion H; subst; clear H.
    destruct Hep as [<- | Hep].
    + destruct seed; [left; split; [exact Hseed | left; reflexivity] | right; exact Hseed].
    + destruct (IH _ eq_refl ep Hep) as [[Ht Hin] | Hf]; [left | right; exact Hf].
      split; [exact Ht |]. destruct seed; [right |]; exact Hin.
Qed.

(** X19: the seed corpus is built from endpoints of the specification,
    and from at least one whenever the specification has one.  Either
    some endpoint passes [IS_SEED_ENDPOINT], and the seeds are exactly the
    endpoints that pass; or no endpoint passes, and the seeds are
    [SELECT_FALLBACK_SEEDS(endpoints, 3)]. *)
Theorem seed_endpoints_not_empty (endpoints seeds : list Endpoint) :
  seed_endpoints endpoints = Ok seeds ->
  (forall s, In s seeds -> In s endpoints)
  /\ (endpoints <> [] -> seeds <> [])
  /\ ((seeds <> []
       /\ forall s, In s seeds <-> (In s endpoints /\ IS_SEED_ENDPOINT s = Ok true))
      \/ ((forall ep, In ep endpoints -> IS_SEED_ENDPOINT ep = Ok false)
          /\ seeds = SELECT_FALLBACK_SEEDS endpoints 3)).
Proof.
  unfold seed_endpoints. intros H.
  destruct (seed_candidates endpoints) as [cands |] eqn:Hc; [| discriminate H].
  cbn [mbind result_bind] in H. inversion H; subst; clear H.
  destruct cands as [| c cands].
  - split; [| split; [| right; split; [| reflexivity]]].
    + intros s Hs. unfold SELECT_FALLBACK_SEEDS in Hs.
      apply (sorted_In required_path_params false).
      rewrite <- (firstn_skipn 3 (sorted required_path_params false endpoints)).
      apply in_app_iff. left. exact Hs.
    + intros Hne Hnil. apply (f_equal (@length Endpoint)) in Hnil.
      rewrite SELECT_FALLBACK_SEEDS_length in Hnil.
      destruct endpoints; [congruence | discriminate Hnil].
    + intros ep Hep.
      destruct (seed_candidates_complete _ _ Hc ep Hep) as [[_ []] | Hf]. exact Hf.
  - split; [| split; [discriminate | left; split; [discriminate |]]].
    + intros s Hs. apply (seed_candidates_In _ _ Hc s Hs).
    + intros s. split.
      * intros Hs. apply (seed_candidates_In _ _ Hc s Hs).
      * intros [Hs Ht].
        destruct (seed_candidates_complete _ _ Hc s Hs) as [[_ Hin] | Hf];
          [exact Hin | congruence].
Qed.

Lemma seed_endpoints_pet_get :
  (forall s, In s [pets_get] -> In s [pet_get; pets_get])
  /\ ([pet_get; pets_get] <> [] -> [pets_get] <> [])
  /\ (([pets_get] <> []
       /\ forall s, In s [pets_get]
                    <-> (In s [pet_get; pets_get] /\ IS_SEED_ENDPOINT s = Ok true))
      \/ ((forall ep, In ep [pet_get; pets_get] -> IS_SEED_ENDPOINT ep = Ok false)
          /\ [pets_get] = SELECT_FALLBACK_SEEDS [pet_get; pets_get] 3)).
Proof. apply seed_endpoints_not_empty. reflexivity. Defined.

(* ================================================================== *)
(** * The requests that [build_request] makes *)
(* ================================================================== *)

Lemma assoc_headers_set (k k' : string) (v : value) (h : list (string * value)) :
  assoc k (headers_set k' v h) = if String.eqb k k' then Some v else assoc k h.
Proof.
  induction h as [| [k0 v0] h IH]; cbn.
  - destruct (String.eqb k k'); reflexivity.
  - destruct (String.eqb k' k0) eqn:E0.
    + apply String.eqb_eq in E0. subst k0. cbn. destruct (String.eqb k k'); reflexivity.
    + cbn. destruct (String.eqb k k0) eqn:E.
      * apply String.eqb_eq in E. subst k0. rewrite String.eqb_sym, E0. reflexivity.
      * exact IH.
Qed.

Lemma header_examples_keeps (params : list value) (k : string) :
  forall (h h' : list (string * value)) (g g' : rng),
    header_examples params h g = Ok (h', g') ->
    (exists v, assoc k h = Some v) -> exists v', assoc k h' = Some v'.
Proof.
  induction params as [| p params IH]; intros h h' g g' H Hk.
  - inversion H; subst. exact Hk.
  - cbn [header_examples] in H. destruct p as [| | | | | | param]; try discriminate H.
    destruct (is_str (Py.dict_get "in" param) "header"); [| apply (IH _ _ _ _ H Hk)].
    destruct (Py.dict_get "name" param) as [name |]; [| discriminate H].
    destruct (Py.dict_get "schema" param) as [schema |]; [| discriminate H].
    destruct (generate_example_value schema g) as [[v g1] |]; [| discriminate H].
    cbn [mbind result_bind] in H. destruct name as [| | | | n | |]; try discriminate H.
    apply (IH _ _ _ _ H). rewrite assoc_headers_set.
    destruct (String.eqb k n); [eauto | exact Hk].
Qed.

Lemma dict_set_In (name k : string) (v x : value) (body : list (string * value)) :
  In (k, x) (Py.dict_set name v body) -> (k = name /\ x = v) \/ In (k, x) body.
Proof.
  induction body as [| [k0 v0] body IH]; cbn.
  - intros [H | []]. inversion H. auto.
  - destruct (String.eqb name k0).
    + intros [H | H]; [inversion H; auto | auto].
    + intros [H | H]; [auto |]. destruct (IH H); auto.
Qed.

Lemma set_unless_none_In (name k : string) (v x : value) (body : list (string * value)) :
  In (k, x) (set_unless_none name v body) ->
  (k = name /\ x = v /\ v <> VNone) \/ In (k, x) body.
Proof.
  destruct v; cbn [set_unless_none]; [auto | ..];
    intros H; apply dict_set_In in H as [[-> ->] | H]; auto;
    left; repeat split; discriminate.
Qed.

(** The loop over the required names stores examples of properties under
    names of the set, and nothing else. *)
Lemma required_examples_fields (items : list (string * value)) (names : list string)
    (P : string -> value -> Prop) :
  (forall name definition v, In name names -> Py.dict_get name items = Some definition ->
                             v <> VNone -> P name v) ->
  forall (body body' : list (string * value)) (g g' : rng),
    required_examples (VDict items) names body g = Ok (body', g') ->
    (forall k x, In (k, x) body -> P k x) ->
    forall k x, In (k, x) body' -> P k x.
Proof.
  induction names as [| name names IH]; intros HP body body' g g' H Hbody.
  - inversion H; subst. exact Hbody.
  - assert (HP' : forall n d v, In n names -> Py.dict_get n items = Some d ->
                                v <> VNone -> P n v).
    { intros n d v Hn. apply HP. right. exact Hn. }
    cbn [required_examples] in H.
    destruct (Py.dict_get name items) as [definition |] eqn:Hget;
      [| apply (IH HP' _ _ _ _ H Hbody)].
    destruct (Py.truthy definition); [| apply (IH HP' _ _ _ _ H Hbody)].
    destruct (generate_example_value definition g) as [[v g1] |]; [| discriminate H].
    cbn [mbind result_bind] in H. apply (IH HP' _ _ _ _ H).
    intros k x Hin. apply set_unless_none_In in Hin as [(-> & -> & Hv) | Hin].
    + apply (HP name definition v); [left; reflexivity | exact Hget | exact Hv].
    + apply Hbody. exact Hin.
Qed.

Lemma required_examples_no_dict (props : value) (names : list string)
    (body body' : list (string * value)) (g g' : rng) :
  (forall items, props <> VDict items) ->
  required_examples props names body g = Ok (body', g') -> body' = body.
Proof.
  intros Hp H. destruct names as [| name names]; [inversion H; reflexivity |].
  cbn [required_examples] in H. destruct props; try discriminate H.
  exfalso. apply (Hp d). reflexivity.
Qed.

Lemma optional_fields_In (items : list (string * value)) (required : list string)
    (optional : list (string * value)) :
  optional_fields items required = Ok optional ->
  forall name definition, In (name, definition) optional ->
    In (name, definition) items /\ ~ In name required.
Proof.
  revert optional. induction items as [| [n d] items IH]; intros optional H name definition Hin.
  - inversion H; subst. destruct Hin.
  - cbn [optional_fields] in H.
    destruct (existsb (String.eqb n) required) eqn:Hreq.
    + cbn [mbind result_bind] in H.
      destruct (optional_fields items required) as [rest |]; [| discriminate H].
      cbn [mbind result_bind] in H. inversion H; subst.
      destruct (IH _ eq_refl name definition Hin). auto using in_cons.
    + destruct d as [| | | | | | dd]; try discriminate H.
      cbn [mbind result_bind] in H.
      destruct (optional_fields items required) as [rest |]; [| discriminate H].
      cbn [mbind result_bind] in H. inversion H; subst; clear H.
      assert (Hrest : In (name, definition) rest ->
                      In (name, definition) ((n, VDict dd) :: items) /\ ~ In name required).
      { intros Hr. destruct (IH _ eq_refl name definition Hr). auto using in_cons. }
      destruct (negb _); [| auto]. destruct Hin as [Heq | Hin]; [| auto].
      inversion Heq; subst. split; [left; reflexivity |].
      intros Hn. assert (existsb (String.eqb name) required = true); [| congruence].
      apply existsb_exists. exists name. split; [exact Hn | apply String.eqb_refl].
Qed.

Lemma In_dict_get (k : string) (v : value) (d : list (string * value)) :
  In (k, v) d -> exists v', Py.dict_get k d = Some v'.
Proof.
  induction d as [| [k0 v0] d IH]; [intros [] |]. cbn.
  destruct (String.eqb k k0) eqn:E; [eauto |].
  intros [H | H]; [| apply IH; exact H].
  inversion H; subst. rewrite String.eqb_refl in E. discriminate E.
Qed.

(** X20: a request built for an endpoint carries the method, the path
    template and the parameters of the endpoint, always has a content
    type among its headers, and its body is [None] or a dict with at least
    one field, never an empty dict. *)
Theorem build_request_shape (py : python) (endpoint : Endpoint) (g g' : rng)
    (req : request) :
  build_request py endpoint g = Ok (req, g') ->
  req_method req = method endpoint
  /\ req_url req = path endpoint
  /\ req_parameters req = Some (parameters endpoint)
  /\ (exists ctype, assoc "Content-Type" (req_headers req) = Some ctype)
  /\ (req_body req = VNone
      \/ exists field rest, req_body req = VDict (field :: rest)).
Proof.
  unfold build_request. intros H.
  destruct (header_examples (parameters endpoint) _ g) as [[headers g1] |] eqn:Hh;
    [| discriminate H].
  cbn [mbind result_bind] in H.
  match type of H with
  | context [mbind _ ?b] => destruct b as [[body g2] |]; [| discriminate H]
  end.
  cbn [mbind result_bind] in H. inversion H; subst; clear H. cbn.
  repeat split.
  - apply (header_examples_keeps _ "Content-Type" _ _ _ _ Hh). cbn. eauto.
  - destruct body as [| field rest]; [left; reflexivity | right; eauto].
Qed.

Lemma build_request_pets_post_shape :
  req_method pets_post_request = method pets_post
  /\ req_url pets_post_request = path pets_post
  /\ req_parameters pets_post_request = Some (parameters pets_post)
  /\ (exists ctype, assoc "Content-Type" (req_headers pets_post_request) = Some ctype)
  /\ (req_body pets_post_request = VNone
      \/ exists field rest, req_body pets_post_request = VDict (field :: rest)).
Proof.
  apply (build_request_shape pet_python pets_post [] []). vm_compute. reflexivity.
Defined.

(** X21: every field of the body of a built request is a property of
    the body schema of the endpoint with an example that is not [None]; it
    is a required property, or the single field of the body of a [POST]
    whose required properties gave nothing. *)
Theorem build_request_body_fields (py : python) (endpoint : Endpoint) (g g' : rng)
    (req : request) (body : list (string * value)) :
  set_iter_ok py ->
  build_request py endpoint g = Ok (req, g') ->
  req_body req = VDict body ->
  exists schema items required,
    request_body endpoint = VDict schema
    /\ Py.dict_get "properties" schema = Some (VDict items)
    /\ required_set schema = Ok required
    /\ forall k v, In (k, v) body ->
         v <> VNone
         /\ (exists definition, Py.dict_get k items = Some definition)
         /\ (In k required
             \/ (method endpoint = "POST" /\ body = [(k, v)] /\ ~ In k required)).
Proof.
  intros Hok H Hbody. unfold build_request in H.
  destruct (header_examples (parameters endpoint) _ g) as [[headers g1] |];
    [| discriminate H].
  cbn [mbind result_bind] in H.
  destruct (Py.truthy (request_body endpoint)).
  2:{ cbn [mbind result_bind] in H. inversion H; subst. discriminate Hbody. }
  destruct (request_body endpoint) as [| | | | | | schema]; try discriminate H.
  destruct (build_body py (method endpoint) schema g1) as [[b g2] |] eqn:Hb;
    [| discriminate H].
  cbn [mbind result_bind] in H. inversion H; subst; clear H. cbn [req_body] in Hbody.
  destruct b as [| field rest]; [discriminate Hbody |]. cbn in Hbody.
  inversion Hbody; subst body; clear Hbody.
  unfold build_body in Hb.
  destruct (required_set schema) as [required |] eqn:Hreq; [| discriminate Hb].
  cbn [mbind result_bind] in Hb.
  assert (Hnd : NoDup required).
  { unfold required_set in Hreq.
    destruct (default (VList []) (Py.dict_get "required" schema)); try discriminate Hreq.
    - inversion Hreq. apply set_of_list_NoDup.
    - destruct (hashable_names l); [| discriminate Hreq]. inversion Hreq.
      apply set_of_list_NoDup.
    - inversion Hreq. apply set_of_list_NoDup. }
  destruct (required_examples _ (set_iter py required) [] g1) as [[b1 g3] |] eqn:Hre;
    [| discriminate Hb].
  cbn [mbind result_bind] in Hb.
  destruct (Py.dict_get "properties" schema) as [props |] eqn:Hprops.
  2:{ (* no properties: nothing is generated *)
      cbn [from_option default id] in *.
      assert (Hb1 : b1 = []).
      { revert Hre. clear. generalize (set_iter py required), g1.
        induction l as [| n l IH]; intros g H; [inversion H; reflexivity |].
        cbn in H. apply (IH _ H). }
      subst b1. exfalso. clear Hre.
      destruct (String.eqb (method endpoint) "POST"); cbn in Hb; inversion Hb. }
  cbn [from_option default id] in *.
  destruct props as [| | | | | | items];
    try (apply required_examples_no_dict in Hre; [| discriminate]; subst b1;
         destruct (String.eqb (method endpoint) "POST"); cbn in Hb; discriminate Hb).
  exists schema, items, required. split; [reflexivity |]. split; [exact Hprops |].
  split; [exact Hreq |].
  assert (H1 : forall k x, In (k, x) b1 ->
                 x <> VNone /\ (exists definition, Py.dict_get k items = Some definition)
                 /\ In k required).
  { intros k x.
    eapply (required_examples_fields items (set_iter py required)
              (fun k x => x <> VNone
                          /\ (exists definition, Py.dict_get k items = Some definition)
                          /\ In k required)).
    - intros name definition v Hname Hget Hv. split; [exact Hv |]. split; [eauto |].
      apply (set_iter_In py required name Hok Hnd). exact Hname.
    - exact Hre.
    - intros k0 x0 []. }
  destruct (String.eqb_spec (method endpoint) "POST") as [Hpost | Hpost];
    cbn [andb] in Hb.
  2:{ inversion Hb; subst. intros k v Hin. destruct (H1 k v Hin) as (? & ? & ?). auto. }
  destruct b1 as [| f1 r1]; cbn [Py.truthy negb] in Hb.
  2:{ inversion Hb; subst. intros k v Hin. destruct (H1 k v Hin) as (? & ? & ?). auto. }
  destruct (optional_fields items required) as [optional |] eqn:Hopt; [| discriminate Hb].
  cbn [mbind result_bind] in Hb.
  set (candidates := match List.filter has_example optional with
                     | [] => optional
                     | _ :: _ => List.filter has_example optional
                     end) in *.
  assert (Hcand : forall c, In c candidates -> In c optional).
  { intros c Hc. unfold candidates in Hc.
    destruct (List.filter has_example optional) eqn:Hf; [exact Hc |].
    rewrite <- Hf in Hc. apply List.filter_In in Hc as [Hc _]. exact Hc. }
  destruct candidates as [| c0 cs] eqn:Hcs; [inversion Hb |].
  pose proof (choice_In c0 (c0 :: cs) g3 ltac:(discriminate)) as Hchoice.
  destruct (Random.choice c0 (c0 :: cs) g3) as [[name definition] g4]. cbn [fst] in Hchoice.
  destruct (generate_example_value definition g4) as [[v g5] |]; [| discriminate Hb].
  cbn [mbind result_bind] in Hb. inversion Hb as [[Hset Hg]]; clear Hb.
  destruct (optional_fields_In _ _ _ Hopt name definition (Hcand _ Hchoice)) as [Hitems Hnreq].
  intros k x Hin. rewrite <- ?Hset in *.
  apply set_unless_none_In in Hin as [(-> & -> & Hv) | []].
  split; [exact Hv |]. split.
  - apply (In_dict_get _ _ _ Hitems).
  - right. split; [exact Hpost |]. split; [| exact Hnreq].
    destruct v; try reflexivity. congruence.
Qed.

Lemma build_request_pets_post_fields :
  exists schema items required,
    request_body pets_post = VDict schema
    /\ Py.dict_get "properties" schema = Some (VDict items)
    /\ required_set schema = Ok required
    /\ forall k v, In (k, v) [("name", VStr "example-string")] ->
         v <> VNone
         /\ (exists definition, Py.dict_get k items = Some definition)
         /\ (In k required
             \/ (method pets_post = "POST" /\ [("name", VStr "example-string")] = [(k, v)]
                 /\ ~ In k required)).
Proof.
  apply (build_request_body_fields pet_python pets_post [] [] pets_post_request).
  - intros l Hl. reflexivity.
  - vm_compute. reflexivity.
  - reflexivity.
Defined.

(* ================================================================== *)
(** * Mutations *)
(* ================================================================== *)

Lemma with_body_same (req : request) : with_body req (req_body req) = req.
Proof. destruct req. reflexivity. Qed.

(** A turn of the loop of [deep_mutation] changes nothing of a request
    but its body. *)
Lemma deep_mutate_request_keeps (py : python) (emoji : string) (endpoints : list Endpoint)
    (req req' : request) (g g' : rng) :
  deep_mutate_request py emoji endpoints req g = Ok (req', g') ->
  exists b, req' = with_body req b.
Proof.
  assert (Hsame : forall r h, Ok (req, h) = Ok (r, g') -> exists b, r = with_body req b).
  { intros r h H. inversion H; subst. exists (req_body r). symmetry. apply with_body_same. }
  unfold deep_mutate_request. intros H.
  destruct (find_endpoint_by_request req endpoints) as [ep |]; [| eauto].
  destruct (negb (Py.truthy (request_body ep))); [eauto |].
  destruct (loads_body py (req_body req)) as [original_body |]; [| eauto].
  destruct (get_or_empty "content" (request_body ep)) as [content |]; [| discriminate H].
  cbn [mbind result_bind] in H.
  destruct (get_or_empty "application/json" content) as [app_json |]; [| discriminate H].
  cbn [mbind result_bind] in H.
  destruct (get_or_empty "schema" app_json) as [schema |]; [| discriminate H].
  cbn [mbind result_bind] in H.
  destruct (negb (Py.truthy schema)); [eauto |].
  destruct schema as [| | | | | | sd]; try discriminate H.
  destruct (negb (is_str (Py.dict_get "type" sd) "object")); [eauto |].
  destruct (get_or_empty "properties" (VDict sd)) as [properties |]; [| discriminate H].
  cbn [mbind result_bind] in H.
  destruct properties as [| | | | | | props]; try discriminate H.
  destruct (add_optional_fields emoji props _ original_body g) as [[body' g1] |];
    [| discriminate H].
  cbn [mbind result_bind] in H. inversion H; subst. eauto.
Qed.

(** X22: whatever the endpoints and the runtime, a sequence that
    [deep_mutation] returns has the length of the given one, and request by
    request the same method, url, headers and parameters: only bodies are
    mutated, so the signature of the sequence is the same. *)
Theorem deep_mutation_keeps_signature (py : python) (emoji : string)
    (sequence mutated : list request) (endpoints : list Endpoint) (g g' : rng) :
  deep_mutation py emoji sequence endpoints g = Ok (mutated, g') ->
  length mutated = length sequence
  /\ map req_method mutated = map req_method sequence
  /\ map req_url mutated = map req_url sequence
  /\ map req_headers mutated = map req_headers sequence
  /\ map req_parameters mutated = map req_parameters sequence
  /\ sequence_signature mutated = sequence_signature sequence.
Proof.
  revert mutated g g'. induction sequence as [| req sequence IH]; intros mutated g g' H.
  - inversion H; subst. repeat split.
  - cbn [deep_mutation] in H.
    destruct (deep_mutate_request py emoji endpoints req g) as [[req' g1] |] eqn:Hreq;
      [| discriminate H].
    cbn [mbind result_bind] in H.
    destruct (deep_mutation py emoji sequence endpoints g1) as [[rest g2] |] eqn:Hrest;
      [| discriminate H].
    cbn [mbind result_bind] in H. inversion H; subst; clear H.
    destruct (IH _ _ _ Hrest) as (H1 & H2 & H3 & H4 & H5 & H6).
    apply deep_mutate_request_keeps in Hreq as [b ->].
    cbn. rewrite H1, H2, H3, H4, H5. unfold sequence_signature in H6. rewrite H6.
    repeat split.
Qed.

(** A request with a text body on an endpoint whose schema is found under
    [content]: the body is parsed, the optional [tag] is added and the body
    is serialized again; the rest of the request stays. *)
Lemma deep_mutation_pets_keeps_signature :
  length [with_body pets_post_text_request (VStr "<json>")]
  = length [pets_post_text_request]
  /\ map req_method [with_body pets_post_text_request (VStr "<json>")]
     = map req_method [pets_post_text_request]
  /\ map req_url [with_body pets_post_text_request (VStr "<json>")]
     = map req_url [pets_post_text_request]
  /\ map req_headers [with_body pets_post_text_request (VStr "<json>")]
     = map req_headers [pets_post_text_request]
  /\ map req_parameters [with_body pets_post_text_request (VStr "<json>")]
     = map req_parameters [pets_post_text_request]
  /\ sequence_signature [with_body pets_post_text_request (VStr "<json>")]
     = sequence_signature [pets_post_text_request].
Proof.
  apply (deep_mutation_keeps_signature pet_python "" _ _ [pets_post_content] [1%N] []).
  vm_compute. reflexivity.
Defined.

(** X23: a body that is not a text is never parsed: on a sequence of
    requests whose bodies are dicts or [None], as [build_request] and
    [mutate_request] make them, [deep_mutation] returns the sequence as it
    is and draws no random value, whatever the endpoints. *)
Theorem deep_mutation_bodies_not_text (py : python) (emoji : string)
    (sequence : list request) (endpoints : list Endpoint) (g : rng) :
  Forall (fun req => isinstance_str (req_body req) = false) sequence ->
  deep_mutation py emoji sequence endpoints g = Ok (sequence, g).
Proof.
  induction 1 as [| req sequence Hreq Hrest IH]; [reflexivity |].
  cbn [deep_mutation].
  rewrite (deep_mutate_request_body_not_text py emoji endpoints req g Hreq).
  cbn [mbind result_bind]. rewrite IH. reflexivity.
Qed.

Lemma deep_mutation_built_request_unchanged :
  deep_mutation pet_python "" [pets_post_request; pets_get_request] [pets_post] [1%N]
  = Ok ([pets_post_request; pets_get_request], [1%N]).
Proof.
  apply deep_mutation_bodies_not_text. repeat constructor.
Defined.

Lemma dict_get_dict_set (k k' : string) (v : value) (d : list (string * value)) :
  Py.dict_get k (Py.dict_set k' v d) = if String.eqb k k' then Some v else Py.dict_get k d.
Proof.
  induction d as [| [k0 v0] d IH]; cbn.
  - destruct (String.eqb k k'); reflexivity.
  - destruct (String.eqb k' k0) eqn:E0.
    + apply String.eqb_eq in E0. subst k0. cbn. destruct (String.eqb k k'); reflexivity.
    + cbn. destruct (String.eqb k k0) eqn:E.
      * apply String.eqb_eq in E. subst k0. rewrite String.eqb_sym, E0. reflexivity.
      * exact IH.
Qed.

Lemma dict_has_dict_set (k k' : string) (v : value) (d : list (string * value)) :
  Py.dict_has k d = true -> Py.dict_has k (Py.dict_set k' v d) = true.
Proof.
  unfold Py.dict_has. rewrite dict_get_dict_set.
  destruct (String.eqb k k'); [reflexivity | auto].
Qed.

Lemma variant_keeps (req : request) (original_body : list (string * value))
    (field : string) (v : value) :
  let r := variant req (Py.dict_set field v original_body) in
  req_method r = req_method req /\ req_url r = req_url req
  /\ req_headers r = req_headers req /\ req_parameters r = None
  /\ exists b, req_body r = VDict b
               /\ forall k, Py.dict_has k original_body = true -> Py.dict_has k b = true.
Proof.
  cbn. repeat split. eexists. split; [reflexivity |].
  intros k Hk. apply dict_has_dict_set. exact Hk.
Qed.

Lemma value_mutations_spec (req : request) (original_body : list (string * value))
    (fields : list string) (g : rng) :
  length (fst (value_mutations req original_body fields g)) = length fields
  /\ Forall (fun r => req_method r = req_method req /\ req_url r = req_url req
                      /\ req_headers r = req_headers req /\ req_parameters r = None
                      /\ exists b, req_body r = VDict b
                                   /\ forall k, Py.dict_has k original_body = true ->
                                                Py.dict_has k b = true)
            (fst (value_mutations req original_body fields g)).
Proof.
  revert g. induction fields as [| field fields IH]; intros g.
  { split; [reflexivity | constructor]. }
  cbn [value_mutations].
  destruct (mutate_value _ g) as [v g1]. specialize (IH g1).
  destruct (value_mutations req original_body fields g1) as [rest g2]. cbn [fst] in *.
  destruct IH as [Hlen Hall]. split; [cbn; congruence |].
  constructor; [apply variant_keeps | exact Hall].
Qed.

Lemma optional_mutations_spec (req : request) (properties : value)
    (original_body : list (string * value)) (fields : list string) :
  forall (g g' : rng) (more : list request),
    optional_mutations req properties original_body fields g = Ok (more, g') ->
    Forall (fun r => req_method r = req_method req /\ req_url r = req_url req
                     /\ req_headers r = req_headers req /\ req_parameters r = None
                     /\ exists b, req_body r = VDict b
                                  /\ forall k, Py.dict_has k original_body = true ->
                                               Py.dict_has k b = true)
           more.
Proof.
  induction fields as [| field fields IH]; intros g g' more H.
  - inversion H; subst. constructor.
  - cbn [optional_mutations] in H. destruct properties as [| | | | | | props]; try discriminate H.
    destruct (Py.dict_get field props) as [definition |]; [| discriminate H].
    destruct (generate_example_value definition g) as [[example_val g1] |]; [| discriminate H].
    cbn [mbind result_bind] in H.
    destruct (optional_mutations req (VDict props) original_body fields g1)
      as [[rest g2] |] eqn:Hrest; [| discriminate H].
    cbn [mbind result_bind] in H. inversion H; subst; clear H.
    specialize (IH _ _ _ Hrest).
    destruct example_val; [exact IH | ..]; constructor; try exact IH; apply variant_keeps.
Qed.

Lemma value_mutations_field (req : request) (original_body : list (string * value))
    (fields : list string) (g : rng) (field : string) :
  In field fields ->
  exists v,
    In (variant req (Py.dict_set field v original_body))
       (fst (value_mutations req original_body fields g)).
Proof.
  revert g. induction fields as [| f fields IH]; intros g Hin; [destruct Hin |].
  cbn [value_mutations].
  destruct (mutate_value _ g) as [v g1]. specialize (IH g1).
  destruct (value_mutations req original_body fields g1) as [rest g2]. cbn [fst] in *.
  destruct Hin as [<- | Hin].
  - exists v. left. reflexivity.
  - destruct (IH Hin) as [v' Hv']. exists v'. right. exact Hv'.
Qed.

(** X24: [mutate_request] never returns an empty list, so the main loop
    always has a variant to pick.  When the body is not a dict with
    fields it returns the request alone and draws nothing.  When it is,
    it returns, for each field of the body, a variant whose body is the
    original one with that field set anew (so at least as many variants as
    fields), and every variant has the method, the url and the headers of
    the request, no parameters, and a body with all the fields of the
    original one. *)
Theorem mutate_request_variants (req : request) (schema : value) (g g' : rng)
    (variants : list request) :
  mutate_request req schema g = Ok (variants, g') ->
  variants <> []
  /\ ((forall d, req_body req = VDict d -> d = []) -> variants = [req] /\ g' = g)
  /\ (forall original_body,
        req_body req = VDict original_body -> original_body <> [] ->
        (length original_body <= length variants)%nat
        /\ (forall field, In field (Py.dict_keys original_body) ->
              exists v, In (variant req (Py.dict_set field v original_body)) variants)
        /\ Forall (fun r => req_method r = req_method req /\ req_url r = req_url req
                            /\ req_headers r = req_headers req /\ req_parameters r = None
                            /\ exists b, req_body r = VDict b
                                         /\ forall k, Py.dict_has k original_body = true ->
                                                      Py.dict_has k b = true)
                  variants).
Proof.
  unfold mutate_request. intros H.
  destruct (req_body req) as [| | | | | | [| field0 original_body]] eqn:Hbody;
    try (inversion H; subst; split; [discriminate |];
         split; [intros _; split; reflexivity |];
         intros ob Hob Hne; first [discriminate Hob | inversion Hob; subst; congruence]).
  destruct (value_mutations_spec req (field0 :: original_body)
              (Py.dict_keys (field0 :: original_body)) g) as [Hlen Hall].
  pose proof (value_mutations_field req (field0 :: original_body)
                (Py.dict_keys (field0 :: original_body)) g) as Hfield.
  destruct (value_mutations req (field0 :: original_body) _ g) as [mutations g1].
  cbn [fst] in *.
  destruct (get_or_empty "properties" schema) as [properties |]; [| discriminate H].
  cbn [mbind result_bind] in H.
  match type of H with
  | context [mbind _ ?b] => destruct b as [required |]; [| discriminate H]
  end.
  cbn [mbind result_bind] in H.
  destruct (field_names properties) as [names |]; [| discriminate H].
  cbn [mbind result_bind] in H.
  match type of H with
  | context [optional_mutations ?a ?b ?c ?d ?e] =>
      destruct (optional_mutations a b c d e) as [[more g2] |] eqn:Hmore; [| discriminate H]
  end.
  cbn [mbind result_bind] in H. inversion H; subst; clear H.
  assert (Hlen' : (length (field0 :: original_body) <= length (mutations ++ more))%nat).
  { rewrite length_app, Hlen. unfold Py.dict_keys. rewrite length_map. lia. }
  split; [intros E; rewrite E in Hlen'; cbn in Hlen'; lia |].
  split; [intros Hd; discriminate (Hd _ eq_refl) |].
  intros ob Hob _. inversion Hob; subst ob; clear Hob.
  split; [exact Hlen' |]. split.
  - intros field Hin. destruct (Hfield field Hin) as [v Hv].
    exists v. apply in_app_iff. left. exact Hv.
  - apply Forall_app. split; [exact Hall |].
    apply (optional_mutations_spec _ _ _ _ _ _ _ Hmore).
Qed.

Lemma mutate_request_pets_post_variants :
  [variant pets_post_request [("name", VStr "")];
   variant pets_post_request [("name", VStr "example-string"); ("tag", VStr "example-string")]]
  <> []
  /\ ((forall d, req_body pets_post_request = VDict d -> d = []) ->
      [variant pets_post_request [("name", VStr "")];
       variant pets_post_request
         [("name", VStr "example-string"); ("tag", VStr "example-string")]]
      = [pets_post_request]
      /\ @nil N = [])
  /\ (forall original_body,
        req_body pets_post_request = VDict original_body -> original_body <> [] ->
        (length original_body
         <= length [variant pets_post_request [("name", VStr "")];
                    variant pets_post_request
                      [("name", VStr "example-string"); ("tag", VStr "example-string")]])%nat
        /\ (forall field, In field (Py.dict_keys original_body) ->
              exists v,
                In (variant pets_post_request (Py.dict_set field v original_body))
                   [variant pets_post_request [("name", VStr "")];
                    variant pets_post_request
                      [("name", VStr "example-string"); ("tag", VStr "example-string")]])
        /\ Forall (fun r => req_method r = req_method pets_post_request
                            /\ req_url r = req_url pets_post_request
                            /\ req_headers r = req_headers pets_post_request
                            /\ req_parameters r = None
                            /\ exists b, req_body r = VDict b
                                         /\ forall k, Py.dict_has k original_body = true ->
                                                      Py.dict_has k b = true)
                  [variant pets_post_request [("name", VStr "")];
                   variant pets_post_request
                     [("name", VStr "example-string"); ("tag", VStr "example-string")]]).
Proof.
  apply (mutate_request_variants pets_post_request (request_body pets_post) [] []).
  vm_compute. reflexivity.
Defined.

Lemma is_str_exclusive (t : option value) (a b : string) :
  is_str t a = true -> a <> b -> is_str t b = false.
Proof.
  destruct t as [[| | | | s | |] |]; try discriminate. cbn.
  intros Ha Hab. apply String.eqb_eq in Ha. subst s.
  apply String.eqb_neq. exact Hab.
Qed.

(** X25: the value that [generate_fuzz_value] makes for a schema always
    has the type that the schema names: a string for [string], an integer
    of 32 bits for [integer], a float for [number], a boolean for
    [boolean], the empty list and the empty dict for [array] and
    [object]. *)
Theorem generate_fuzz_value_conforms (emoji : string) (d : list (string * value))
    (g : rng) :
  exists v g',
    generate_fuzz_value emoji (VDict d) g = Ok (v, g')
    /\ (is_str (Py.dict_get "type" d) "string" = true -> isinstance_str v = true)
    /\ (is_str (Py.dict_get "type" d) "integer" = true ->
        exists z, v = VInt z /\ (- 2 ^ 31 <= z <= 2 ^ 31 - 1)%Z)
    /\ (is_str (Py.dict_get "type" d) "number" = true -> isinstance_float v = true)
    /\ (is_str (Py.dict_get "type" d) "boolean" = true -> isinstance_bool v = true)
    /\ (is_str (Py.dict_get "type" d) "array" = true -> v = VList [])
    /\ (is_str (Py.dict_get "type" d) "object" = true -> v = VDict []).
Proof.
  cbn [generate_fuzz_value]. set (typ := Py.dict_get "type" d).
  destruct (is_str typ "string") eqn:E1.
  { pose proof (choice_In VNone
                  [VStr ""; VStr (repeat_string "a" 1000); VStr emoji;
                   VStr (String "000"%char ""); VStr "null"; VStr "1234"] g
                  ltac:(discriminate)) as Hin.
    destruct (Random.choice VNone _ g) as [v g1]. cbn [fst] in Hin.
    exists v, g1. split; [reflexivity |].
    rewrite !(is_str_exclusive typ "string" _ E1) by discriminate.
    split; [| repeat split; discriminate].
    intros _. cbn [In] in Hin.
    repeat (destruct Hin as [<- | Hin]; [reflexivity |]). destruct Hin. }
  destruct (is_str typ "integer") eqn:E2.
  { pose proof (choice_In VNone
                  [VInt (-1); VInt 0; VInt 1; VInt (2 ^ 31 - 1); VInt (- 2 ^ 31)] g
                  ltac:(discriminate)) as Hin.
    destruct (Random.choice VNone _ g) as [v g1]. cbn [fst] in Hin.
    exists v, g1. split; [reflexivity |].
    rewrite !(is_str_exclusive typ "integer" _ E2) by discriminate.
    split; [discriminate |]. split; [| repeat split; discriminate].
    intros _. cbn [In] in Hin.
    repeat (destruct Hin as [<- | Hin]; [eexists; split; [reflexivity | lia] |]).
    destruct Hin. }
  destruct (is_str typ "number") eqn:E3.
  { pose proof (choice_In VNone
                  [VFloat (FQ (-1)); VFloat (FQ 0); VFloat (FQ (314159 # 100000));
                   VFloat FInf; VFloat FNegInf] g ltac:(discriminate)) as Hin.
    destruct (Random.choice VNone _ g) as [v g1]. cbn [fst] in Hin.
    exists v, g1. split; [reflexivity |].
    rewrite !(is_str_exclusive typ "number" _ E3) by discriminate.
    split; [discriminate |]. split; [discriminate |].
    split; [| repeat split; discriminate].
    intros _. cbn [In] in Hin.
    repeat (destruct Hin as [<- | Hin]; [reflexivity |]). destruct Hin. }
  destruct (is_str typ "boolean") eqn:E4.
  { pose proof (choice_In VNone [VBool true; VBool false] g ltac:(discriminate)) as Hin.
    destruct (Random.choice VNone _ g) as [v g1]. cbn [fst] in Hin.
    exists v, g1. split; [reflexivity |].
    rewrite !(is_str_exclusive typ "boolean" _ E4) by discriminate.
    split; [discriminate |]. split; [discriminate |]. split; [discriminate |].
    split; [| repeat split; discriminate].
    intros _. cbn [In] in Hin.
    repeat (destruct Hin as [<- | Hin]; [reflexivity |]). destruct Hin. }
  destruct (is_str typ "array") eqn:E5.
  { eexists _, _. split; [reflexivity |].
    rewrite !(is_str_exclusive typ "array" _ E5) by discriminate.
    repeat split; discriminate. }
  destruct (is_str typ "object") eqn:E6.
  { eexists _, _. split; [reflexivity |]. repeat split; discriminate. }
  eexists _, _. split; [reflexivity |]. repeat split; discriminate.
Qed.

(* ================================================================== *)
(** * Sending a sequence *)
(* ================================================================== *)

Lemma send_sequence_length {W} (http : transport W) (requests_list : list request)
    (base_url : string) (auth_handler : option AuthHandler) (w : W) :
  length (snd (send_sequence http requests_list base_url auth_handler w))
  = length requests_list.
Proof.
  revert w. induction requests_list as [| req requests_list IH]; intros w; [reflexivity |].
  cbn [send_sequence].
  destruct (send_one http base_url auth_handler w req) as [w1 resp].
  specialize (IH w1).
  destruct (send_sequence http requests_list base_url auth_handler w1) as [w2 responses].
  cbn [snd length] in *. congruence.
Qed.

(** The last response is the answer to the last request. *)
Lemma send_sequence_snoc {W} (http : transport W) (requests_list : list request)
    (req : request) (base_url : string) (auth_handler : option AuthHandler) (w : W) :
  send_sequence http (requests_list ++ [req]) base_url auth_handler w
  = let '(w1, responses) := send_sequence http requests_list base_url auth_handler w in
    let '(w2, resp) := send_one http base_url auth_handler w1 req in
    (w2, responses ++ [resp]).
Proof.
  revert w. induction requests_list as [| r requests_list IH]; intros w.
  - cbn. destruct (send_one http base_url auth_handler w req). reflexivity.
  - cbn [app send_sequence].
    destruct (send_one http base_url auth_handler w r) as [w1 resp1].
    rewrite IH.
    destruct (send_sequence http requests_list base_url auth_handler w1) as [w2 responses].
    destruct (send_one http base_url auth_handler w2 req) as [w3 resp]. reflexivity.
Qed.

(** X26: [send_sequence] answers every request, an exchange that raises
    included: there are as many responses as requests, whatever the
    target answers, with or without an auth handler.  So [responses[-1]]
    raises [IndexError] exactly for the empty sequence, and for any other
    sequence it is the answer to its last request, sent after all the
    others. *)
Theorem send_sequence_answers_all {W} (http : transport W) (base_url : string)
    (auth_handler : option AuthHandler) (w : W) (extended_sequence : list request) :
  length (snd (send_sequence http extended_sequence base_url auth_handler w))
  = length extended_sequence
  /\ (last_response (snd (send_sequence http extended_sequence base_url auth_handler w))
      = Raise IndexError
      <-> extended_sequence = [])
  /\ (forall before req,
        extended_sequence = before ++ [req] ->
        last_response (snd (send_sequence http extended_sequence base_url auth_handler w))
        = Ok (snd (send_one http base_url auth_handler
                            (fst (send_sequence http before base_url auth_handler w))
                            req))).
Proof.
  pose proof (send_sequence_length http extended_sequence base_url auth_handler w) as Hlen.
  split; [exact Hlen |]. split.
  - unfold last_response.
    destruct (List.rev (snd (send_sequence http extended_sequence base_url auth_handler w)))
      as [| r others] eqn:Hrev.
    + apply (f_equal (@length response)) in Hrev. rewrite length_rev, Hlen in Hrev.
      destruct extended_sequence; [tauto | discriminate Hrev].
    + split; [discriminate |]. intros ->. discriminate Hrev.
  - intros before req ->. rewrite send_sequence_snoc. unfold last_response.
    destruct (send_sequence http before base_url auth_handler w) as [w1 responses].
    cbn [fst]. destruct (send_one http base_url auth_handler w1 req) as [w2 resp].
    cbn [snd]. rewrite rev_app_distr. reflexivity.
Qed.

Lemma send_sequence_pets_answers_all :
  last_response
    (snd (send_sequence (fun (w : nat) (_ : call) => (S w, inr "refused"))
                        [pets_get_request; pets_post_request] "http://localhost/" None 0%nat))
  = Ok (error_response "refused").
Proof.
  destruct (send_sequence_answers_all (fun (w : nat) (_ : call) => (S w, inr "refused"))
              "http://localhost/" None 0%nat [pets_get_request; pets_post_request])
    as (_ & _ & H).
  rewrite (H [pets_get_request] pets_post_request eq_refl). reflexivity.
Defined.

(* ================================================================== *)
(** * The main loop *)
(* ================================================================== *)

Lemma coverage_subseteq_update (c other : coverage) :
  coverage_subseteq c (coverage_update c other).
Proof. repeat split; cbn; apply union_subseteq_l. Qed.

Lemma tcl_score_update (c other spec_info : coverage) :
  (calculate_tcl_score c spec_info
   <= calculate_tcl_score (coverage_update c other) spec_info)%Q.
Proof.
  unfold calculate_tcl_score.
  repeat apply Qplus_le_compat; try apply Qle_refl; apply partial_score_mono; cbn.
  - apply match_paths_mono. apply union_subseteq_l.
  - apply match_operations_mono. apply union_subseteq_l.
  - apply intersection_mono_r. apply union_subseteq_l.
  - apply intersection_mono_r. apply union_subseteq_l.
  - apply intersection_mono_r. apply union_subseteq_l.
  - apply intersection_mono_r. apply union_subseteq_l.
Qed.

(** What the part of an iteration after the test on the signature does
    to the state. *)
Lemma execute_state (py : python) (send_sequence : list request -> list response)
    (spec_info : coverage) (param_names : list string)
    (st st' : engine) (extended_sequence : list request) :
  execute py send_sequence spec_info param_names st extended_sequence = Ok st' ->
  mutation_mode st' = mutation_mode st
  /\ stagnation_counter st' = stagnation_counter st
  /\ last_total_score st' = last_total_score st
  /\ seen_signatures st' = seen_signatures st
  /\ (exists entry, corpus st' = corpus st ++ [entry]
                    /\ sequence entry = extended_sequence
                    /\ responses entry = send_sequence extended_sequence)
  /\ sent st' = extended_sequence :: sent st
  /\ seen_fields st ⊆ seen_fields st'
  /\ (exists other, cumulative_coverage st' = coverage_update (cumulative_coverage st) other)
  /\ (exists new_ids, dynamic_id_table st' = update_id_table (dynamic_id_table st) new_ids).
Proof.
  unfold execute. intros H.
  destruct (List.rev (send_sequence extended_sequence)) as [| last_response others];
    [discriminate H |].
  destruct (CALCULATE_DIVERSITY py last_response (seen_fields st)) as [diversity new_fields].
  inversion H; subst; clear H. cbn.
  repeat split; eauto. apply union_subseteq_l.
Qed.

(** X27: an iteration of the main loop forgets nothing: the signatures
    seen, the fields seen, the coverage and the corpus only grow, a value of
    the table of identifiers stays under its key, the cumulative score does
    not decrease, and the corpus gains an entry exactly when a sequence is
    sent. *)
Theorem iterate_state_grows (py : python) (send_sequence : list request -> list response)
    (spec_info : coverage) (param_names : list string)
    (st st' : engine) (extended_sequence : list request) :
  iterate py send_sequence spec_info param_names st extended_sequence = Ok st' ->
  seen_signatures st ⊆ seen_signatures st'
  /\ seen_fields st ⊆ seen_fields st'
  /\ coverage_subseteq (cumulative_coverage st) (cumulative_coverage st')
  /\ (calculate_tcl_score (cumulative_coverage st) spec_info
      <= calculate_tcl_score (cumulative_coverage st') spec_info)%Q
  /\ (forall k vs, assoc k (dynamic_id_table st) = Some vs ->
                   exists added, assoc k (dynamic_id_table st') = Some (vs ++ added))
  /\ ((corpus st' = corpus st /\ sent st' = sent st)
      \/ (exists entry, corpus st' = corpus st ++ [entry]
                        /\ sequence entry = extended_sequence
                        /\ sent st' = extended_sequence :: sent st)).
Proof.
  unfold iterate. intros H.
  set (sig := sequence_signature extended_sequence) in *.
  assert (Hexec : forall st0,
             execute py send_sequence spec_info param_names st0 extended_sequence = Ok st' ->
             seen_signatures st0 ⊆ seen_signatures st'
             /\ seen_fields st0 ⊆ seen_fields st'
             /\ coverage_subseteq (cumulative_coverage st0) (cumulative_coverage st')
             /\ (calculate_tcl_score (cumulative_coverage st0) spec_info
                 <= calculate_tcl_score (cumulative_coverage st') spec_info)%Q
             /\ (forall k vs, assoc k (dynamic_id_table st0) = Some vs ->
                              exists added,
                                assoc k (dynamic_id_table st') = Some (vs ++ added))
             /\ (exists entry, corpus st' = corpus st0 ++ [entry]
                               /\ sequence entry = extended_sequence
                               /\ sent st' = extended_sequence :: sent st0)).
  { intros st0 H0. apply execute_state in H0
      as (_ & _ & _ & Hseen & (entry & Hc & Hs & _) & Hsent & Hf & (other & Hcov)
          & (new_ids & Hids)).
    split; [rewrite Hseen; reflexivity |]. split; [exact Hf |].
    split; [rewrite Hcov; apply coverage_subseteq_update |].
    split; [rewrite Hcov; apply tcl_score_update |].
    split; [| eauto].
    intros k vs Hk. rewrite Hids. apply update_id_table_prefix. exact Hk. }
  destruct (negb (mutation_mode st)).
  2:{ destruct (Hexec st H) as (H1 & H2 & H3 & H4 & H5 & H6). auto 10. }
  set (upd := if negb (negb (bool_decide (sig ∈ seen_signatures st)))
              then ((stagnation_counter st + 1)%Q, seen_signatures st)
              else if Qle_bool (calculate_tcl_score (cumulative_coverage st) spec_info)
                               (last_total_score st)
                   then ((stagnation_counter st + (2 # 10))%Q, seen_signatures st ∪ {[ sig ]})
                   else (0%Q, seen_signatures st ∪ {[ sig ]})) in *.
  assert (Hupd : seen_signatures st ⊆ snd upd).
  { unfold upd. destruct (negb _); [reflexivity |].
    destruct (Qle_bool _ _); cbn; apply union_subseteq_l. }
  destruct upd as [stagnation seen]. cbn [snd] in Hupd.
  destruct (Qle_bool STAGNATION_WINDOW stagnation).
  - inversion H; subst; clear H. cbn.
    split; [exact Hupd |]. split; [reflexivity |].
    split; [repeat split; reflexivity |]. split; [apply Qle_refl |].
    split; [| left; auto]. intros k vs Hk. exists []. rewrite app_nil_r. exact Hk.
  - destruct (Hexec _ H) as (H1 & H2 & H3 & H4 & H5 & H6). cbn in *.
    split; [etransitivity; eassumption |]. auto 10.
Qed.

Lemma iterate_seeded_engine_grows :
  exists st',
    iterate pet_python pet_target empty_coverage [] seeded_engine [pets_get_request] = Ok st'
    /\ seen_signatures seeded_engine ⊆ seen_signatures st'
    /\ seen_fields seeded_engine ⊆ seen_fields st'
    /\ coverage_subseteq (cumulative_coverage seeded_engine) (cumulative_coverage st')
    /\ (calculate_tcl_score (cumulative_coverage seeded_engine) empty_coverage
        <= calculate_tcl_score (cumulative_coverage st') empty_coverage)%Q
    /\ (forall k vs, assoc k (dynamic_id_table seeded_engine) = Some vs ->
                     exists added, assoc k (dynamic_id_table st') = Some (vs ++ added))
    /\ ((corpus st' = corpus seeded_engine /\ sent st' = sent seeded_engine)
        \/ (exists entry, corpus st' = corpus seeded_engine ++ [entry]
                          /\ sequence entry = [pets_get_request]
                          /\ sent st' = [pets_get_request] :: sent seeded_engine)).
Proof.
  destruct (iterate pet_python pet_target empty_coverage [] seeded_engine [pets_get_request])
    as [st' |] eqn:H.
  - exists st'. split; [reflexivity |]. apply (iterate_state_grows _ _ _ _ _ _ _ H).
  - exfalso. vm_compute in H. discriminate H.
Defined.

(** X28: mutation mode is absorbing.  Once the loop is in mutation mode
    an iteration leaves the mode, the stagnation counter, the last score and
    the signatures seen as they are, and the sequence is sent and stored
    whatever its signature. *)
Theorem mutation_mode_absorbing (py : python)
    (send_sequence : list request -> list response)
    (spec_info : coverage) (param_names : list string)
    (st st' : engine) (extended_sequence : list request) :
  mutation_mode st = true ->
  iterate py send_sequence spec_info param_names st extended_sequence = Ok st' ->
  mutation_mode st' = true
  /\ stagnation_counter st' = stagnation_counter st
  /\ last_total_score st' = last_total_score st
  /\ seen_signatures st' = seen_signatures st
  /\ sent st' = extended_sequence :: sent st
  /\ exists entry, corpus st' = corpus st ++ [entry] /\ sequence entry = extended_sequence.
Proof.
  intros Hmode H. unfold iterate in H. rewrite Hmode in H. cbn [negb] in H.
  apply execute_state in H
    as (H1 & H2 & H3 & H4 & (entry & Hc & Hs & _) & H6 & _).
  rewrite H1, Hmode. eauto 10.
Qed.

Lemma iterate_mutating_engine_absorbing :
  exists st',
    iterate pet_python pet_target empty_coverage [] mutating_engine [pets_get_request] = Ok st'
    /\ mutation_mode st' = true
    /\ stagnation_counter st' = stagnation_counter mutating_engine
    /\ last_total_score st' = last_total_score mutating_engine
    /\ seen_signatures st' = seen_signatures mutating_engine
    /\ sent st' = [pets_get_request] :: sent mutating_engine
    /\ exists entry, corpus st' = corpus mutating_engine ++ [entry]
                     /\ sequence entry = [pets_get_request].
Proof.
  destruct (iterate pet_python pet_target empty_coverage [] mutating_engine [pets_get_request])
    as [st' |] eqn:H.
  - exists st'. split; [reflexivity |].
    apply (mutation_mode_absorbing pet_python pet_target empty_coverage []
             mutating_engine st' [pets_get_request]); [reflexivity | exact H].
  - exfalso. vm_compute in H. discriminate H.
Defined.

(* ================================================================== *)
(** * The request bodies that the parser stores *)
(* ================================================================== *)

(** X29: whatever the specification, the request body that the parser
    stores for an endpoint, in version 3 and in version 2.0, is [None] or a
    dict with exactly the keys [properties] and [required]: the shape that
    [build_request] and [mutate_request] read, and in which
    [deep_mutation] finds no key [content]. *)
Theorem extract_request_body_normalized
    (resolve_schema : value -> value) (op_obj : value) (parameters : list value)
    (stored : value) :
  _extract_request_body_v3 resolve_schema op_obj = Ok stored
  \/ _extract_request_body_v2 resolve_schema parameters = Ok stored ->
  normalized_body stored = true.
Proof.
  intros [H | H]; [apply (extract_request_body_v3_normalized _ _ _ H) |].
  induction parameters as [| p parameters IH]; [inversion H; reflexivity |].
  cbn [_extract_request_body_v2] in H. destruct p as [| | | | | | param]; try discriminate H.
  destruct (is_str (Py.dict_get "in" param) "body"); [| apply IH; exact H].
  destruct (Py.truthy (default VNone (Py.dict_get "schema" param))); [| apply IH; exact H].
  destruct (resolve_schema _) as [| | | | | | sd]; try discriminate H.
  cbn in H. destruct (default (VDict []) (Py.dict_get "properties" sd));
    inversion H; reflexivity.
Qed.

Lemma extract_request_body_pets_normalized :
  normalized_body (VDict [("properties", VDict [("name", string_schema)]);
                          ("required", VList [VStr "name"])]) = true.
Proof.
  apply (extract_request_body_normalized (fun schema => schema) pets_post_operation []).
  left. reflexivity.
Defined.

(* ================================================================== *)
(** * Resolution of dependencies: the example request *)
(* ================================================================== *)

Lemma pet_fallback_returns (ph : string) (g0 : rng) :
  exists v g1, fallback_value pet_python (req_parameters pet_request) ph g0 = Ok (v, g1).
Proof.
  assert (Hs : find_param_schema ph [id_parameter]
               = Ok (if String.eqb "id" ph
                     then VDict [("type", VStr "integer")] else VNone)).
  { unfold find_param_schema, id_parameter.
    change (is_str (Py.dict_get "name" _) ph) with (String.eqb "id" ph).
    destruct (String.eqb "id" ph); reflexivity. }
  unfold fallback_value. cbn [req_parameters pet_request]. rewrite Hs.
  destruct (String.eqb "id" ph); eexists _, _; vm_compute; reflexivity.
Qed.

Lemma RESOLVE_DEPENDENCIES_pet_returns :
  exists h' resolved g',
    RESOLVE_DEPENDENCIES pet_python pet_store 1 toy_table [1%N] = Ok (h', resolved, g').
Proof.
  apply (RESOLVE_DEPENDENCIES_returns pet_python pet_store 1 toy_table [1%N] pet_request).
  - vm_compute. reflexivity.
  - exact pet_fallback_returns.
Defined.
